(** * Mixed-build coordination core of Soong: the Bazel handler

    A shallow embedding of the Bazel handler of Soong: the request ledger
    ([cquery]), the script synthesizer ([mainBuildFileContents],
    [cqueryStarlarkFileContents]), the invocation driver
    ([issueBazelCommand]), the result demultiplexer ([InvokeBazel]) and the
    action splicer ([GenerateBuildActions]), together with the two-pass
    driver [runMixedModeBuild].

    Go strings are byte sequences and are modelled by [string]; Go maps are
    [gmap]/[gset]; the order in which a [range] loop visits a map is not
    fixed by Go and is an explicit argument of every function that has such
    a loop.  Effects (file system, processes, the request mutex) are traced
    in an event log threaded through a small state-and-error monad. *)

From Stdlib Require Import Ascii String.
From stdpp Require Import base tactics option list sorting gmap strings pretty.

(** ** The Go [strings] package, as far as the handler uses it *)

Module strings.

Fixpoint drop (n : nat) (s : string) : string :=
  match n, s with
  | O, _ => s
  | S _, EmptyString => EmptyString
  | S n', String _ s' => drop n' s'
  end.

(** [HasPrefix s prefix]: [s] begins with [prefix]. *)
Definition HasPrefix (s prefix : string) : bool := String.prefix prefix s.
Global Arguments HasPrefix : simpl never.

(** [Cut s sep] slices [s] around the first instance of [sep]. *)
Fixpoint Cut (s sep : string) : option (string * string) :=
  if HasPrefix s sep then Some (EmptyString, drop (String.length sep) s)
  else match s with
       | EmptyString => None
       | String c s' =>
           match Cut s' sep with
           | Some (before, after) => Some (String c before, after)
           | None => None
           end
       end.

(** [Index s sep]: byte offset of the first instance of [sep], if any. *)
Definition Index (s sep : string) : option nat :=
  (λ p, String.length (fst p)) <$> Cut s sep.

Definition Contains (s substr : string) : bool :=
  bool_decide (is_Some (Index s substr)).

(** [SplitN s sep n] for a non-empty [sep] and [n > 0]: at most [n]
    substrings, the last one being the unsplit remainder.  [n = 0]
    yields the empty slice. *)
Fixpoint SplitN (s sep : string) (n : nat) : list string :=
  match n with
  | O => []
  | S O => [s]
  | S n' =>
      match Cut s sep with
      | Some (before, after) => before :: SplitN after sep n'
      | None => [s]
      end
  end.

(** [Split s sep] for a non-empty [sep]: all substrings between
    separators.  There are at most [length s + 1] of them. *)
Definition Split (s sep : string) : list string :=
  SplitN s sep (S (String.length s)).

(** [Join elems sep]. *)
Definition Join (elems : list string) (sep : string) : string :=
  String.concat sep elems.

(** [TrimPrefix s prefix]: [s] without the leading [prefix], or [s]
    itself when it does not begin with [prefix]. *)
Definition TrimPrefix (s prefix : string) : string :=
  if HasPrefix s prefix then drop (String.length prefix) s else s.

End strings.

(** A few byte constants that cannot be written inside a literal. *)
Definition nl : string := String "010"%char EmptyString.
Definition dq : string := String "034"%char EmptyString.

(** ** Data model *)

(** Go's [error] interface is represented by the message it carries; a
    nil error is [None]. *)
Definition error := string.

(** Modelled from the spec: the declaration of [ArchType] is not part of
    the sources at hand; the handler reads only its [Name] field (the
    architecture tag of a request key). *)
Record ArchType := mkArchType { Name : string }.

(** Modelled from the spec: the [cqueryRequest] interface is implemented
    outside the sources at hand; a query kind is the pair of its unique
    name and its Starlark function body. *)
Record cqueryRequest := mkCqueryRequest {
  requestName : string;
  StarlarkFunctionBody : string
}.

(** Map key to describe bazel cquery requests. *)
Record cqueryKey := mkCqueryKey {
  label : string;
  requestType : cqueryRequest;
  archType : ArchType
}.

Record bazelPaths := mkBazelPaths {
  homeDir : string;
  bazelPath : string;
  outputBase : string;
  workspaceDir : string;
  buildDir : string;
  metricsDir : string
}.

Record bazelCommand := mkBazelCommand {
  command : string;
  expression : string
}.

(** Modelled from the spec: [bazel.RunName] and its three constants are
    declared outside the sources at hand. *)
Inductive RunName :=
| CqueryBuildRootRunName
| AqueryBuildRootRunName
| BazelBuildPhonyRootRunName.

(** Modelled from the spec: [bazel.BuildStatement] is declared outside the
    sources at hand; these are the fields the splicer reads. *)
Record BuildStatement := mkBuildStatement {
  Command : string;
  Depfile : option string;
  OutputPaths : list string;
  InputPaths : list string;
  Mnemonic : string
}.

Global Instance ArchType_eq_dec : EqDecision ArchType.
Proof. solve_decision. Defined.
Global Instance cqueryRequest_eq_dec : EqDecision cqueryRequest.
Proof. solve_decision. Defined.
Global Instance cqueryKey_eq_dec : EqDecision cqueryKey.
Proof. solve_decision. Defined.
Global Instance bazelCommand_eq_dec : EqDecision bazelCommand.
Proof. solve_decision. Defined.
Global Instance RunName_eq_dec : EqDecision RunName.
Proof. solve_decision. Defined.

Global Instance ArchType_countable : Countable ArchType.
Proof. by apply (inj_countable' Name mkArchType); intros []. Defined.
Global Instance cqueryRequest_countable : Countable cqueryRequest.
Proof.
  by apply (inj_countable' (λ r, (requestName r, StarlarkFunctionBody r))
                           (λ p, mkCqueryRequest p.1 p.2)); intros [].
Defined.
Global Instance cqueryKey_countable : Countable cqueryKey.
Proof.
  by apply (inj_countable' (λ k, (label k, requestType k, archType k))
                           (λ p, mkCqueryKey p.1.1 p.1.2 p.2)); intros [].
Defined.
Global Instance bazelCommand_countable : Countable bazelCommand.
Proof.
  by apply (inj_countable' (λ c, (command c, expression c))
                           (λ p, mkBazelCommand p.1 p.2)); intros [].
Defined.

(** ** Request identifiers *)

(** Returns a canonicalized label corresponding to the given
    sourcetree-level label. *)
Definition canonicalizeLabel (label : string) : string :=
  if strings.HasPrefix label "//" then "@sourceroot" +:+ label
  else "@sourceroot//" +:+ label.

Definition getArchString (key : cqueryKey) : string :=
  let arch := Name (archType key) in
  if bool_decide (0 < String.length arch) then arch else "x86_64".

Definition getCqueryId (key : cqueryKey) : string :=
  canonicalizeLabel (label key) +:+ "|" +:+ getArchString key.

(** ** The outside world *)

(** An [exec.Cmd]: the program, its argument vector (program first), its
    working directory and its environment. *)
Record Cmd := mkCmd {
  Path : string;
  Args : list string;
  Dir : string;
  Env : list string
}.

(** [exec.Command]: [Path] is the name given, unless the name has no
    directory part and is found among the executables, in which case it
    is the executable found.  [LookPath name] is [Some lp] in that case
    and [None] otherwise (a name with a directory part, or a lookup that
    fails). *)
Definition exec_Command (LookPath : string → option string)
    (name : string) (arg : list string) : Cmd :=
  {| Path := default name (LookPath name);
     Args := name :: arg; Dir := ""; Env := [] |}.

(** [Cmd.String]: the path followed by the arguments, space separated
    (after a failed lookup the path is the name given, the first of the
    arguments). *)
Definition Cmd_String (c : Cmd) : string :=
  strings.Join (Path c :: tail (Args c)) " ".

(** The [%s] verb applied to a slice of strings. *)
Definition fmt_strings (l : list string) : string :=
  "[" +:+ strings.Join l " " +:+ "]".

(** Answers of the operating system.  Each field is what the
    corresponding call returns; the calls themselves are recorded in the
    event log. *)
Record OS := mkOS {
  os_Stat_IsNotExist : string → bool;
  os_Mkdir : string → option error;
  ioutil_WriteFile : string → string → option error;
  ioutil_ReadFile : string → string * option error;
  os_Environ : list string;
  runtime_GOOS : string;
  (** What [exec.Command] resolves a name to: the executable found for a
      name without directory part, [None] when the name has a directory
      part or no executable is found. *)
  exec_LookPath : string → option string;
  (** [Cmd.Output] with [Cmd.Stderr] set to a buffer: standard output,
      contents of the buffer, and the error (non-zero exit). *)
  exec_Output : Cmd → string * string * option error;
  (** Modelled from the spec: [android.ConfigForAdditionalRun] is not part
      of the sources at hand; it builds the configuration of the second
      pass around the same Bazel context, or fails. *)
  ConfigForAdditionalRun : option error
}.

(** Functions of other packages that the handler calls and whose code is
    not part of the sources at hand. *)
Record Externals := mkExternals {
  absolutePath : string → string;
  filepath_Join : string → string → string;
  filepath_Dir : string → string;
  strings_TrimSpace : string → string;
  strconv_Quote : string → string;
  BazelMetricsFilename : bazelPaths → RunName → string;
  AqueryBuildStatements : string → list BuildStatement * option error;
  PathForBazelOut : string → string;
  (** the [%v] verb applied to a build statement *)
  fmt_BuildStatement : BuildStatement → string;
  (** [bootstrap.CmdlineArgs.ModuleListFile] *)
  ModuleListFile : string
}.

Inductive event :=
| EvMutexLock
| EvMutexUnlock
| EvRequestsInsert (key : cqueryKey)
| EvStat (path : string)
| EvMkdir (path : string)
| EvWriteFile (path data : string)
| EvReadFile (path : string)
| EvBazelCommand (runName : RunName) (cmd : bazelCommand)
                 (extraFlags : list string)
| EvAnalysisPass
| EvInvokeBazel.

(** ** A state-and-error monad

    [M S A] is a computation over a state [S] that either returns an [A]
    or stops early with an error (a returned non-nil [error], a panic, or
    the message printed before [os.Exit(1)]). *)

Definition M (S A : Type) : Type := S → S * (error + A).

Global Instance M_ret {S} : MRet (M S) := λ A a s, (s, inr a).
Global Instance M_bind {S} : MBind (M S) := λ A B k m s,
  match m s with
  | (s', inl e) => (s', inl e)
  | (s', inr a) => k a s'
  end.
Definition throw {S A} (e : error) : M S A := λ s, (s, inl e).
Definition gets {S A} (f : S → A) : M S A := λ s, (s, inr (f s)).
Definition modify {S} (f : S → S) : M S unit := λ s, (f s, inr tt).

(** [if err != nil { return err }] *)
Definition check {S} (err : option error) : M S unit :=
  match err with
  | Some e => throw e
  | None => mret tt
  end.

(** ** The Bazel context *)

(** The [bazelRunner] interface.  A runner may have state of its own (the
    test double records the commands it is given). *)
Class bazelRunner (R : Type) :=
  issueBazelCommand :
    R → bazelPaths → RunName → bazelCommand → list string →
    R * (string * string * option error).

(** A context object which tracks queued requests that need to be made to
    Bazel, and their results after the requests have been made.
    [requests] is a Go map to [bool] that only ever holds [true]: a set.
    The request mutex shows in the event log. *)
Record bazelContext (R : Type) := mkBazelContext {
  runner : R;
  paths : bazelPaths;
  requests : gset cqueryKey;
  results : gmap cqueryKey string;
  buildStatements : list BuildStatement
}.
Arguments mkBazelContext {R}.
Arguments runner {R}.
Arguments paths {R}.
Arguments requests {R}.
Arguments results {R}.
Arguments buildStatements {R}.

Definition set_runner {R} (r : R) (c : bazelContext R) : bazelContext R :=
  mkBazelContext r (paths c) (requests c) (results c) (buildStatements c).
Definition set_requests {R} (q : gset cqueryKey) (c : bazelContext R) :=
  mkBazelContext (runner c) (paths c) q (results c) (buildStatements c).
Definition set_results {R} (m : gmap cqueryKey string) (c : bazelContext R) :=
  mkBazelContext (runner c) (paths c) (requests c) m (buildStatements c).
Definition set_buildStatements {R} (l : list BuildStatement)
    (c : bazelContext R) :=
  mkBazelContext (runner c) (paths c) (requests c) (results c) l.

(** The process state the handler acts on: the context and the log of
    effects so far. *)
Record world (R : Type) := mkWorld {
  ctx : bazelContext R;
  log : list event
}.
Arguments mkWorld {R}.
Arguments ctx {R}.
Arguments log {R}.

Definition emit {R} (e : event) : M (world R) unit :=
  modify (λ w, mkWorld (ctx w) (log w ++ [e])).
Definition modifyCtx {R} (f : bazelContext R → bazelContext R)
    : M (world R) unit :=
  modify (λ w, mkWorld (f (ctx w)) (log w)).

(** Modelled from the spec: the type of the second table of the test
    context ([cquery.CcInfo]) is not part of the sources at hand, and the
    table is left out.  A bazel context to use for tests. *)
Record MockBazelContext := mkMockBazelContext {
  OutputBaseDir : string;
  LabelToOutputFiles : gmap string (list string)
}.

(** The three implementations of the [BazelContext] interface. *)
Inductive BazelContext (R : Type) :=
| realBazelContext (c : bazelContext R)
| noopBazelContext
| mockBazelContext (m : MockBazelContext).
Arguments realBazelContext {R}.
Arguments noopBazelContext {R}.
Arguments mockBazelContext {R}.

Definition BazelEnabled {R} (b : BazelContext R) : bool :=
  match b with
  | realBazelContext _ => true
  | noopBazelContext => false
  | mockBazelContext _ => true
  end.

Definition OutputBase {R} (b : BazelContext R) : string :=
  match b with
  | realBazelContext c => outputBase (paths c)
  | noopBazelContext => ""
  | mockBazelContext m => OutputBaseDir m
  end.

Definition BuildStatementsToRegister {R} (b : BazelContext R)
    : list BuildStatement :=
  match b with
  | realBazelContext c => buildStatements c
  | noopBazelContext => []
  | mockBazelContext _ => []
  end.

(** ** The request ledger *)

Section Ledger.
Context {R : Type}.

(** Adds a cquery request to the Bazel request queue, to be later
    invoked, or returns the result of the given request if the request
    was already made.  The deferred unlock runs when the function
    returns. *)
Definition cquery (label : string) (requestType : cqueryRequest)
    (archType : ArchType) : M (world R) (string * bool) :=
  let key := mkCqueryKey label requestType archType in
  found ← gets (λ w, results (ctx w) !! key);
  match found with
  | Some result => mret (result, true)
  | None =>
      emit EvMutexLock;;
      emit (EvRequestsInsert key);;
      modifyCtx (λ c, set_requests ({[key]} ∪ requests c) c);;
      emit EvMutexUnlock;;
      mret ("", false)
  end.

End Ledger.

(** ** Configuration *)

(** Modelled from the spec: the [config] type and its [Getenv] method are
    not part of the sources at hand.  A configuration carries the
    environment settings and the build directory; a setting that is
    absent reads as the empty string. *)
Record config := mkConfig {
  env : gmap string string;
  config_buildDir : string
}.

(** Modelled from the spec: [config.Getenv] is not part of the sources at
    hand; it is the value of the setting, the empty string when the
    setting is absent. *)
Definition Getenv (c : config) (key : string) : string :=
  default "" (env c !! key).

(** [(nil, err)] is [inl err]; [(&p, nil)] is [inr p]. *)
Definition bazelPathsFromConfig (c : config) : error + bazelPaths :=
  let p := mkBazelPaths "" "" "" "" (config_buildDir c) "" in
  let missingEnvVars : list string := [] in
  let '(p, missingEnvVars) :=
    if bool_decide (1 < String.length (Getenv c "BAZEL_HOME"))
    then (mkBazelPaths (Getenv c "BAZEL_HOME") (bazelPath p) (outputBase p)
            (workspaceDir p) (buildDir p) (metricsDir p), missingEnvVars)
    else (p, missingEnvVars ++ ["BAZEL_HOME"]) in
  let '(p, missingEnvVars) :=
    if bool_decide (1 < String.length (Getenv c "BAZEL_PATH"))
    then (mkBazelPaths (homeDir p) (Getenv c "BAZEL_PATH") (outputBase p)
            (workspaceDir p) (buildDir p) (metricsDir p), missingEnvVars)
    else (p, missingEnvVars ++ ["BAZEL_PATH"]) in
  let '(p, missingEnvVars) :=
    if bool_decide (1 < String.length (Getenv c "BAZEL_OUTPUT_BASE"))
    then (mkBazelPaths (homeDir p) (bazelPath p) (Getenv c "BAZEL_OUTPUT_BASE")
            (workspaceDir p) (buildDir p) (metricsDir p), missingEnvVars)
    else (p, missingEnvVars ++ ["BAZEL_OUTPUT_BASE"]) in
  let '(p, missingEnvVars) :=
    if bool_decide (1 < String.length (Getenv c "BAZEL_WORKSPACE"))
    then (mkBazelPaths (homeDir p) (bazelPath p) (outputBase p)
            (Getenv c "BAZEL_WORKSPACE") (buildDir p) (metricsDir p),
          missingEnvVars)
    else (p, missingEnvVars ++ ["BAZEL_WORKSPACE"]) in
  let '(p, missingEnvVars) :=
    if bool_decide (1 < String.length (Getenv c "BAZEL_METRICS_DIR"))
    then (mkBazelPaths (homeDir p) (bazelPath p) (outputBase p)
            (workspaceDir p) (buildDir p) (Getenv c "BAZEL_METRICS_DIR"),
          missingEnvVars)
    else (p, missingEnvVars ++ ["BAZEL_METRICS_DIR"]) in
  if bool_decide (0 < length missingEnvVars)
  then inl ("missing required env vars to use bazel: " +:+
            fmt_strings missingEnvVars)
  else inr p.

Inductive builtinBazelRunner := mkBuiltinBazelRunner.

Definition NewBazelContext (c : config)
    : error + BazelContext builtinBazelRunner :=
  if bool_decide (Getenv c "USE_BAZEL_ANALYSIS" ≠ "1")
  then inr noopBazelContext
  else match bazelPathsFromConfig c with
       | inl err => inl err
       | inr p => inr (realBazelContext
                         (mkBazelContext mkBuiltinBazelRunner p ∅ ∅ []))
       end.

(** The five required settings, in the order the constructor reads them. *)
Definition requiredEnvVars : list string :=
  ["BAZEL_HOME"; "BAZEL_PATH"; "BAZEL_OUTPUT_BASE"; "BAZEL_WORKSPACE";
   "BAZEL_METRICS_DIR"].

(** ** The invocation driver *)

Record mockBazelRunner := mkMockBazelRunner {
  bazelCommandResults : gmap bazelCommand string;
  commands : list bazelCommand
}.

Global Instance mockBazelRunner_issue : bazelRunner mockBazelRunner :=
  λ r paths runName command extraFlags,
    let r := mkMockBazelRunner (bazelCommandResults r)
                               (commands r ++ [command]) in
    match bazelCommandResults r !! command with
    | Some ret => (r, (ret, "", None))
    | None => (r, ("", "", None))
    end.

Definition pwdPrefix (os : OS) : string :=
  if bool_decide (runtime_GOOS os ≠ "darwin") then "PWD=/proc/self/cwd"
  else "".

(** Returns a workspace-relative path containing build-related metadata
    required for interfacing with Bazel. *)
Definition intermediatesDir (ext : Externals) (p : bazelPaths) : string :=
  filepath_Join ext (buildDir p) "bazel".

(** The command the built-in runner executes. *)
Definition builtin_bazelCmd (ext : Externals) (os : OS) (paths : bazelPaths)
    (runName : RunName) (cmd : bazelCommand) (extraFlags : list string)
    : Cmd :=
  let cmdFlags := ["--output_base=" +:+ outputBase paths; command cmd] in
  let cmdFlags := cmdFlags ++ [expression cmd] in
  let cmdFlags := cmdFlags ++
    ["--package_path=%workspace%/" +:+ intermediatesDir ext paths] in
  let cmdFlags := cmdFlags ++
    ["--profile=" +:+ BazelMetricsFilename ext paths runName] in
  let cmdFlags := cmdFlags ++
    ["--platforms=" +:+
     canonicalizeLabel "//build/bazel/platforms:android_x86_64"] in
  let cmdFlags := cmdFlags ++
    ["--extra_toolchains=" +:+
     canonicalizeLabel "//prebuilts/clang/host/linux-x86:all"] in
  let cmdFlags := cmdFlags ++
    ["--host_platform=" +:+
     canonicalizeLabel "//build/bazel/platforms:linux_x86_64"] in
  let cmdFlags := cmdFlags ++ ["--experimental_repository_disable_download"] in
  let cmdFlags := cmdFlags ++ extraFlags in
  let bazelCmd :=
    exec_Command (exec_LookPath os) (bazelPath paths) cmdFlags in
  {| Path := Path bazelCmd;
     Args := Args bazelCmd;
     Dir := workspaceDir paths;
     Env := os_Environ os ++
            ["HOME=" +:+ homeDir paths; pwdPrefix os;
             "BAZEL_DO_NOT_DETECT_CPP_TOOLCHAIN=1"] |}.

(** Issues the given bazel command with given build label and additional
    flags.  Returns (stdout, stderr, error). *)
Definition builtin_issueBazelCommand (ext : Externals) (os : OS)
    : bazelRunner builtinBazelRunner :=
  λ r paths runName command extraFlags,
    let bazelCmd := builtin_bazelCmd ext os paths runName command extraFlags in
    let '(output, stderr, err) := exec_Output os bazelCmd in
    match err with
    | Some _ =>
        (r, ("", stderr,
             Some ("bazel command failed. command: [" +:+ Cmd_String bazelCmd
                   +:+ "], env: [" +:+ fmt_strings (Env bazelCmd)
                   +:+ "], error [" +:+ stderr +:+ "]")))
    | None => (r, (output, stderr, None))
    end.

(** ** The script synthesizer *)

(** The format strings of the generated files; the arguments stand for
    the [%s] verbs in order. *)

Definition workspaceFile_formatString (a1 : string) : string :=
  String.concat "" [
    nl; "# This file is generated by soong_build. Do not edit."; nl;
    "local_repository("; nl; "    name = "; dq; "sourceroot"; dq; ","; nl;
    "    path = "; dq; a1; dq; ","; nl; ")"; nl; nl; "local_repository("; nl;
    "    name = "; dq; "rules_cc"; dq; ","; nl; "    path = "; dq; a1;
    "/build/bazel/rules_cc"; dq; ","; nl; ")"; nl; nl; "local_repository(";
    nl; "    name = "; dq; "bazel_skylib"; dq; ","; nl; "    path = "; dq;
    a1; "/build/bazel/bazel_skylib"; dq; ","; nl; ")"; nl
  ].

Definition mainBzlFile_contents : string :=
  String.concat "" [
    nl; "#####################################################"; nl;
    "# This file is generated by soong_build. Do not edit."; nl;
    "#####################################################"; nl; nl;
    "def _config_node_transition_impl(settings, attr):"; nl; "    return {";
    nl; "        "; dq; "//command_line_option:platforms"; dq; ": "; dq;
    "@sourceroot//build/bazel/platforms:android_%s"; dq; " % attr.arch,"; nl;
    "    }"; nl; nl; "_config_node_transition = transition("; nl;
    "    implementation = _config_node_transition_impl,"; nl;
    "    inputs = [],"; nl; "    outputs = ["; nl; "        "; dq;
    "//command_line_option:platforms"; dq; ","; nl; "    ],"; nl; ")"; nl;
    nl; "def _passthrough_rule_impl(ctx):"; nl;
    "    return [DefaultInfo(files = depset(ctx.files.deps))]"; nl; nl;
    "config_node = rule("; nl;
    "    implementation = _passthrough_rule_impl,"; nl; "    attrs = {"; nl;
    "        "; dq; "arch"; dq; " : attr.string(mandatory = True),"; nl;
    "        "; dq; "deps"; dq;
    " : attr.label_list(cfg = _config_node_transition),"; nl; "        "; dq;
    "_allowlist_function_transition"; dq; ": attr.label(default = "; dq;
    "@bazel_tools//tools/allowlists/function_transition_allowlist"; dq; "),";
    nl; "    },"; nl; ")"; nl; nl; nl;
    "# Rule representing the root of the build, to depend on all Bazel targets that";
    nl;
    "# are required for the build. Building this target will build the entire Bazel";
    nl; "# build tree."; nl; "mixed_build_root = rule("; nl;
    "    implementation = _passthrough_rule_impl,"; nl; "    attrs = {"; nl;
    "        "; dq; "deps"; dq; " : attr.label_list(),"; nl; "    },"; nl;
    ")"; nl; nl; "def _phony_root_impl(ctx):"; nl; "    return []"; nl; nl;
    "# Rule to depend on other targets but build nothing."; nl;
    "# This is useful as follows: building a target of this rule will generate";
    nl;
    "# symlink forests for all dependencies of the target, without executing any";
    nl; "# actions of the build."; nl; "phony_root = rule("; nl;
    "    implementation = _phony_root_impl,"; nl; "    attrs = {"; dq;
    "deps"; dq; " : attr.label_list()},"; nl; ")"; nl
  ].

Definition mainBuildFile_formatString (a1 a2 : string) : string :=
  String.concat "" [
    nl; "# This file is generated by soong_build. Do not edit."; nl; "load(";
    dq; ":main.bzl"; dq; ", "; dq; "config_node"; dq; ", "; dq;
    "mixed_build_root"; dq; ", "; dq; "phony_root"; dq; ")"; nl; nl; a1; nl;
    nl; "mixed_build_root(name = "; dq; "buildroot"; dq; ","; nl;
    "    deps = ["; a2; "],"; nl; ")"; nl; nl; "phony_root(name = "; dq;
    "phonyroot"; dq; ","; nl; "    deps = ["; dq; ":buildroot"; dq; "],"; nl;
    ")"; nl
  ].

Definition configNodeFormatString (a1 a2 a3 : string) : string :=
  String.concat "" [
    nl; "config_node(name = "; dq; a1; dq; ","; nl; "    arch = "; dq; a2;
    dq; ","; nl; "    deps = ["; a3; "],"; nl; ")"; nl
  ].

Definition mapDeclarationFormatString (a1 a2 : string) : string :=
  String.concat "" [
    nl; a1; " = {"; nl; "  "; a2; nl; "}"; nl
  ].

Definition functionDefFormatString (a1 a2 : string) : string :=
  String.concat "" [
    nl; "def "; a1; "(target):"; nl; a2; nl
  ].

Definition mainSwitchSectionFormatString (a1 a2 : string) : string :=
  String.concat "" [
    nl; "  if id_string in "; a1; ":"; nl; "    return id_string + "; dq;
    ">>"; dq; " + "; a2; "(target)"; nl
  ].

Definition cqueryStarlarkFile_formatString (a1 a2 a3 : string) : string :=
  String.concat "" [
    nl; "# This file is generated by soong_build. Do not edit."; nl; nl;
    "# Label Map Section"; nl; a1; nl; nl; "# Function Def Section"; nl; a2;
    nl; nl; "def get_arch(target):"; nl;
    "  buildoptions = build_options(target)"; nl;
    "  platforms = build_options(target)["; dq;
    "//command_line_option:platforms"; dq; "]"; nl;
    "  if len(platforms) != 1:"; nl;
    "    # An individual configured target should have only one platform architecture.";
    nl;
    "    # Note that it's fine for there to be multiple architectures for the same label,";
    nl; "    # but each is its own configured target."; nl; "    fail("; dq;
    "expected exactly 1 platform for "; dq; " + str(target.label) + "; dq;
    " but got "; dq; " + str(platforms))"; nl;
    "  platform_name = build_options(target)["; dq;
    "//command_line_option:platforms"; dq; "][0].name"; nl;
    "  if platform_name == "; dq; "host"; dq; ":"; nl; "    return "; dq;
    "HOST"; dq; nl; "  elif not platform_name.startswith("; dq; "android_";
    dq; "):"; nl; "    fail("; dq;
    "expected platform name of the form 'android_<arch>', but was "; dq;
    " + str(platforms))"; nl; "    return "; dq; "UNKNOWN"; dq; nl;
    "  return platform_name[len("; dq; "android_"; dq; "):]"; nl; nl;
    "def format(target):"; nl; "  id_string = str(target.label) + "; dq; "|";
    dq; " + get_arch(target)"; nl; nl; "  # Main switch section"; nl; "  ";
    a3; nl;
    "  # This target was not requested via cquery, and thus must be a dependency";
    nl; "  # of a requested target."; nl; "  return id_string + "; dq;
    ">>NONE"; dq; nl
  ].


(** Returns the string contents of a workspace file that should be output
    adjacent to the main bzl file and build file. *)
Definition workspaceFileContents {R} (context : bazelContext R) : string :=
  workspaceFile_formatString (workspaceDir (paths context)).

Definition mainBzlFileContents {R} (context : bazelContext R) : string :=
  mainBzlFile_contents.

(** The first loop of [mainBuildFileContents]: the quoted canonical
    labels of the requests, by architecture string, in visiting order. *)
Definition labelsByArch (order : list cqueryKey) : gmap string (list string) :=
  foldl (λ (m : gmap string (list string)) val,
           let labelString := dq +:+ canonicalizeLabel (label val) +:+ dq in
           let archString := getArchString val in
           <[archString := default [] (m !! archString) ++ [labelString]]> m)
        ∅ order.

(** The second loop: one [config_node] per architecture string. *)
Definition configNodes (byArch : gmap string (list string))
    (order : list string) : list string * string :=
  foldl (λ '(configNodeLabels, configNodesSection) archString,
           let labels := default [] (byArch !! archString) in
           let labelsString :=
             strings.Join labels ("," +:+ nl +:+ "            ") in
           (configNodeLabels ++ [dq +:+ ":" +:+ archString +:+ dq],
            configNodesSection +:+
            configNodeFormatString archString archString labelsString))
        ([], "") order.

(** [requestsOrder] is the order in which the loop visits
    [context.requests], [archOrder] the order in which the second loop
    visits [labelsByArch]. *)
Definition mainBuildFileContents
    (requestsOrder : list cqueryKey) (archOrder : list string) : string :=
  let byArch := labelsByArch requestsOrder in
  let '(configNodeLabels, configNodesSection) := configNodes byArch archOrder in
  mainBuildFile_formatString configNodesSection
    (strings.Join configNodeLabels ("," +:+ nl +:+ "            ")).

Definition indent (original : string) : string :=
  foldl (λ result line, result +:+ "  " +:+ line +:+ nl) ""
        (strings.Split original nl).

Definition requestTypeToCqueryIdEntries (ext : Externals)
    (order : list cqueryKey) : gmap cqueryRequest (list string) :=
  foldl (λ (m : gmap cqueryRequest (list string)) val,
           let cqueryId := getCqueryId val in
           let mapEntryString := strconv_Quote ext cqueryId +:+ " : True" in
           <[requestType val :=
               default [] (m !! requestType val) ++ [mapEntryString]]> m)
        ∅ order.

(** Returns the file contents of the buildroot.cquery file that should be
    used for the cquery expression in order to obtain information about
    buildroot and its dependencies. *)
Definition cqueryStarlarkFileContents (ext : Externals)
    (requestsOrder : list cqueryKey) (typeOrder : list cqueryRequest)
    : string :=
  let entries := requestTypeToCqueryIdEntries ext requestsOrder in
  let '(labelRegistrationMapSection, functionDefSection, mainSwitchSection) :=
    foldl (λ '(maps, defs, switch) requestType,
             let labelMapName := requestName requestType +:+ "_Labels" in
             let functionName := requestName requestType +:+ "_Fn" in
             (maps +:+ mapDeclarationFormatString labelMapName
                         (strings.Join (default [] (entries !! requestType))
                                       ("," +:+ nl +:+ "  ")),
              defs +:+ functionDefFormatString functionName
                         (indent (StarlarkFunctionBody requestType)),
              switch +:+ mainSwitchSectionFormatString labelMapName
                           functionName))
          ("", "", "") typeOrder in
  cqueryStarlarkFile_formatString labelRegistrationMapSection
    functionDefSection mainSwitchSection.

(** The orders in which the [range] loops of one [InvokeBazel] execution
    visit their maps. *)
Record Schedule := mkSchedule {
  range_requests_build : list cqueryKey;
  range_labelsByArch : list string;
  range_requests_starlark : list cqueryKey;
  range_requestTypes : list cqueryRequest;
  range_requests_results : list cqueryKey
}.


(** ** The result demultiplexer *)

(** The query-result pass: the table of payloads by id read off the
    standard output of the query command.  [SplitN] with a count of two
    on a line that contains the separator yields two elements; the last
    case stands for the index-out-of-range that therefore never happens. *)
Definition parseCqueryOutput (cqueryOutput : string) : gmap string string :=
  foldl (λ (cqueryResults : gmap string string) outputLine,
           if strings.Contains outputLine ">>"
           then match strings.SplitN outputLine ">>" 2 with
                | splitLine0 :: splitLine1 :: _ =>
                    <[splitLine0 := splitLine1]> cqueryResults
                | _ => cqueryResults
                end
           else cqueryResults)
        ∅ (strings.Split cqueryOutput nl).

Definition missingResultError (val : cqueryKey)
    (cqueryOutput cqueryErr : string) : error :=
  "missing result for bazel target " +:+ getCqueryId val +:+
  ". query output: [" +:+ cqueryOutput +:+ "], cquery err: [" +:+
  cqueryErr +:+ "]".

Section Handler.
Context (ext : Externals) (os : OS).
Context {R : Type} `{!bazelRunner R}.

(** The file-system calls, recorded in the log. *)
Definition Stat_IsNotExist (path : string) : M (world R) bool :=
  emit (EvStat path);; mret (os_Stat_IsNotExist os path).
Definition Mkdir (path : string) : M (world R) (option error) :=
  emit (EvMkdir path);; mret (os_Mkdir os path).
Definition WriteFile (path data : string) : M (world R) (option error) :=
  emit (EvWriteFile path data);; mret (ioutil_WriteFile os path data).

(** A call of the context's runner; the runner's new state is stored
    back into the context. *)
Definition callRunner (runName : RunName) (cmd : bazelCommand)
    (extraFlags : list string)
    : M (world R) (string * string * option error) :=
  λ w, let '(r, res) := issueBazelCommand (runner (ctx w)) (paths (ctx w))
                          runName cmd extraFlags in
       (mkWorld (set_runner r (ctx w)) (log w), inr res).

Definition issue (runName : RunName) (cmd : bazelCommand)
    (extraFlags : list string)
    : M (world R) (string * string * option error) :=
  emit (EvBazelCommand runName cmd extraFlags);;
  callRunner runName cmd extraFlags.

(** The loop that moves the payloads into [context.results]; it returns
    from [InvokeBazel] at the first request without a payload. *)
Fixpoint collectResults (cqueryResults : gmap string string)
    (cqueryOutput cqueryErr : string) (order : list cqueryKey)
    : M (world R) unit :=
  match order with
  | [] => mret tt
  | val :: order' =>
      match cqueryResults !! getCqueryId val with
      | Some cqueryResult =>
          modifyCtx (λ c, set_results (<[val := cqueryResult]> (results c)) c);;
          collectResults cqueryResults cqueryOutput cqueryErr order'
      | None => throw (missingResultError val cqueryOutput cqueryErr)
      end
  end.

(** The first half of [InvokeBazel]: reset the results, write the
    generated files, run the query command and save its output.  It
    yields [cqueryOutput] and [cqueryErr]. *)
Definition InvokeBazel_query (sch : Schedule)
    : M (world R) (string * string) :=
  modifyCtx (set_results ∅);;
  context ← gets ctx;
  let err : option error := None in
  let intermediatesDirPath :=
    absolutePath ext (intermediatesDir ext (paths context)) in
  (* the [err] of the [if] statement is a variable of its own *)
  notExist ← Stat_IsNotExist intermediatesDirPath;
  _ ← match notExist return M (world R) (option error) with
      | true => Mkdir intermediatesDirPath
      | false => mret None
      end;
  check err;;
  err ← WriteFile (filepath_Join ext intermediatesDirPath "main.bzl")
                  (mainBzlFileContents context);
  check err;;
  err ← WriteFile (filepath_Join ext intermediatesDirPath "BUILD.bazel")
                  (mainBuildFileContents (range_requests_build sch)
                                         (range_labelsByArch sch));
  check err;;
  let cqueryFileRelpath :=
    filepath_Join ext (intermediatesDir ext (paths context))
                  "buildroot.cquery" in
  err ← WriteFile (absolutePath ext cqueryFileRelpath)
                  (cqueryStarlarkFileContents ext
                     (range_requests_starlark sch)
                     (range_requestTypes sch));
  check err;;
  err ← WriteFile (filepath_Join ext intermediatesDirPath "WORKSPACE.bazel")
                  (workspaceFileContents context);
  check err;;
  let buildrootLabel := "//:buildroot" in
  '(cqueryOutput, cqueryErr, err) ←
    issue CqueryBuildRootRunName
          (mkBazelCommand "cquery"
             ("kind(rule, deps(" +:+ buildrootLabel +:+ "))"))
          ["--output=starlark"; "--starlark:file=" +:+ cqueryFileRelpath];
  (* the assignment below overwrites the error of the query command *)
  err ← WriteFile (filepath_Join ext intermediatesDirPath "cquery.out")
                  cqueryOutput;
  check err;;
  check err;;
  mret (cqueryOutput, cqueryErr).

(** The second half: demultiplex the query output, run the action dump
    and the phony build, clear the requests. *)
Definition InvokeBazel_collect (sch : Schedule)
    (cqueryOutput cqueryErr : string) : M (world R) unit :=
  let buildrootLabel := "//:buildroot" in
  let cqueryResults := parseCqueryOutput cqueryOutput in
  collectResults cqueryResults cqueryOutput cqueryErr
                 (range_requests_results sch);;
  '(aqueryOutput, _, err) ←
    issue AqueryBuildRootRunName
          (mkBazelCommand "aquery" ("deps(" +:+ buildrootLabel +:+ ")"))
          ["--output=jsonproto"];
  check err;;
  let '(statements, err) := AqueryBuildStatements ext aqueryOutput in
  modifyCtx (set_buildStatements statements);;
  check err;;
  '(_, _, err) ←
    issue BazelBuildPhonyRootRunName (mkBazelCommand "build" "//:phonyroot")
          [];
  check err;;
  (* Clear requests. *)
  modifyCtx (set_requests ∅);;
  mret tt.

(** Issues commands to Bazel to receive results for all cquery requests
    queued in the BazelContext.  A returned error is [inl], the nil
    error is [inr tt]. *)
Definition InvokeBazel (sch : Schedule) : M (world R) unit :=
  '(cqueryOutput, cqueryErr) ← InvokeBazel_query sch;
  InvokeBazel_collect sch cqueryOutput cqueryErr.

End Handler.

(** ** The action splicer *)

(** Modelled from the spec: [RuleBuilder] and [RuleBuilderCommand] are not
    part of the sources at hand.  A builder records what its one command
    is given (text, implicit outputs, implicit inputs, implicit
    dependency files) and whether restat was asked for; [Build] registers
    the builder under a name and a description. *)
Record RuleBuilderCommand := mkRuleBuilderCommand {
  text : string;
  implicitOutputs : list string;
  implicits : list string;
  depFiles : list string
}.

Record RuleBuilder := mkRuleBuilder {
  rb_command : RuleBuilderCommand;
  restat : bool
}.

Record BuildRule := mkBuildRule {
  rule_name : string;
  rule_description : string;
  rule_builder : RuleBuilder
}.

Definition NewRuleBuilder : RuleBuilder :=
  mkRuleBuilder (mkRuleBuilderCommand "" [] [] []) false.
Definition Text (s : string) (c : RuleBuilderCommand) : RuleBuilderCommand :=
  mkRuleBuilderCommand (text c +:+ s) (implicitOutputs c) (implicits c)
                       (depFiles c).
Definition ImplicitOutput (p : string) (c : RuleBuilderCommand) :=
  mkRuleBuilderCommand (text c) (implicitOutputs c ++ [p]) (implicits c)
                       (depFiles c).
Definition Implicit (p : string) (c : RuleBuilderCommand) :=
  mkRuleBuilderCommand (text c) (implicitOutputs c) (implicits c ++ [p])
                       (depFiles c).
Definition ImplicitDepFile (p : string) (c : RuleBuilderCommand) :=
  mkRuleBuilderCommand (text c) (implicitOutputs c) (implicits c)
                       (depFiles c ++ [p]).
Definition Restat (r : RuleBuilder) : RuleBuilder :=
  mkRuleBuilder (rb_command r) true.

(** What a singleton context accumulates. *)
Record SingletonContext := mkSingletonContext {
  ninjaFileDeps : list string;
  errors : list string;
  rules : list BuildRule
}.

Definition AddNinjaFileDeps (deps : list string) : M SingletonContext unit :=
  modify (λ s, mkSingletonContext (ninjaFileDeps s ++ deps) (errors s)
                                  (rules s)).
Definition Errorf (msg : string) : M SingletonContext unit :=
  modify (λ s, mkSingletonContext (ninjaFileDeps s) (errors s ++ [msg])
                                  (rules s)).
Definition Build (name desc : string) (r : RuleBuilder)
    : M SingletonContext unit :=
  modify (λ s, mkSingletonContext (ninjaFileDeps s) (errors s)
                                  (rules s ++ [mkBuildRule name desc r])).

Definition unhandledBuildStatement (ext : Externals)
    (buildStatement : BuildStatement) : error :=
  "unhandled build statement: " +:+ fmt_BuildStatement ext buildStatement.

Section Splicer.
Context (ext : Externals) (os : OS).
Context {R : Type}.

(** The rule the splicer builds for one statement. *)
Definition spliceRule (outputBase : string)
    (buildStatement : BuildStatement) : RuleBuilder :=
  let rule := NewRuleBuilder in
  let cmd := rb_command rule in
  let cmd := Text ("cd " +:+ outputBase +:+ "/execroot/__main__ && " +:+
                   Command buildStatement) cmd in
  let cmd := foldl (λ cmd outputPath,
                      ImplicitOutput (PathForBazelOut ext outputPath) cmd)
                   cmd (OutputPaths buildStatement) in
  let cmd := foldl (λ cmd inputPath,
                      Implicit (PathForBazelOut ext inputPath) cmd)
                   cmd (InputPaths buildStatement) in
  let cmd := match Depfile buildStatement with
             | Some depfile =>
                 ImplicitDepFile (PathForBazelOut ext depfile) cmd
             | None => cmd
             end in
  Restat (mkRuleBuilder cmd (restat rule)).

(** Register bazel-owned build statements (obtained from the aquery
    invocation); a panic is the error of the monad. *)
Fixpoint registerBuildStatements (outputBase : string) (index : nat)
    (statements : list BuildStatement) : M SingletonContext unit :=
  match statements with
  | [] => mret tt
  | buildStatement :: statements' =>
      if bool_decide (String.length (Command buildStatement) < 1)
      then throw (unhandledBuildStatement ext buildStatement)
      else
        Build ("bazel " +:+ pretty index) (Mnemonic buildStatement)
              (spliceRule outputBase buildStatement);;
        registerBuildStatements outputBase (S index) statements'
  end.

(** [b] is [ctx.Config().BazelContext]. *)
Definition GenerateBuildActions (b : BazelContext R)
    : M SingletonContext unit :=
  (* bazelSingleton is a no-op if mixed-soong-bazel-builds are disabled. *)
  if negb (BazelEnabled b) then mret tt
  else
    let bazelBuildList :=
      absolutePath ext
        (filepath_Join ext (filepath_Dir ext (ModuleListFile ext))
                       "bazel.list") in
    AddNinjaFileDeps [bazelBuildList];;
    let '(data, err) := ioutil_ReadFile os bazelBuildList in
    match err with
    | Some e => Errorf e
    | None => mret tt
    end;;
    let files := strings.Split (strings_TrimSpace ext data) nl in
    foldl (λ acc file, acc;; AddNinjaFileDeps [file]) (mret tt) files;;
    registerBuildStatements (OutputBase b) 0 (BuildStatementsToRegister b).

End Splicer.

(** ** The two-pass driver *)

Section Driver.
Context (ext : Externals) (os : OS).
Context {R : Type} `{!bazelRunner R}.

(** Modelled from the spec: [bootstrap.Main] is not part of the sources
    at hand.  During an analysis pass, graph nodes request facts about
    delegated targets through the facade; [reqs] are the requests of
    the pass, in order. *)
Definition analysisPass (reqs : list cqueryKey) : M (world R) unit :=
  emit EvAnalysisPass;;
  foldl (λ acc k,
           acc;; _ ← cquery (label k) (requestType k) (archType k); mret tt)
        (mret tt) reqs.

(** Bazel-enabled mode.  Soong runs in two passes.  An error is the
    message printed before the process exits with status 1.  (Setting
    the stop point of the first pass has no bearing on the handler and is
    left out.) *)
Definition runMixedModeBuild (firstPass secondPass : list cqueryKey)
    (sch : Schedule) : M (world R) unit :=
  analysisPass firstPass;;
  (* Invoke bazel commands and save results for second pass. *)
  emit EvInvokeBazel;;
  InvokeBazel ext os sch;;
  (* Second pass: Full analysis, using the bazel command results. *)
  check (ConfigForAdditionalRun os);;
  analysisPass secondPass.

End Driver.

(** ** Sample data

    Concrete inputs on which the statements below are exercised. *)

Definition getAllFiles : cqueryRequest :=
  mkCqueryRequest "getAllFiles" "return ', '.join([f.path for f in target.files.to_list()])".

Definition foo_default : cqueryKey :=
  mkCqueryKey "//pkg:foo" getAllFiles (mkArchType "").
Definition foo_arm64 : cqueryKey :=
  mkCqueryKey "//pkg:foo" getAllFiles (mkArchType "arm64").
Definition foo_x86_64 : cqueryKey :=
  mkCqueryKey "//pkg:foo" getAllFiles (mkArchType "x86_64").

Definition sample_paths : bazelPaths :=
  mkBazelPaths "/home/bazel" "/usr/bin/bazel" "/out/bazel/output"
               "/src" "out/soong" "/out/metrics".

Definition sample_ext : Externals := {|
  absolutePath p := "/src/" +:+ p;
  filepath_Join a b := a +:+ "/" +:+ b;
  filepath_Dir p := "out";
  strings_TrimSpace s := s;
  strconv_Quote s := dq +:+ s +:+ dq;
  BazelMetricsFilename p r := metricsDir p +:+ "/bazel_profile";
  AqueryBuildStatements s := ([], None);
  PathForBazelOut p := "/out/bazel/output/execroot/__main__/" +:+ p;
  fmt_BuildStatement b := "{" +:+ Command b +:+ " " +:+ Mnemonic b +:+ "}";
  ModuleListFile := "out/.module_paths/Android.bp.list"
|}.

(** ** Words of the specification about strings *)

(** [sep] occurs in [s]. *)
Definition occurs (sep s : string) : Prop :=
  ∃ a b, s = a +:+ sep +:+ b.

(** [a] and [b] are what precedes and what follows the first occurrence
    of [sep] in [s]. *)
Definition first_split (sep s a b : string) : Prop :=
  s = a +:+ sep +:+ b ∧
  ∀ a' b', s = a' +:+ sep +:+ b' → String.length a ≤ String.length a'.

(** The query-result pass in the words of the specification: of the lines
    given, those with a tag separator are split at the first one, and the
    payload is stored under the id. *)
Definition demultiplex (lines : list string) : gmap string string :=
  foldl (λ (resolved : gmap string string) line,
           match strings.Cut line ">>" with
           | Some (id, payload) => <[id := payload]> resolved
           | None => resolved
           end) ∅ lines.

(** ** Reading the event log *)

(** The event is a call of the runner with the Bazel command [name]
    ("cquery", "aquery" or "build"). *)
Definition is_command (name : string) (e : event) : bool :=
  match e with
  | EvBazelCommand _ cmd _ => String.eqb (command cmd) name
  | _ => false
  end.

Definition is_InvokeBazel (e : event) : bool :=
  match e with
  | EvInvokeBazel => true
  | _ => false
  end.

Fixpoint count_events (p : event → bool) (l : list event) : nat :=
  match l with
  | [] => 0
  | e :: l' => (if p e then 1 else 0) + count_events p l'
  end.

(** How many times the Bazel command [name] was issued. *)
Definition count_commands (name : string) (l : list event) : nat :=
  count_events (is_command name) l.

(** How many times [InvokeBazel] was called. *)
Definition count_InvokeBazel (l : list event) : nat :=
  count_events is_InvokeBazel l.

Definition sample_os : OS := {|
  os_Stat_IsNotExist _ := true;
  os_Mkdir _ := None;
  ioutil_WriteFile _ _ := None;
  ioutil_ReadFile _ := ("", None);
  os_Environ := ["PATH=/usr/bin"];
  runtime_GOOS := "linux";
  exec_LookPath _ := None;
  exec_Output _ := ("", "", None);
  ConfigForAdditionalRun := None
|}.

Definition cquery_command : bazelCommand :=
  mkBazelCommand "cquery" "kind(rule, deps(//:buildroot))".

(** A test double whose query command prints [out]. *)
Definition sample_mock (out : string) : mockBazelRunner :=
  mkMockBazelRunner {[cquery_command := out]} [].

(** A fresh process with the given requests queued. *)
Definition sample_world (out : string) (reqs : gset cqueryKey)
    : world mockBazelRunner :=
  mkWorld (mkBazelContext (sample_mock out) sample_paths reqs ∅ []) [].

Definition sample_schedule : Schedule :=
  mkSchedule [foo_arm64] ["arm64"] [foo_arm64] [getAllFiles] [foo_arm64].

Definition foo_arm64_line : string :=
  "@sourceroot//pkg:foo|arm64>>out/foo.so".

(** ** Words of the specification about the splicer *)

(** The native rule of the specification for the statement at [index]:
    the command prefixed with the directory change into the execution
    root, the outputs as implicit outputs, the inputs as implicit inputs,
    a present depfile as implicit dependency file, restat set. *)
Definition expectedRule (ext : Externals) (outputBase : string) (index : nat)
    (buildStatement : BuildStatement) : BuildRule :=
  {| rule_name := "bazel " +:+ pretty index;
     rule_description := Mnemonic buildStatement;
     rule_builder :=
       {| rb_command :=
            {| text := "cd " +:+ outputBase +:+ "/execroot/__main__ && " +:+
                       Command buildStatement;
               implicitOutputs :=
                 PathForBazelOut ext <$> OutputPaths buildStatement;
               implicits := PathForBazelOut ext <$> InputPaths buildStatement;
               depFiles := match Depfile buildStatement with
                           | Some depfile => [PathForBazelOut ext depfile]
                           | None => []
                           end |};
          restat := true |} |}.

(** The statements that precede the first one with an empty command. *)
Fixpoint splicedPrefix (statements : list BuildStatement)
    : list BuildStatement :=
  match statements with
  | [] => []
  | buildStatement :: statements' =>
      if bool_decide (Command buildStatement = "") then []
      else buildStatement :: splicedPrefix statements'
  end.

(** The rules a run of the splicer adds to the singleton context. *)
Definition registeredRules {R} (ext : Externals) (os : OS)
    (b : BazelContext R) (s : SingletonContext) : list BuildRule :=
  drop (length (rules s)) (rules (GenerateBuildActions ext os b s).1).

(** "For every build statement with a non-empty command, the splicer
    registers exactly one native rule [as specified]". *)
Definition one_rule_per_statement (ext : Externals) (outputBase : string)
    (statements : list BuildStatement) (registered : list BuildRule) : Prop :=
  ∀ i buildStatement,
    statements !! i = Some buildStatement →
    Command buildStatement ≠ "" →
    ∃ j, registered !! j = Some (expectedRule ext outputBase i buildStatement)
         ∧ ∀ j', registered !! j'
                 = Some (expectedRule ext outputBase i buildStatement) →
                 j' = j.

(** The same, for the statements that no statement with an empty command
    precedes. *)
Definition one_rule_per_statement_reached (ext : Externals)
    (outputBase : string) (statements : list BuildStatement)
    (registered : list BuildRule) : Prop :=
  ∀ i buildStatement,
    statements !! i = Some buildStatement →
    (∀ j earlier, j < i → statements !! j = Some earlier →
                  Command earlier ≠ "") →
    Command buildStatement ≠ "" →
    ∃ j, registered !! j = Some (expectedRule ext outputBase i buildStatement)
         ∧ ∀ j', registered !! j'
                 = Some (expectedRule ext outputBase i buildStatement) →
                 j' = j.

Definition CppCompile_statement : BuildStatement :=
  mkBuildStatement "clang -c a.cc -o a.o" None ["a.o"] ["a.cc"] "CppCompile".
Definition unknown_statement : BuildStatement :=
  mkBuildStatement "" None ["b.o"] ["b.cc"] "Unknown".

(** A real context holding the given statements. *)
Definition sample_context (statements : list BuildStatement)
    : BazelContext mockBazelRunner :=
  realBazelContext
    (mkBazelContext (sample_mock "") sample_paths ∅ ∅ statements).

Definition empty_singleton : SingletonContext := mkSingletonContext [] [] [].

(** A configuration in which all five settings are present and the home
    directory is the root directory. *)
Definition root_home_config : config :=
  mkConfig (<["USE_BAZEL_ANALYSIS" := "1"]>
            (<["BAZEL_HOME" := "/"]>
            (<["BAZEL_PATH" := "/usr/bin/bazel"]>
            (<["BAZEL_OUTPUT_BASE" := "/out/bazel/output"]>
            (<["BAZEL_WORKSPACE" := "/src"]>
            (<["BAZEL_METRICS_DIR" := "/out/metrics"]> ∅))))))
           "out/soong".

(** The settings the constructor reports when it fails. *)
Definition reportedEnvVars (c : config) : list string :=
  List.filter (λ v, negb (bool_decide (1 < String.length (Getenv c v))))
              requiredEnvVars.

(** An operating system on which the query command exits with a non-zero
    status and every other command succeeds. *)
Definition cquery_fails_os : OS := {|
  os_Stat_IsNotExist _ := false;
  os_Mkdir _ := None;
  ioutil_WriteFile _ _ := None;
  ioutil_ReadFile _ := ("", None);
  os_Environ := ["PATH=/usr/bin"];
  runtime_GOOS := "linux";
  exec_LookPath _ := None;
  exec_Output c :=
    if bool_decide ("cquery" ∈ Args c)
    then ("", "ERROR: Analysis failed", Some "exit status 1")
    else ("", "", None);
  ConfigForAdditionalRun := None
|}.

(** A fresh process with the built-in runner and nothing requested. *)
Definition builtin_world : world builtinBazelRunner :=
  mkWorld (mkBazelContext mkBuiltinBazelRunner sample_paths ∅ ∅ []) [].

Definition empty_schedule : Schedule := mkSchedule [] [] [] [] [].

(** "One InvokeBazel execution issues exactly one cquery command and
    exactly one aquery command", read off the events of the execution. *)
Definition exactly_once_each (evs : list event) : Prop :=
  count_commands "cquery" evs = 1 ∧ count_commands "aquery" evs = 1.

Definition at_most_once_each (evs : list event) : Prop :=
  count_commands "cquery" evs ≤ 1 ∧ count_commands "aquery" evs ≤ 1.

(** Events among which there is neither a Bazel command nor a call of
    [InvokeBazel]. *)
Definition quiet (evs : list event) : Prop :=
  count_commands "cquery" evs = 0 ∧ count_commands "aquery" evs = 0 ∧
  count_InvokeBazel evs = 0.

(** The separator between the dependencies of a generated target. *)
Definition depsSeparator : string := "," +:+ nl +:+ "            ".


Definition enumeration_schedule (ext : Externals) (reqs : gset cqueryKey)
    : Schedule :=
  mkSchedule (elements reqs)
             (elements (dom (labelsByArch (elements reqs))))
             (elements reqs)
             (elements (dom (requestTypeToCqueryIdEntries ext (elements reqs))))
             (elements reqs).

(** ** Further sample data and words for the handler *)

(** The operating system [os] with the answers of [os.Mkdir] replaced. *)
Definition with_Mkdir (mkdir : string → option error) (os : OS) : OS :=
  {| os_Stat_IsNotExist := os_Stat_IsNotExist os;
     os_Mkdir := mkdir;
     ioutil_WriteFile := ioutil_WriteFile os;
     ioutil_ReadFile := ioutil_ReadFile os;
     os_Environ := os_Environ os;
     runtime_GOOS := runtime_GOOS os;
     exec_LookPath := exec_LookPath os;
     exec_Output := exec_Output os;
     ConfigForAdditionalRun := ConfigForAdditionalRun os |}.

Definition aquery_command : bazelCommand :=
  mkBazelCommand "aquery" "deps(//:buildroot)".
Definition build_command : bazelCommand :=
  mkBazelCommand "build" "//:phonyroot".

(** What the test double answers to a command. *)
Definition cannedResult (r : mockBazelRunner) (cmd : bazelCommand) : string :=
  default "" (bazelCommandResults r !! cmd).

(** The extra flags of the query command. *)
Definition cqueryFlags (ext : Externals) (p : bazelPaths) : list string :=
  ["--output=starlark";
   "--starlark:file=" +:+
   filepath_Join ext (intermediatesDir ext p) "buildroot.cquery"].

Definition getCcInfo : cqueryRequest :=
  mkCqueryRequest "getCcInfo" "return target.label.name".
Definition foo_arm64_ccinfo : cqueryKey :=
  mkCqueryKey "//pkg:foo" getCcInfo (mkArchType "arm64").

(** ** Words for the generated files *)

(** The quoted canonical label of a request, as it stands among the
    dependencies of a [config_node]. *)
Definition quotedLabel (k : cqueryKey) : string :=
  dq +:+ canonicalizeLabel (label k) +:+ dq.

(** The [config_node] of an architecture string, given the labels by
    architecture. *)
Definition configNodeOf (byArch : gmap string (list string))
    (archString : string) : string :=
  configNodeFormatString archString archString
    (strings.Join (default [] (byArch !! archString)) depsSeparator).

(** The reference to the [config_node] of an architecture string. *)
Definition configNodeLabel (archString : string) : string :=
  dq +:+ ":" +:+ archString +:+ dq.

(** The entry of a request in the label map of its request type. *)
Definition mapEntryOf (ext : Externals) (k : cqueryKey) : string :=
  strconv_Quote ext (getCqueryId k) +:+ " : True".

(** The three pieces the dispatch script holds for a request type. *)
Definition mapDeclarationOf (entries : gmap cqueryRequest (list string))
    (requestType : cqueryRequest) : string :=
  mapDeclarationFormatString (requestName requestType +:+ "_Labels")
    (strings.Join (default [] (entries !! requestType))
                  ("," +:+ nl +:+ "  ")).
Definition functionDefOf (requestType : cqueryRequest) : string :=
  functionDefFormatString (requestName requestType +:+ "_Fn")
    (indent (StarlarkFunctionBody requestType)).
Definition mainSwitchOf (requestType : cqueryRequest) : string :=
  mainSwitchSectionFormatString (requestName requestType +:+ "_Labels")
    (requestName requestType +:+ "_Fn").

(** * Labels and attributes

    The label lists and the configurable attributes of package [bazel],
    and the helpers of package [cc] that build them. *)

(** Go's [sort] package. *)
Module sort.

Fixpoint insertStable {A} (less : A → A → bool) (x : A) (l : list A)
    : list A :=
  match l with
  | [] => [x]
  | y :: l' => if less y x then y :: insertStable less x l' else x :: l
  end.

(** [SliceStable x less]: sorts by [less], keeping elements of which
    neither is less than the other in their original order. *)
Definition SliceStable {A} (less : A → A → bool) (x : list A) : list A :=
  foldr (insertStable less) [] x.

End sort.

Module bazel.

(** [Label] is used to represent a Bazel compatible label; the field
    [Label] of the source is [Label_Label] here. *)
Record Label := mkLabel {
  Label_Label : string;
  OriginalModuleName : string
}.

(** [LabelList] is used to represent a list of Bazel labels. *)
Record LabelList := mkLabelList {
  Includes : list Label;
  Excludes : list Label
}.

Global Instance Label_eq_dec : EqDecision Label.
Proof. solve_decision. Defined.
Global Instance Label_countable : Countable Label.
Proof.
  by apply (inj_countable' (λ l, (Label_Label l, OriginalModuleName l))
                           (λ p, mkLabel p.1 p.2)); intros [].
Defined.

(** [GlobsInDir] returns a list of glob expressions for a list of
    extensions (optionally recursive) within a directory. *)
Definition GlobsInDir (dir : string) (recursive : bool)
    (extensions : list string) : list string :=
  let globs : list string := [] in
  let globInfix := "" in
  if bool_decide (dir = ".") then
    let globInfix := if recursive then "**/" else globInfix in
    foldl (λ globs ext, globs ++ [globInfix +:+ "*" +:+ ext]) globs
          extensions
  else
    let dir := if recursive then dir +:+ "/**" else dir in
    foldl (λ globs ext, globs ++ [dir +:+ "/*" +:+ ext]) globs extensions.

(** [uniqueParentDirectories] returns a list of the unique parent
    directories for all files in ll.Includes; [filepath_Dir] is
    [filepath.Dir] and [range] the order in which the map of directories
    is ranged over. *)
Definition uniqueParentDirectories (filepath_Dir : string → string)
    (range : gset string → list string) (ll : LabelList) : list string :=
  let dirMap : gset string :=
    foldl (λ m label, {[filepath_Dir (Label_Label label)]} ∪ m) ∅
          (Includes ll) in
  foldl (λ dirs dir, dirs ++ [dir]) [] (range dirMap).

(** [LooseHdrsGlobs] returns the list of non-recursive header globs for
    each parent directory of each source file in this LabelList's
    Includes. *)
Definition LooseHdrsGlobs (filepath_Dir : string → string)
    (range : gset string → list string) (ll : LabelList)
    (exts : list string) : list string :=
  foldl (λ globs parentDir, globs ++ GlobsInDir parentDir false exts) []
        (uniqueParentDirectories filepath_Dir range ll).

(** [Append] appends the fields of other labelList to the corresponding
    fields of ll; the updated receiver is the result. *)
Definition LabelList_Append (ll other : LabelList) : LabelList :=
  let ll :=
    if bool_decide (0 < length (Includes ll) ∨ 0 < length (Includes other))
    then mkLabelList (Includes ll ++ Includes other) (Excludes ll)
    else ll in
  let ll :=
    if bool_decide (0 < length (Excludes ll) ∨ 0 < length (Excludes other))
    then mkLabelList (Includes ll) (Excludes other ++ Excludes other)
    else ll in
  ll.

(** The three functions below range over a Go map used as a set; the order
    of that iteration is [range]. *)
Definition UniqueBazelLabels (range : gset Label → list Label)
    (originalLabels : list Label) : list Label :=
  let uniqueLabelsSet : gset Label :=
    foldl (λ m l, {[l]} ∪ m) ∅ originalLabels in
  let uniqueLabels :=
    foldl (λ acc l, acc ++ [l]) [] (range uniqueLabelsSet) in
  sort.SliceStable (λ a b, String.ltb (Label_Label a) (Label_Label b))
                   uniqueLabels.

Definition UniqueBazelLabelList (range : gset Label → list Label)
    (originalLabelList : LabelList) : LabelList :=
  mkLabelList (UniqueBazelLabels range (Includes originalLabelList))
              (UniqueBazelLabels range (Excludes originalLabelList)).

(** Subtract needle from haystack. *)
Definition SubtractStrings (range : gset string → list string)
    (haystack needle : list string) : list string :=
  (* This is really a set *)
  let remainder : gset string := foldl (λ m s, {[s]} ∪ m) ∅ haystack in
  let remainder := foldl (λ m s, m ∖ {[s]}) remainder needle in
  let strings := foldl (λ acc s, acc ++ [s]) [] (range remainder) in
  sort.SliceStable String.ltb strings.

(** Subtract needle from haystack. *)
Definition SubtractBazelLabels (range : gset Label → list Label)
    (haystack needle : list Label) : list Label :=
  (* This is really a set *)
  let remainder : gset Label := foldl (λ m l, {[l]} ∪ m) ∅ haystack in
  let remainder := foldl (λ m l, m ∖ {[l]}) remainder needle in
  let labels := foldl (λ acc l, acc ++ [l]) [] (range remainder) in
  sort.SliceStable (λ a b, String.ltb (Label_Label a) (Label_Label b))
                   labels.

(** Subtract needle from haystack. *)
Definition SubtractBazelLabelList (range : gset Label → list Label)
    (haystack needle : LabelList) : LabelList :=
  mkLabelList (SubtractBazelLabels range (Includes haystack)
                                   (Includes needle))
              (* NOTE: Excludes are intentionally not subtracted *)
              (Excludes haystack).

(** ArchType names in arch.go. *)
Definition ARCH_ARM : string := "arm".
Definition ARCH_ARM64 : string := "arm64".
Definition ARCH_X86 : string := "x86".
Definition ARCH_X86_64 : string := "x86_64".

(** OsType names in arch.go. *)
Definition OS_ANDROID : string := "android".
Definition OS_DARWIN : string := "darwin".
Definition OS_FUCHSIA : string := "fuchsia".
Definition OS_LINUX : string := "linux_glibc".
Definition OS_LINUX_BIONIC : string := "linux_bionic".
Definition OS_WINDOWS : string := "windows".

(** A map of architectures to the Bazel label of the constraint_value for
    the @platforms//cpu:cpu constraint_setting. *)
Definition PlatformArchMap : gmap string string :=
  <[ARCH_ARM := "//build/bazel/platforms/arch:arm"]>
  (<[ARCH_ARM64 := "//build/bazel/platforms/arch:arm64"]>
  (<[ARCH_X86 := "//build/bazel/platforms/arch:x86"]>
  (<[ARCH_X86_64 := "//build/bazel/platforms/arch:x86_64"]> ∅))).

(** A map of target operating systems to the Bazel label of the
    constraint_value for the @platforms//os:os constraint_setting. *)
Definition PlatformOsMap : gmap string string :=
  <[OS_ANDROID := "//build/bazel/platforms/os:android"]>
  (<[OS_DARWIN := "//build/bazel/platforms/os:darwin"]>
  (<[OS_FUCHSIA := "//build/bazel/platforms/os:fuchsia"]>
  (<[OS_LINUX := "//build/bazel/platforms/os:linux"]>
  (<[OS_LINUX_BIONIC := "//build/bazel/platforms/os:linux_bionic"]>
  (<[OS_WINDOWS := "//build/bazel/platforms/os:windows"]> ∅))))).

(** The source writes the arch-specific and os-specific values, the
    attribute and its accessors out twice, once for label lists and once
    for string lists; the two copies differ in the type [A] of the values
    and in the emptiness test of [HasConfigurableValues] only, and are
    the two instances of the definitions of this section. *)
Section Attribute.
Context {A : Type}.

Record archValues := mkArchValues {
  X86 : A;
  X86_64 : A;
  Arm : A;
  Arm64 : A;
  Common : A
}.

Record osValues := mkOsValues {
  Android : A;
  Darwin : A;
  Fuchsia : A;
  Linux : A;
  LinuxBionic : A;
  Windows : A
}.

Record Attribute := mkAttribute {
  (* The non-arch specific attribute value. *)
  Value : A;
  (* The arch-specific attribute values. *)
  ArchValues : archValues;
  (* The os-specific attribute values. *)
  OsValues : osValues
}.

(** [GetValueForArch] returns the attribute value for an architecture;
    a panic is [inl] of its message. *)
Definition GetValueForArch (attrs : Attribute) (arch : string) : error + A :=
  let v := ArchValues attrs in
  if bool_decide (arch = ARCH_X86) then inr (X86 v)
  else if bool_decide (arch = ARCH_X86_64) then inr (X86_64 v)
  else if bool_decide (arch = ARCH_ARM) then inr (Arm v)
  else if bool_decide (arch = ARCH_ARM64) then inr (Arm64 v)
  else inl ("Unknown arch: " +:+ arch).

(** [SetValueForArch] sets the attribute value for an architecture. *)
Definition SetValueForArch (attrs : Attribute) (arch : string) (value : A)
    : error + Attribute :=
  let v := ArchValues attrs in
  let set v' := inr (mkAttribute (Value attrs) v' (OsValues attrs)) in
  if bool_decide (arch = ARCH_X86)
  then set (mkArchValues value (X86_64 v) (Arm v) (Arm64 v) (Common v))
  else if bool_decide (arch = ARCH_X86_64)
  then set (mkArchValues (X86 v) value (Arm v) (Arm64 v) (Common v))
  else if bool_decide (arch = ARCH_ARM)
  then set (mkArchValues (X86 v) (X86_64 v) value (Arm64 v) (Common v))
  else if bool_decide (arch = ARCH_ARM64)
  then set (mkArchValues (X86 v) (X86_64 v) (Arm v) value (Common v))
  else inl ("Unknown arch: " +:+ arch).

(** [GetValueForOS] returns the attribute value for an OS target. *)
Definition GetValueForOS (attrs : Attribute) (os : string) : error + A :=
  let v := OsValues attrs in
  if bool_decide (os = OS_ANDROID) then inr (Android v)
  else if bool_decide (os = OS_DARWIN) then inr (Darwin v)
  else if bool_decide (os = OS_FUCHSIA) then inr (Fuchsia v)
  else if bool_decide (os = OS_LINUX) then inr (Linux v)
  else if bool_decide (os = OS_LINUX_BIONIC) then inr (LinuxBionic v)
  else if bool_decide (os = OS_WINDOWS) then inr (Windows v)
  else inl ("Unknown os: " +:+ os).

(** [SetValueForOS] sets the attribute value for an OS target. *)
Definition SetValueForOS (attrs : Attribute) (os : string) (value : A)
    : error + Attribute :=
  let v := OsValues attrs in
  let set v' := inr (mkAttribute (Value attrs) (ArchValues attrs) v') in
  if bool_decide (os = OS_ANDROID)
  then set (mkOsValues value (Darwin v) (Fuchsia v) (Linux v)
                       (LinuxBionic v) (Windows v))
  else if bool_decide (os = OS_DARWIN)
  then set (mkOsValues (Android v) value (Fuchsia v) (Linux v)
                       (LinuxBionic v) (Windows v))
  else if bool_decide (os = OS_FUCHSIA)
  then set (mkOsValues (Android v) (Darwin v) value (Linux v)
                       (LinuxBionic v) (Windows v))
  else if bool_decide (os = OS_LINUX)
  then set (mkOsValues (Android v) (Darwin v) (Fuchsia v) value
                       (LinuxBionic v) (Windows v))
  else if bool_decide (os = OS_LINUX_BIONIC)
  then set (mkOsValues (Android v) (Darwin v) (Fuchsia v) (Linux v)
                       value (Windows v))
  else if bool_decide (os = OS_WINDOWS)
  then set (mkOsValues (Android v) (Darwin v) (Fuchsia v) (Linux v)
                       (LinuxBionic v) value)
  else inl ("Unknown os: " +:+ os).

(** One of the two loops of [HasConfigurableValues]: the names are visited
    in the order given, up to the first one whose value is not empty. *)
Fixpoint anyConfigured (nonEmpty : A → bool) (get : string → error + A)
    (names : list string) : error + bool :=
  match names with
  | [] => inr false
  | name :: names' =>
      match get name with
      | inl e => inl e
      | inr v => if nonEmpty v then inr true
                 else anyConfigured nonEmpty get names'
      end
  end.

(** [HasConfigurableValues] returns true if the attribute contains
    architecture-specific or os-specific values; [archOrder] and
    [osOrder] are the orders in which the two platform maps are ranged
    over. *)
Definition HasConfigurableValues (nonEmpty : A → bool)
    (archOrder osOrder : list string) (attrs : Attribute) : error + bool :=
  match anyConfigured nonEmpty (GetValueForArch attrs) archOrder with
  | inl e => inl e
  | inr true => inr true
  | inr false =>
      match anyConfigured nonEmpty (GetValueForOS attrs) osOrder with
      | inl e => inl e
      | inr true => inr true
      | inr false => inr false
      end
  end.

End Attribute.

Global Arguments archValues : clear implicits.
Global Arguments osValues : clear implicits.
Global Arguments Attribute : clear implicits.

Definition LabelListAttribute := Attribute LabelList.
Definition StringListAttribute := Attribute (list string).

(** The values of a Go variable that has not been assigned. *)
Definition zeroArchValues {A} (zero : A) : archValues A :=
  mkArchValues zero zero zero zero zero.
Definition zeroOsValues {A} (zero : A) : osValues A :=
  mkOsValues zero zero zero zero zero zero.

(** [MakeLabelListAttribute] initializes a LabelListAttribute with the
    non-arch specific value. *)
Definition MakeLabelListAttribute (range : gset Label → list Label)
    (value : LabelList) : LabelListAttribute :=
  mkAttribute (UniqueBazelLabelList range value)
              (zeroArchValues (mkLabelList [] []))
              (zeroOsValues (mkLabelList [] [])).

(** [MakeStringListAttribute] initializes a StringListAttribute with the
    non-arch specific value. *)
Definition MakeStringListAttribute (value : list string)
    : StringListAttribute :=
  (* NOTE: These strings are not necessarily unique or sorted. *)
  mkAttribute value (zeroArchValues []) (zeroOsValues []).

Definition LabelListAttribute_HasConfigurableValues
    (archOrder osOrder : list string) (attrs : LabelListAttribute)
    : error + bool :=
  HasConfigurableValues (λ v, bool_decide (0 < length (Includes v)))
                        archOrder osOrder attrs.

Definition StringListAttribute_HasConfigurableValues
    (archOrder osOrder : list string) (attrs : StringListAttribute)
    : error + bool :=
  HasConfigurableValues (λ v, bool_decide (0 < length v))
                        archOrder osOrder attrs.

End bazel.

(** Package [cc]: bp2build helpers for converting cc_* modules. *)
Module cc.

Section Bp2build.
(** [moduleDir] is [ctx.ModuleDir()]; [BazelLabelForModuleSrc] is
    [android.BazelLabelForModuleSrc] at the context, which is not part of
    the sources at hand. *)
Context (moduleDir : string).
Context (BazelLabelForModuleSrc : list string → bazel.LabelList).

Definition bp2BuildListHeadersInDir (includeDir : string)
    : bazel.LabelList :=
  let globInfix := if bool_decide (includeDir = ".") then "" else "/**" in
  let includeDirGlobs : list string := [] in
  let includeDirGlobs :=
    includeDirGlobs ++ [includeDir +:+ globInfix +:+ "/*.h"] in
  let includeDirGlobs :=
    includeDirGlobs ++ [includeDir +:+ globInfix +:+ "/*.inc"] in
  let includeDirGlobs :=
    includeDirGlobs ++ [includeDir +:+ globInfix +:+ "/*.hpp"] in
  BazelLabelForModuleSrc includeDirGlobs.

(** Bazel wants include paths to be relative to the module. *)
Definition bp2BuildMakePathsRelativeToModule (paths : list string)
    : list string :=
  foldl (λ relativePaths path,
           let relativePath :=
             strings.TrimPrefix path (moduleDir +:+ "/") in
           relativePaths ++ [relativePath])
        [] paths.

(** The loop of [bp2BuildParseExportedIncludes] that collects the headers
    of the include directories. *)
Definition collectHeaders (includeDirs : list string) : bazel.LabelList :=
  foldl (λ headers includeDir,
           bazel.LabelList_Append headers
             (bp2BuildListHeadersInDir includeDir))
        (bazel.mkLabelList [] []) includeDirs.

End Bp2build.

End cc.

(** An iteration order of a Go map used as a set is any enumeration of
    its keys. *)
Definition enumerates `{Countable K} (range : gset K → list K) : Prop :=
  ∀ X, range X ≡ₚ elements X.

(** The order that the sorts of labels use. *)
Definition labelLess (a b : bazel.Label) : bool :=
  String.ltb (bazel.Label_Label a) (bazel.Label_Label b).

(** The four files that [InvokeBazel] writes before it runs the query
    command, each with its contents, in the order in which they are
    written. *)
Definition generatedFiles {R} (ext : Externals) (sch : Schedule)
    (context : bazelContext R) : list (string * string) :=
  let intermediatesDirPath :=
    absolutePath ext (intermediatesDir ext (paths context)) in
  [(filepath_Join ext intermediatesDirPath "main.bzl",
    mainBzlFileContents context);
   (filepath_Join ext intermediatesDirPath "BUILD.bazel",
    mainBuildFileContents (range_requests_build sch)
                          (range_labelsByArch sch));
   (absolutePath ext
      (filepath_Join ext (intermediatesDir ext (paths context))
                     "buildroot.cquery"),
    cqueryStarlarkFileContents ext (range_requests_starlark sch)
                               (range_requestTypes sch));
   (filepath_Join ext intermediatesDirPath "WORKSPACE.bazel",
    workspaceFileContents context)].

Definition is_bazel_command (e : event) : bool :=
  match e with
  | EvBazelCommand _ _ _ => true
  | _ => false
  end.

(** * The fake ninja file (soong_build) *)

(** The files on disk are a map from paths to contents.
    [ioutil.WriteFile] replaces the contents of the file when the
    operating system lets it; the function below ignores the error it
    returns. *)

Definition ioutil_WriteFile_files (writable : string → bool)
    (path data : string) (files : gmap string string)
    : gmap string string :=
  if writable path then <[path := data]> files else files.

(** [JoinPath] is [shared.JoinPath], which is not part of the sources at
    hand; [topDir] is the global of that name. *)
Definition writeFakeNinjaFile (JoinPath : list string → string)
    (topDir : string) (writable : string → bool)
    (extraNinjaDeps : list string) (buildDir : string)
    (files : gmap string string) : gmap string string :=
  let extraNinjaDepsString :=
    strings.Join extraNinjaDeps (" \" +:+ nl +:+ " ") in
  let ninjaFileName := "build.ninja" in
  let ninjaFile := JoinPath [topDir; buildDir; ninjaFileName] in
  let ninjaFileD := JoinPath [topDir; buildDir; ninjaFileName] in
  let files :=
    ioutil_WriteFile_files writable ninjaFile
      ("build nothing: phony" +:+ nl +:+ "  phony_output = true" +:+ nl)
      files in
  ioutil_WriteFile_files writable ninjaFileD
    (ninjaFileName +:+ ": \" +:+ nl +:+ " " +:+ extraNinjaDepsString +:+ nl)
    files.

(** ** Further sample data *)

(** Two requests for one label and one architecture that differ in the
    request type. *)
Definition two_type_requests : gset cqueryKey :=
  {[foo_arm64; foo_arm64_ccinfo]}.

(** A built-in context with one request queued. *)
Definition builtin_context : bazelContext builtinBazelRunner :=
  mkBazelContext mkBuiltinBazelRunner sample_paths {[foo_arm64]} ∅ [].

(** An operating system on which the file at [bad] cannot be written. *)
Definition write_fails_os (bad : string) : OS := {|
  os_Stat_IsNotExist _ := false;
  os_Mkdir _ := None;
  ioutil_WriteFile p _ :=
    if bool_decide (p = bad) then Some "permission denied" else None;
  ioutil_ReadFile _ := ("", None);
  os_Environ := ["PATH=/usr/bin"];
  runtime_GOOS := "linux";
  exec_LookPath _ := None;
  exec_Output _ := ("", "", None);
  ConfigForAdditionalRun := None
|}.

(** Two labels with one label text. *)
Definition handcrafted_a : bazel.Label := bazel.mkLabel "//pkg:lib" "lib".
Definition handcrafted_b : bazel.Label := bazel.mkLabel "//pkg:lib" "libfoo".

(** The keys of a set from last to first. *)
Definition backwards `{Countable K} (X : gset K) : list K :=
  reverse (elements X).


(** * Properties *)

(** ** Running the monad *)

Lemma bind_run {S A B} (m : M S A) (k : A → M S B) (s : S) :
  (m ≫= k) s = match m s with
               | (s', inl e) => (s', inl e)
               | (s', inr a) => k a s'
               end.
Proof. reflexivity. Qed.

Lemma bind_ok {S A B} (m : M S A) (k : A → M S B) (s s' : S) (a : A) :
  m s = (s', inr a) → (m ≫= k) s = k a s'.
Proof. intros H. by rewrite bind_run, H. Qed.

Lemma bind_err {S A B} (m : M S A) (k : A → M S B) (s s' : S) (e : error) :
  m s = (s', inl e) → (m ≫= k) s = (s', inl e).
Proof. intros H. by rewrite bind_run, H. Qed.

Lemma bind_inv_ok {S A B} (m : M S A) (k : A → M S B) (s s2 : S) (b : B) :
  (m ≫= k) s = (s2, inr b) →
  ∃ s1 a, m s = (s1, inr a) ∧ k a s1 = (s2, inr b).
Proof.
  rewrite bind_run. destruct (m s) as [s1 [e|a]]; [done|]. eauto.
Qed.

(** Unfold the primitive steps of a computation. *)
Ltac run_monad :=
  unfold mbind, M_bind, mret, M_ret, emit, modifyCtx, modify, gets, throw,
    check; simpl.

(** ** Request identifiers *)

Lemma getArchString_empty (k : cqueryKey) :
  Name (archType k) = "" → getArchString k = "x86_64".
Proof. unfold getArchString. by intros ->. Qed.

Lemma getArchString_nonempty (k : cqueryKey) :
  Name (archType k) ≠ "" → getArchString k = Name (archType k).
Proof.
  unfold getArchString. destruct (Name (archType k)); [done|].
  intros _. rewrite bool_decide_true; [done|simpl; lia].
Qed.

(** C10: a key whose architecture has an empty name gets the default
    architecture string "x86_64"; hence its cquery id equals the id of the
    key with the same label and request type under the architecture named
    "x86_64", and both keys read the same entry of any query-output
    table. *)
Theorem getArchString_default_x86_64 (k : cqueryKey) (a : ArchType)
    (cqueryResults : gmap string string) :
  Name (archType k) = "" →
  Name a = "x86_64" →
  getArchString k = "x86_64" ∧
  getCqueryId k = getCqueryId (mkCqueryKey (label k) (requestType k) a) ∧
  cqueryResults !! getCqueryId k =
    cqueryResults !! getCqueryId (mkCqueryKey (label k) (requestType k) a).
Proof.
  intros Hk Ha.
  assert (getCqueryId k
          = getCqueryId (mkCqueryKey (label k) (requestType k) a)) as Hid.
  { unfold getCqueryId. rewrite (getArchString_empty k Hk).
    rewrite getArchString_nonempty; simpl; by rewrite Ha. }
  split; [by apply getArchString_empty|]. split; [done|]. by rewrite Hid.
Qed.

Lemma getArchString_default_x86_64_witness :
  getArchString foo_default = "x86_64" ∧
  getCqueryId foo_default = getCqueryId foo_x86_64 ∧
  (∅ : gmap string string) !! getCqueryId foo_default =
    (∅ : gmap string string) !! getCqueryId foo_x86_64.
Proof.
  apply (getArchString_default_x86_64 foo_default (mkArchType "x86_64") ∅);
    reflexivity.
Defined.

(** ** The request ledger *)

Lemma cquery_hit {R} (w : world R) (L : string) (rt : cqueryRequest)
    (a : ArchType) (v : string) :
  results (ctx w) !! mkCqueryKey L rt a = Some v →
  cquery L rt a w = (w, inr (v, true)).
Proof.
  intros H. unfold cquery. rewrite bind_run. unfold gets. by rewrite H.
Qed.

Lemma cquery_miss {R} (w : world R) (L : string) (rt : cqueryRequest)
    (a : ArchType) :
  let key := mkCqueryKey L rt a in
  results (ctx w) !! key = None →
  cquery L rt a w =
    (mkWorld (set_requests ({[key]} ∪ requests (ctx w)) (ctx w))
             (log w ++ [EvMutexLock; EvRequestsInsert key; EvMutexUnlock]),
     inr ("", false)).
Proof.
  intros key H. unfold cquery. rewrite bind_run. unfold gets.
  fold key. rewrite H. destruct w as [c l]. run_monad.
  by rewrite <- !app_assoc.
Qed.

Lemma cquery_results {R} (w : world R) (L : string) (rt : cqueryRequest)
    (a : ArchType) :
  results (ctx (cquery L rt a w).1) = results (ctx w).
Proof.
  destruct (results (ctx w) !! mkCqueryKey L rt a) as [v|] eqn:H.
  - by rewrite (cquery_hit _ _ _ _ _ H).
  - by rewrite (cquery_miss _ _ _ _ H).
Qed.

Lemma cquery_requests {R} (w : world R) (L : string) (rt : cqueryRequest)
    (a : ArchType) (k : cqueryKey) :
  is_Some (results (ctx w) !! k) →
  k ∈ requests (ctx (cquery L rt a w).1) ↔ k ∈ requests (ctx w).
Proof.
  intros Hk.
  destruct (results (ctx w) !! mkCqueryKey L rt a) as [v|] eqn:H.
  - by rewrite (cquery_hit _ _ _ _ _ H).
  - rewrite (cquery_miss _ _ _ _ H). simpl.
    assert (k ≠ mkCqueryKey L rt a).
    { intros ->. rewrite H in Hk. by destruct Hk. }
    rewrite elem_of_union, elem_of_singleton.
    split; [intros [?|?]; done|by right].
Qed.

(** The world after a sequence of further [cquery] calls. *)
Lemma cquery_later {R} (later : list cqueryKey) (w : world R) (k : cqueryKey) :
  let w' := foldl (λ w k, (cquery (label k) (requestType k) (archType k) w).1)
                  w later in
  results (ctx w') = results (ctx w) ∧
  (is_Some (results (ctx w) !! k) →
   (k ∈ requests (ctx w') ↔ k ∈ requests (ctx w))).
Proof.
  revert w. induction later as [|k0 later IH]; intros w; simpl; [done|].
  destruct (IH (cquery (label k0) (requestType k0) (archType k0) w).1)
    as [IH1 IH2].
  rewrite cquery_results in IH1, IH2. split; [done|].
  intros Hk. rewrite (IH2 Hk). by apply cquery_requests.
Qed.

(** C1: a cquery for a key that is in the results map returns the cached
    string and true and leaves the world (requests, results, log) as it
    was; after any further cquery calls the same call still returns the
    same value and has not put the key into the requests.  A cquery for a
    key that is not in the results map adds the key to the requests,
    between locking and unlocking the request mutex, and returns the empty
    string and false. *)
Theorem cquery_cached_or_queued {R} (w : world R) (L : string)
    (rt : cqueryRequest) (a : ArchType) (later : list cqueryKey) :
  let key := mkCqueryKey L rt a in
  let w' := foldl (λ w k, (cquery (label k) (requestType k) (archType k) w).1)
                  w later in
  match results (ctx w) !! key with
  | Some v =>
      cquery L rt a w = (w, inr (v, true)) ∧
      cquery L rt a w' = (w', inr (v, true)) ∧
      (key ∈ requests (ctx w') ↔ key ∈ requests (ctx w))
  | None =>
      cquery L rt a w =
        (mkWorld (set_requests ({[key]} ∪ requests (ctx w)) (ctx w))
                 (log w ++ [EvMutexLock; EvRequestsInsert key; EvMutexUnlock]),
         inr ("", false)) ∧
      key ∈ requests (ctx (cquery L rt a w).1) ∧
      results (ctx (cquery L rt a w).1) = results (ctx w)
  end.
Proof.
  intros key w'. destruct (results (ctx w) !! key) as [v|] eqn:H.
  - destruct (cquery_later later w key) as [Hres Hreq]. fold w' in Hres, Hreq.
    split; [by apply cquery_hit|]. split.
    + apply cquery_hit. by rewrite Hres.
    + apply Hreq. by rewrite H.
  - split; [by apply cquery_miss|]. split; [|apply cquery_results].
    rewrite (cquery_miss _ _ _ _ H). simpl.
    apply elem_of_union_l, elem_of_singleton. reflexivity.
Qed.

(** ** Strings *)

Lemma sapp_cons (c : ascii) (s t : string) :
  String c s +:+ t = String c (s +:+ t).
Proof. reflexivity. Qed.

Lemma sapp_nil_l (t : string) : "" +:+ t = t.
Proof. reflexivity. Qed.

Lemma sapp_nil_r (s : string) : s +:+ "" = s.
Proof. induction s as [|c s IH]; [done|]. by rewrite sapp_cons, IH. Qed.

Lemma sapp_assoc (s t u : string) : (s +:+ t) +:+ u = s +:+ t +:+ u.
Proof. induction s as [|c s IH]; [done|]. by rewrite !sapp_cons, IH. Qed.

Lemma slength_app (s t : string) :
  String.length (s +:+ t) = String.length s + String.length t.
Proof. induction s as [|c s IH]; [done|]. rewrite sapp_cons. simpl. lia. Qed.

Lemma HasPrefix_spec (s p : string) :
  strings.HasPrefix s p = true ↔ ∃ t, s = p +:+ t.
Proof.
  unfold strings.HasPrefix. revert s.
  induction p as [|c p IH]; intros s; simpl.
  - destruct s; split; eauto.
  - destruct s as [|d s]; simpl.
    + split; [done|]. by intros [t Ht].
    + destruct (ascii_dec c d) as [->|Hne].
      * rewrite IH. split; intros [t Ht]; exists t.
        -- by rewrite sapp_cons, Ht.
        -- rewrite sapp_cons in Ht. congruence.
      * split; [done|]. intros [t Ht]. rewrite sapp_cons in Ht. congruence.
Qed.

Lemma drop_app (p t : string) : strings.drop (String.length p) (p +:+ t) = t.
Proof. induction p as [|c p IH]; simpl; [by destruct t|done]. Qed.

Lemma HasPrefix_drop (s sep : string) :
  strings.HasPrefix s sep = true →
  s = sep +:+ strings.drop (String.length sep) s.
Proof.
  intros H. apply HasPrefix_spec in H. destruct H as [t ->].
  by rewrite drop_app.
Qed.

Lemma Cut_Some (s sep a b : string) :
  strings.Cut s sep = Some (a, b) → first_split sep s a b.
Proof.
  revert a b. induction s as [|c s IH]; intros a b; simpl.
  - destruct (strings.HasPrefix "" sep) eqn:Hp; [|done].
    intros [= <- <-]. split; [|intros; simpl; lia].
    rewrite sapp_nil_l. by apply HasPrefix_drop.
  - destruct (strings.HasPrefix (String c s) sep) eqn:Hp.
    + intros [= <- <-]. split; [|intros; simpl; lia].
      rewrite sapp_nil_l. by apply HasPrefix_drop.
    + destruct (strings.Cut s sep) as [[a0 b0]|] eqn:Hc; [|done].
      intros [= <- <-]. destruct (IH _ _ eq_refl) as [Hs Hmin]. split.
      * by rewrite sapp_cons, <- Hs.
      * intros [|c' a'] b' Heq.
        -- assert (strings.HasPrefix (String c s) sep = true) as Hp'
             by (apply HasPrefix_spec; eauto).
           congruence.
        -- rewrite sapp_cons in Heq. injection Heq as -> Heq.
           apply Hmin in Heq. simpl. lia.
Qed.

Lemma Cut_None (s sep : string) :
  strings.Cut s sep = None → ¬ occurs sep s.
Proof.
  induction s as [|c s IH]; simpl.
  - destruct (strings.HasPrefix "" sep) eqn:Hp; [done|].
    intros _ ([|c a] & b & Heq); [|done].
    assert (strings.HasPrefix "" sep = true)
      by (apply HasPrefix_spec; eauto). congruence.
  - destruct (strings.HasPrefix (String c s) sep) eqn:Hp; [done|].
    destruct (strings.Cut s sep) as [[a0 b0]|] eqn:Hc; [done|].
    intros _ ([|c' a] & b & Heq).
    + assert (strings.HasPrefix (String c s) sep = true)
        by (apply HasPrefix_spec; eauto). congruence.
    + rewrite sapp_cons in Heq. injection Heq as -> Heq.
      apply IH; [done|]. by exists a, b.
Qed.

Lemma Cut_length (s sep a b : string) :
  strings.Cut s sep = Some (a, b) →
  String.length s = String.length a + String.length sep + String.length b.
Proof.
  intros [-> _]%Cut_Some. rewrite !slength_app. lia.
Qed.

(** What precedes the first occurrence holds no occurrence. *)
Lemma Cut_before (s sep a b : string) :
  0 < String.length sep →
  strings.Cut s sep = Some (a, b) → ¬ occurs sep a.
Proof.
  intros Hsep [Hs Hmin]%Cut_Some (x & y & ->).
  specialize (Hmin x (y +:+ sep +:+ b)).
  rewrite !sapp_assoc in Hs. apply Hmin in Hs.
  rewrite !slength_app in Hs. lia.
Qed.

Lemma Contains_Cut (s sep : string) :
  strings.Contains s sep = bool_decide (is_Some (strings.Cut s sep)).
Proof.
  unfold strings.Contains, strings.Index. apply bool_decide_ext.
  by rewrite fmap_is_Some.
Qed.

Lemma SplitN_spec (sep : string) (n : nat) (s : string) :
  0 < String.length sep →
  String.length s < n →
  strings.Join (strings.SplitN s sep n) sep = s ∧
  Forall (λ l, ¬ occurs sep l) (strings.SplitN s sep n) ∧
  strings.SplitN s sep n ≠ [].
Proof.
  intros Hsep. revert s. induction n as [|n IH]; intros s Hlen; [lia|].
  destruct n as [|n].
  - destruct s; [|simpl in Hlen; lia].
    split; [done|]. split; [|done]. constructor; [|done].
    intros ([|??] & b & Heq); [|done].
    destruct sep; [simpl in Hsep; lia|done].
  - change (strings.SplitN s sep (S (S n)))
      with (match strings.Cut s sep with
            | Some (before, after) => before :: strings.SplitN after sep (S n)
            | None => [s]
            end).
    destruct (strings.Cut s sep) as [[a b]|] eqn:Hc.
    + pose proof (Cut_length _ _ _ _ Hc) as Hl.
      destruct (IH b) as (IH1 & IH2 & IH3); [lia|].
      set (rest := strings.SplitN b sep (S n)) in *.
      split; [|split; [|done]].
      * unfold strings.Join in *. destruct rest as [|r rest]; [done|].
        change (a +:+ sep +:+ String.concat sep (r :: rest) = s).
        rewrite IH1. apply Cut_Some in Hc. by destruct Hc as [-> _].
      * constructor; [|done]. by eapply Cut_before.
    + split; [done|]. split; [|done]. constructor; [|done].
      by apply Cut_None.
Qed.

Lemma foldl_ext_eq {A B} (f g : A → B → A) (l : list B) (a : A) :
  (∀ x y, f x y = g x y) → foldl f a l = foldl g a l.
Proof.
  intros Hfg. revert a. induction l as [|y l IH]; intros a; simpl; [done|].
  by rewrite Hfg, IH.
Qed.

(** ** The query-result pass *)

Lemma SplitN_2_Cut (line sep : string) :
  strings.SplitN line sep 2 =
    match strings.Cut line sep with
    | Some (before, after) => [before; after]
    | None => [line]
    end.
Proof. simpl. by destruct (strings.Cut line sep) as [[??]|]. Qed.

(** C3: the query-result pass splits the standard output on newlines
    (the lines joined by newlines give the output back and no line holds a
    newline), takes the lines that contain the separator, splits each at
    the first occurrence of the separator into an id and a payload, and
    stores the payload under the id; what follows the first separator,
    further separators included, is the payload. *)
Theorem parseCqueryOutput_demultiplexes (cqueryOutput : string) :
  let lines := strings.Split cqueryOutput nl in
  strings.Join lines nl = cqueryOutput ∧
  Forall (λ l, ¬ occurs nl l) lines ∧
  parseCqueryOutput cqueryOutput = demultiplex lines ∧
  ∀ line, match strings.Cut line ">>" with
          | Some (id, payload) =>
              strings.Contains line ">>" = true ∧
              first_split ">>" line id payload
          | None =>
              strings.Contains line ">>" = false ∧ ¬ occurs ">>" line
          end.
Proof.
  intros lines.
  destruct (SplitN_spec nl (S (String.length cqueryOutput)) cqueryOutput)
    as (HJ & HF & _); [simpl; lia|lia|].
  split; [done|]. split; [done|]. split.
  - unfold parseCqueryOutput, demultiplex. apply foldl_ext_eq.
    intros m line. rewrite Contains_Cut, SplitN_2_Cut.
    destruct (strings.Cut line ">>") as [[id payload]|] eqn:Hc.
    + by rewrite bool_decide_true.
    + rewrite bool_decide_false; [done|]. by intros [??].
  - intros line. rewrite Contains_Cut.
    destruct (strings.Cut line ">>") as [[id payload]|] eqn:Hc.
    + split; [by rewrite bool_decide_true|]. by apply Cut_Some.
    + split; [|by apply Cut_None].
      rewrite bool_decide_false; [done|]. by intros [??].
Qed.

(** The scenario of the specification, with a payload that itself holds
    the separator. *)
Example parseCqueryOutput_scenario :
  parseCqueryOutput
    ("Loading: 0 packages loaded" +:+ nl +:+
     "@sourceroot//pkg:foo|arm64>>getAllFiles>>out/foo.so" +:+ nl)
  !! "@sourceroot//pkg:foo|arm64" = Some "getAllFiles>>out/foo.so".
Proof. vm_compute. reflexivity. Qed.

(** ** The event log *)

Lemma count_events_app (p : event → bool) (l1 l2 : list event) :
  count_events p (l1 ++ l2) = count_events p l1 + count_events p l2.
Proof. induction l1 as [|e l1 IH]; simpl; [done|]. rewrite IH. lia. Qed.

(** ** The loop over the requests *)

Section HandlerFacts.
Context (ext : Externals) (os : OS).
Context {R : Type} `{!bazelRunner R}.

(** The loop touches the results only; it ends either with every
    visited request resolved from the table, or at a request whose id
    the table lacks, with the error that names it. *)
Lemma collectResults_spec (tbl : gmap string string) (out cerr : string)
    (order : list cqueryKey) (w : world R) :
  let '(w', r) := collectResults tbl out cerr order w in
  log w' = log w ∧ requests (ctx w') = requests (ctx w) ∧
  runner (ctx w') = runner (ctx w) ∧ paths (ctx w') = paths (ctx w) ∧
  buildStatements (ctx w') = buildStatements (ctx w) ∧
  match r with
  | inr _ =>
      (∀ k, k ∈ order → is_Some (tbl !! getCqueryId k)) ∧
      ∀ k, results (ctx w') !! k =
             if decide (k ∈ order) then tbl !! getCqueryId k
             else results (ctx w) !! k
  | inl e =>
      ∃ k, k ∈ order ∧ tbl !! getCqueryId k = None ∧
           e = missingResultError k out cerr
  end.
Proof.
  revert w. induction order as [|val order IH]; intros w; simpl.
  - repeat split; try done. by intros k ?%elem_of_nil.
  - destruct (tbl !! getCqueryId val) as [v|] eqn:Hv.
    + rewrite bind_run. run_monad.
      specialize (IH (mkWorld
        (set_results (<[val:=v]> (results (ctx w))) (ctx w)) (log w))).
      destruct (collectResults tbl out cerr order _) as [w' [e|[]]];
        simpl in IH; destruct IH as (?&?&?&?&?&IH);
        repeat (split; [done|]).
      * destruct IH as (k & Hk & Hn & ->). exists k.
        split; [by right|done].
      * destruct IH as [IHp IH]. split.
        { intros k [->|?]%elem_of_cons; [by rewrite Hv|by apply IHp]. }
        intros k. rewrite IH.
        destruct (decide (k = val)) as [->|Hne].
        -- rewrite lookup_insert_eq.
           rewrite (decide_True (P := val ∈ val :: order)); [|by left].
           by destruct (decide (val ∈ order)).
        -- rewrite lookup_insert_ne by done.
           destruct (decide (k ∈ order)) as [Hin|Hnin].
           ++ rewrite decide_True; [done|by right].
           ++ rewrite decide_False; [done|].
              intros [?|?]%elem_of_cons; done.
    + run_monad. repeat (split; [done|]).
      exists val. split; [by left|done].
Qed.

Lemma InvokeBazel_query_spec (sch : Schedule) (w : world R) :
  let '(w1, r) := InvokeBazel_query ext os sch w in
  requests (ctx w1) = requests (ctx w) ∧ paths (ctx w1) = paths (ctx w) ∧
  ∃ evs, log w1 = log w ++ evs ∧
         count_InvokeBazel evs = 0 ∧
         count_commands "aquery" evs = 0 ∧
         count_commands "cquery" evs ≤ 1 ∧
         match r with
         | inr _ => count_commands "cquery" evs = 1 ∧ results (ctx w1) = ∅
         | inl _ => True
         end.
Proof.
  destruct w as [c l].
  unfold InvokeBazel_query, Stat_IsNotExist, Mkdir, WriteFile, issue,
    callRunner.
  run_monad.
  repeat match goal with
  | |- context [os_Stat_IsNotExist os ?p] =>
      destruct (os_Stat_IsNotExist os p); run_monad
  | |- context [ioutil_WriteFile os ?p ?d] =>
      destruct (ioutil_WriteFile os p d); run_monad
  | |- context [issueBazelCommand ?a ?b ?c ?d ?e] =>
      destruct (issueBazelCommand a b c d e) as [? [[? ?] ?]]; run_monad
  end.
  all: split; [done|]; split; [done|]; eexists;
    (split; [rewrite <- ?app_assoc; reflexivity|]).
  all: unfold count_commands, count_InvokeBazel; simpl;
    repeat split; try done; lia.
Qed.

Lemma InvokeBazel_collect_spec (sch : Schedule) (out cerr : string)
    (w : world R) :
  let order := range_requests_results sch in
  let tbl := parseCqueryOutput out in
  let '(w', r) := InvokeBazel_collect ext sch out cerr w in
  ∃ evs, log w' = log w ++ evs ∧
         count_InvokeBazel evs = 0 ∧
         count_commands "cquery" evs = 0 ∧
         count_commands "aquery" evs ≤ 1 ∧
         match r with
         | inr _ =>
             count_commands "aquery" evs = 1 ∧
             requests (ctx w') = ∅ ∧
             (∀ k, k ∈ order → is_Some (tbl !! getCqueryId k)) ∧
             ∀ k, results (ctx w') !! k =
                    if decide (k ∈ order) then tbl !! getCqueryId k
                    else results (ctx w) !! k
         | inl e =>
             requests (ctx w') = requests (ctx w) ∧
             ((∃ k, k ∈ order ∧ tbl !! getCqueryId k = None) →
              evs = [] ∧
              ∃ k, k ∈ order ∧ tbl !! getCqueryId k = None ∧
                   e = missingResultError k out cerr)
         end.
Proof.
  intros order tbl. unfold InvokeBazel_collect. rewrite bind_run.
  pose proof (collectResults_spec tbl out cerr order w) as Hc.
  fold order tbl.
  destruct (collectResults tbl out cerr order w) as [w1 [e|[]]].
  - destruct Hc as (Hl & Hq & _ & _ & _ & Hk).
    exists []. rewrite app_nil_r. repeat (split; [done|]).
    unfold count_commands, count_InvokeBazel; simpl.
    split; [lia|]. split; [done|].
    intros _. split; [done|]. exact Hk.
  - destruct Hc as (Hl & Hq & _ & _ & _ & Hp & Hk).
    destruct w1 as [c1 l1]. simpl in *. subst l1.
    unfold issue, callRunner. run_monad.
    repeat match goal with
    | |- context [issueBazelCommand ?a ?b ?c ?d ?e] =>
        destruct (issueBazelCommand a b c d e) as [? [[? ?] [?|]]];
        run_monad
    | |- context [AqueryBuildStatements ext ?o] =>
        destruct (AqueryBuildStatements ext o) as [? [?|]]; run_monad
    end.
    all: eexists; (split; [rewrite <- ?app_assoc; reflexivity|]).
    all: unfold count_commands, count_InvokeBazel; simpl;
      repeat split; try done; try lia.
    all: exfalso;
      match goal with
      | H : ex _ |- _ => destruct H as (k & Hin & Hnone)
      end;
      apply Hp in Hin; rewrite Hnone in Hin; by destruct Hin.
Qed.

(** C2: when [InvokeBazel] returns nil, every key that was in the
    requests when it started is in the results; and when the query output
    has been obtained and lacks the cquery id of some requested key,
    [InvokeBazel] returns an error that names a missing cquery id, without
    issuing any further command and without clearing the requests. *)
Theorem InvokeBazel_complete (sch : Schedule) (w : world R) :
  range_requests_results sch ≡ₚ elements (requests (ctx w)) →
  (∀ w', InvokeBazel ext os sch w = (w', inr tt) →
         ∀ k, k ∈ requests (ctx w) → is_Some (results (ctx w') !! k)) ∧
  (∀ w1 out cerr,
     InvokeBazel_query ext os sch w = (w1, inr (out, cerr)) →
     (∃ k, k ∈ requests (ctx w) ∧
           parseCqueryOutput out !! getCqueryId k = None) →
     ∃ k' w',
       k' ∈ requests (ctx w) ∧
       parseCqueryOutput out !! getCqueryId k' = None ∧
       InvokeBazel ext os sch w = (w', inl (missingResultError k' out cerr)) ∧
       occurs (getCqueryId k') (missingResultError k' out cerr) ∧
       log w' = log w1 ∧ requests (ctx w') = requests (ctx w)).
Proof.
  intros Hperm.
  assert (∀ k, k ∈ range_requests_results sch ↔ k ∈ requests (ctx w)) as Hin.
  { intros k. rewrite Hperm. apply elem_of_elements. }
  split.
  - intros w' Hrun k Hk. unfold InvokeBazel in Hrun.
    apply bind_inv_ok in Hrun as (w1 & [out cerr] & Hq & Hc).
    pose proof (InvokeBazel_collect_spec sch out cerr w1) as Hs.
    simpl in Hs. rewrite Hc in Hs.
    destruct Hs as (evs & _ & _ & _ & _ & _ & _ & Hp & Hres).
    rewrite Hres, decide_True by by apply Hin. apply Hp. by apply Hin.
  - intros w1 out cerr Hq (k & Hk & Hnone).
    pose proof (InvokeBazel_query_spec sch w) as Hqs. rewrite Hq in Hqs.
    destruct Hqs as (Hreq & _).
    pose proof (InvokeBazel_collect_spec sch out cerr w1) as Hs. simpl in Hs.
    unfold InvokeBazel. rewrite (bind_ok _ _ _ _ _ Hq).
    destruct (InvokeBazel_collect ext sch out cerr w1) as [w' [e|[]]].
    + destruct Hs as (evs & Hlog & _ & _ & _ & Hreq' & Hmiss).
      destruct Hmiss as (-> & k' & Hk' & Hn' & ->).
      { exists k. split; [by apply Hin|done]. }
      exists k', w'. split; [by apply Hin|]. split; [done|].
      split; [done|]. split.
      * exists "missing result for bazel target ". eexists.
        unfold missingResultError. reflexivity.
      * rewrite app_nil_r in Hlog. split; [done|]. by rewrite Hreq'.
    + destruct Hs as (evs & _ & _ & _ & _ & _ & _ & Hp & _).
      apply Hin, Hp in Hk. rewrite Hnone in Hk. by destruct Hk.
Qed.

End HandlerFacts.

(** ** The action splicer *)

Section SplicerFacts.
Context (ext : Externals) (os : OS).
Context {R : Type}.

Lemma foldl_ImplicitOutput (l : list string) (c : RuleBuilderCommand) :
  foldl (λ cmd p, ImplicitOutput (PathForBazelOut ext p) cmd) c l
  = mkRuleBuilderCommand (text c)
      (implicitOutputs c ++ (PathForBazelOut ext <$> l)) (implicits c)
      (depFiles c).
Proof.
  revert c. induction l as [|p l IH]; intros c; simpl.
  - rewrite app_nil_r. by destruct c.
  - rewrite IH. simpl. by rewrite <- app_assoc.
Qed.

Lemma foldl_Implicit (l : list string) (c : RuleBuilderCommand) :
  foldl (λ cmd p, Implicit (PathForBazelOut ext p) cmd) c l
  = mkRuleBuilderCommand (text c) (implicitOutputs c)
      (implicits c ++ (PathForBazelOut ext <$> l)) (depFiles c).
Proof.
  revert c. induction l as [|p l IH]; intros c; simpl.
  - rewrite app_nil_r. by destruct c.
  - rewrite IH. simpl. by rewrite <- app_assoc.
Qed.

Lemma spliceRule_expected (outputBase : string) (index : nat)
    (buildStatement : BuildStatement) :
  mkBuildRule ("bazel " +:+ pretty index) (Mnemonic buildStatement)
              (spliceRule ext outputBase buildStatement)
  = expectedRule ext outputBase index buildStatement.
Proof.
  unfold spliceRule, expectedRule.
  rewrite foldl_ImplicitOutput, foldl_Implicit. simpl.
  by destruct (Depfile buildStatement).
Qed.

Lemma empty_command (buildStatement : BuildStatement) :
  String.length (Command buildStatement) < 1 ↔ Command buildStatement = "".
Proof. destruct (Command buildStatement); simpl; split; (done || lia). Qed.

(** The loop registers the expected rule of every statement up to the
    first one with an empty command, and panics there if there is one. *)
Lemma registerBuildStatements_spec (outputBase : string)
    (statements : list BuildStatement) (index : nat) (s : SingletonContext) :
  registerBuildStatements ext outputBase index statements s
  = (mkSingletonContext (ninjaFileDeps s) (errors s)
       (rules s ++ imap (λ i, expectedRule ext outputBase (index + i))
                        (splicedPrefix statements)),
     match statements !! length (splicedPrefix statements) with
     | Some buildStatement => inl (unhandledBuildStatement ext buildStatement)
     | None => inr tt
     end).
Proof.
  revert index s. induction statements as [|bs statements IH];
    intros index s; simpl.
  - rewrite app_nil_r. by destruct s.
  - destruct (decide (Command bs = "")) as [He|Hne].
    + rewrite !bool_decide_true by (done || by apply empty_command).
      simpl. rewrite app_nil_r. by destruct s.
    + rewrite !bool_decide_false by (done || by rewrite empty_command).
      rewrite bind_run. unfold Build, modify. rewrite IH. simpl.
      rewrite spliceRule_expected, <- app_assoc. simpl.
      rewrite Nat.add_0_r.
      rewrite (imap_ext (λ i, expectedRule ext outputBase (S index + i))
                 ((λ i, expectedRule ext outputBase (index + i)) ∘ S));
        [done|].
      intros i x _. simpl. f_equal. lia.
Qed.

Lemma foldl_AddNinjaFileDeps (files : list string) (m : M SingletonContext unit)
    (s : SingletonContext) :
  (∃ s1, m s = (s1, inr tt) ∧ rules s1 = rules s) →
  ∃ s2, foldl (λ acc file, acc;; AddNinjaFileDeps [file]) m files s
        = (s2, inr tt) ∧ rules s2 = rules s.
Proof.
  revert m. induction files as [|f files IH]; intros m Hm; simpl; [done|].
  apply IH. destruct Hm as (s1 & Hm & Hr).
  rewrite (bind_ok _ _ _ _ _ Hm). eexists. split; [reflexivity|done].
Qed.

(** What a run of the splicer registers, and how it ends. *)
Lemma GenerateBuildActions_spec (b : BazelContext R) (s : SingletonContext) :
  let statements := BuildStatementsToRegister b in
  ∃ s',
    GenerateBuildActions ext os b s
    = (s', match statements !! length (splicedPrefix statements) with
           | Some buildStatement =>
               inl (unhandledBuildStatement ext buildStatement)
           | None => inr tt
           end) ∧
    rules s' = rules s ++ imap (expectedRule ext (OutputBase b))
                               (splicedPrefix statements).
Proof.
  intros statements. unfold GenerateBuildActions.
  destruct (BazelEnabled b) eqn:Hen; simpl.
  - rewrite bind_run. unfold AddNinjaFileDeps at 1. unfold modify at 1.
    destruct (ioutil_ReadFile os _) as [data err].
    rewrite bind_run.
    set (files := strings.Split (strings_TrimSpace ext data) nl).
    assert (∃ s1, match err with
                  | Some e => Errorf e
                  | None => mret ()
                  end
                    (mkSingletonContext
                       (ninjaFileDeps s ++
                        [absolutePath ext
                           (filepath_Join ext
                              (filepath_Dir ext (ModuleListFile ext))
                              "bazel.list")])
                       (errors s) (rules s))
                  = (s1, inr tt) ∧ rules s1 = rules s) as (s1 & -> & Hr1).
    { destruct err; eexists; (split; [reflexivity|done]). }
    rewrite bind_run.
    destruct (foldl_AddNinjaFileDeps files (mret tt) s1) as (s2 & -> & Hr2).
    { exists s1. done. }
    rewrite registerBuildStatements_spec. eexists. split; [reflexivity|].
    simpl. by rewrite Hr2, Hr1.
  - exists s. destruct b; simpl in *; try done. by rewrite app_nil_r.
Qed.

Lemma splicedPrefix_nonempty (statements : list BuildStatement) :
  Forall (λ bs, Command bs ≠ "") (splicedPrefix statements) ∧
  ∀ bs, bs ∈ splicedPrefix statements → bs ∈ statements.
Proof.
  induction statements as [|bs0 statements [IH1 IH2]]; simpl.
  - split; [constructor|done].
  - case_bool_decide as Hc.
    + split; [constructor|]. by intros bs ?%elem_of_nil.
    + split; [by constructor|].
      intros bs [->|?]%elem_of_cons; [by left|right; by apply IH2].
Qed.

Lemma splicedPrefix_stops (statements : list BuildStatement)
    (bad : BuildStatement) :
  bad ∈ statements → Command bad = "" →
  ∃ offending,
    statements !! length (splicedPrefix statements) = Some offending ∧
    Command offending = "".
Proof.
  intros Hin Hbad. induction statements as [|bs0 statements IH]; simpl.
  - by apply elem_of_nil in Hin.
  - case_bool_decide as Hc; simpl; [by exists bs0|].
    apply IH. apply elem_of_cons in Hin as [->|?]; [done|done].
Qed.

Lemma splicedPrefix_lookup (statements : list BuildStatement) (i : nat)
    (bs : BuildStatement) :
  statements !! i = Some bs →
  (∀ j earlier, j ≤ i → statements !! j = Some earlier →
                Command earlier ≠ "") →
  splicedPrefix statements !! i = Some bs.
Proof.
  revert i. induction statements as [|bs0 statements IH]; intros i Hi Hne;
    simpl; [done|].
  rewrite bool_decide_false by (apply (Hne 0 bs0); [lia|done]).
  destruct i as [|i]; simpl in *; [done|].
  apply IH; [done|]. intros j earlier Hj Hl. apply (Hne (S j)); [lia|done].
Qed.

Lemma splicedPrefix_all (statements : list BuildStatement) :
  (∀ bs, bs ∈ statements → Command bs ≠ "") →
  splicedPrefix statements = statements.
Proof.
  induction statements as [|bs0 statements IH]; intros Hne; simpl; [done|].
  rewrite bool_decide_false by (apply Hne; by left).
  rewrite IH; [done|]. intros bs ?. apply Hne. by right.
Qed.

Lemma registeredRules_spec (b : BazelContext R) (s : SingletonContext) :
  rules (GenerateBuildActions ext os b s).1
  = rules s ++ registeredRules ext os b s ∧
  registeredRules ext os b s
  = imap (expectedRule ext (OutputBase b))
         (splicedPrefix (BuildStatementsToRegister b)).
Proof.
  unfold registeredRules.
  destruct (GenerateBuildActions_spec b s) as (s' & -> & Hr). simpl.
  rewrite Hr, drop_app_length. done.
Qed.

Lemma expectedRule_index (outputBase : string) (i j : nat)
    (bs bs' : BuildStatement) :
  expectedRule ext outputBase i bs = expectedRule ext outputBase j bs' →
  i = j.
Proof.
  intros H. apply (f_equal rule_name) in H. simpl in H.
  apply (inj (String.app "bazel ")) in H. by apply (inj pretty) in H.
Qed.

(** C4: when some statement to register has an empty command, the
    splicer panics with the message that shows an offending statement (the
    first one with an empty command), and every rule it has registered by
    then comes from a statement with a non-empty command and has a
    non-empty command text. *)
Theorem GenerateBuildActions_empty_command (b : BazelContext R)
    (s : SingletonContext) (bad : BuildStatement) :
  bad ∈ BuildStatementsToRegister b →
  Command bad = "" →
  ∃ offending s',
    GenerateBuildActions ext os b s
    = (s', inl ("unhandled build statement: " +:+
                fmt_BuildStatement ext offending)) ∧
    offending ∈ BuildStatementsToRegister b ∧
    Command offending = "" ∧
    rules s' = rules s ++ registeredRules ext os b s ∧
    Forall (λ r, text (rb_command (rule_builder r)) ≠ "" ∧
                 ∃ bs, bs ∈ BuildStatementsToRegister b ∧
                       Command bs ≠ "" ∧
                       rule_builder r = spliceRule ext (OutputBase b) bs)
           (registeredRules ext os b s).
Proof.
  intros Hin Hbad.
  destruct (splicedPrefix_stops _ _ Hin Hbad) as (offending & Hl & Hc).
  destruct (registeredRules_spec b s) as [Hr1 Hr2].
  destruct (GenerateBuildActions_spec b s) as (s' & Hrun & _).
  simpl in Hrun. rewrite Hl in Hrun. rewrite Hrun in Hr1. simpl in Hr1.
  exists offending, s'. split; [done|].
  split; [by eapply list_elem_of_lookup_2|]. split; [done|].
  split; [done|]. rewrite Hr2. apply Forall_forall. intros r Hr.
  apply elem_of_lookup_imap in Hr as (i & bs & -> & Hbs).
  destruct (splicedPrefix_nonempty (BuildStatementsToRegister b))
    as [Hne Hsub].
  apply list_elem_of_lookup_2 in Hbs. split; [done|]. exists bs.
  split; [by apply Hsub|]. split.
  - by eapply (proj1 (Forall_forall _ _) Hne).
  - by rewrite <- (spliceRule_expected _ i).
Qed.

(** C5, amended: the rules a run of the splicer registers are, in order,
    the specified rules of the statements that precede the first
    statement with an empty command: exactly one rule, as specified, for
    every statement with a non-empty command that no statement with an
    empty command precedes; when no statement has an empty command the
    run completes and registers exactly one rule per statement. *)
Theorem GenerateBuildActions_splices (b : BazelContext R)
    (s : SingletonContext) :
  let statements := BuildStatementsToRegister b in
  let registered := registeredRules ext os b s in
  rules (GenerateBuildActions ext os b s).1 = rules s ++ registered ∧
  registered = imap (expectedRule ext (OutputBase b))
                    (splicedPrefix statements) ∧
  one_rule_per_statement_reached ext (OutputBase b) statements registered ∧
  ((∀ bs, bs ∈ statements → Command bs ≠ "") →
   (GenerateBuildActions ext os b s).2 = inr tt ∧
   length registered = length statements ∧
   one_rule_per_statement ext (OutputBase b) statements registered).
Proof.
  intros statements registered.
  destruct (registeredRules_spec b s) as [Hr1 Hr2].
  fold statements registered in Hr1, Hr2.
  assert (one_rule_per_statement_reached ext (OutputBase b) statements
            registered) as Hone.
  { intros i bs Hi Hearlier Hne.
    assert (splicedPrefix statements !! i = Some bs) as Hp.
    { apply splicedPrefix_lookup; [done|]. intros j earlier Hj Hl.
      destruct (decide (j = i)) as [->|]; [congruence|].
      apply (Hearlier j); [lia|done]. }
    exists i. rewrite Hr2. split.
    - by rewrite list_lookup_imap, Hp.
    - intros j' Hj'. rewrite list_lookup_imap in Hj'.
      destruct (splicedPrefix statements !! j') as [bs'|]; [|done].
      simpl in Hj'.
      assert (expectedRule ext (OutputBase b) j' bs'
              = expectedRule ext (OutputBase b) i bs) as Heq by congruence.
      by apply expectedRule_index in Heq. }
  split; [done|]. split; [done|]. split; [done|]. intros Hall.
  pose proof (splicedPrefix_all statements Hall) as Hpre. split; [|split].
  - destruct (GenerateBuildActions_spec b s) as (s' & -> & _). simpl.
    fold statements. rewrite Hpre, lookup_ge_None_2; [done|lia].
  - by rewrite Hr2, length_imap, Hpre.
  - intros i bs Hi Hne. apply Hone; [done| |done].
    intros j earlier _ Hl. apply Hall. by eapply list_elem_of_lookup_2.
Qed.

End SplicerFacts.

(** ** The two-pass driver *)

Lemma quiet_nil : quiet [].
Proof. by repeat split. Qed.

Lemma quiet_app (l1 l2 : list event) : quiet l1 → quiet l2 → quiet (l1 ++ l2).
Proof.
  unfold quiet, count_commands, count_InvokeBazel.
  rewrite !count_events_app. lia.
Qed.

Section DriverFacts.
Context (ext : Externals) (os : OS).
Context {R : Type} `{!bazelRunner R}.

(** One execution of [InvokeBazel] issues each of the two commands at
    most once, and exactly once when it returns nil. *)
Lemma InvokeBazel_log (sch : Schedule) (w : world R) :
  let '(w', r) := InvokeBazel ext os sch w in
  ∃ evs, log w' = log w ++ evs ∧
         count_InvokeBazel evs = 0 ∧
         at_most_once_each evs ∧
         (r = inr tt → exactly_once_each evs).
Proof.
  unfold InvokeBazel. rewrite bind_run.
  pose proof (InvokeBazel_query_spec ext os sch w) as Hq.
  destruct (InvokeBazel_query ext os sch w) as [w1 [e|[out cerr]]].
  - destruct Hq as (_ & _ & evs & Hl & Hi & Ha & Hc & _).
    exists evs. split; [done|]. split; [done|].
    split; [split; [done|lia]|done].
  - destruct Hq as (_ & _ & evs1 & Hl1 & Hi1 & Ha1 & _ & Hc1 & _).
    pose proof (InvokeBazel_collect_spec ext sch out cerr w1) as Hs.
    simpl in Hs.
    destruct (InvokeBazel_collect ext sch out cerr w1) as [w' r].
    destruct Hs as (evs2 & Hl2 & Hi2 & Hc2 & Ha2 & Hr).
    exists (evs1 ++ evs2). rewrite Hl2, Hl1, <- app_assoc.
    unfold at_most_once_each, exactly_once_each, count_commands,
      count_InvokeBazel in *.
    rewrite !count_events_app. split; [done|]. split; [lia|].
    split; [split; lia|]. intros ->. destruct Hr as [? _]. split; lia.
Qed.

Lemma cquery_quiet (L : string) (rt : cqueryRequest) (a : ArchType)
    (w : world R) :
  ∃ w' v evs, cquery L rt a w = (w', inr v) ∧ log w' = log w ++ evs ∧
              quiet evs.
Proof.
  destruct (results (ctx w) !! mkCqueryKey L rt a) as [v|] eqn:H.
  - rewrite (cquery_hit _ _ _ _ _ H). exists w, (v, true), [].
    rewrite app_nil_r. split; [done|]. split; [done|]. apply quiet_nil.
  - rewrite (cquery_miss _ _ _ _ H). do 3 eexists.
    split; [reflexivity|]. split; [reflexivity|]. by repeat split.
Qed.

Lemma foldl_cquery_quiet (reqs : list cqueryKey) (m : M (world R) unit)
    (w : world R) :
  (∃ w1 e1, m w = (w1, inr tt) ∧ log w1 = log w ++ e1 ∧ quiet e1) →
  ∃ w2 e2,
    foldl (λ acc k,
             acc;; _ ← cquery (label k) (requestType k) (archType k); mret tt)
          m reqs w = (w2, inr tt) ∧
    log w2 = log w ++ e2 ∧ quiet e2.
Proof.
  revert m. induction reqs as [|k reqs IH]; intros m Hm; simpl; [done|].
  apply IH. destruct Hm as (w1 & e1 & Hm & Hl1 & Hq1).
  destruct (cquery_quiet (label k) (requestType k) (archType k) w1)
    as (w2 & v & e2 & Hc & Hl2 & Hq2).
  exists w2, (e1 ++ e2). rewrite (bind_ok _ _ _ _ _ Hm).
  rewrite (bind_ok _ _ _ _ _ Hc). split; [done|].
  split; [by rewrite Hl2, Hl1, <- app_assoc|by apply quiet_app].
Qed.

Lemma analysisPass_spec (reqs : list cqueryKey) (w : world R) :
  ∃ w' evs, analysisPass reqs w = (w', inr tt) ∧
            log w' = log w ++ EvAnalysisPass :: evs ∧ quiet evs.
Proof.
  unfold analysisPass. rewrite bind_run. unfold emit at 1, modify at 1.
  destruct (foldl_cquery_quiet reqs (mret tt)
              (mkWorld (ctx w) (log w ++ [EvAnalysisPass])))
    as (w2 & e2 & Hf & Hl & Hq).
  { do 2 eexists. split; [reflexivity|]. simpl.
    split; [by rewrite app_nil_r|apply quiet_nil]. }
  exists w2, e2. split; [done|]. split; [|done].
  rewrite Hl. simpl. by rewrite <- app_assoc.
Qed.

(** C9, amended: one execution of [InvokeBazel] issues the cquery command
    and the aquery command at most once each, and exactly once each when
    it returns nil; a run of [runMixedModeBuild] calls [InvokeBazel]
    exactly once, after the first analysis pass and before the second,
    and the passes issue no Bazel command, so that over the whole run
    either command is issued at most once, whatever the passes request;
    exactly once each when the run completes. *)
Theorem runMixedModeBuild_at_most_once (firstPass secondPass : list cqueryKey)
    (sch : Schedule) (w : world R) :
  (let '(w', r) := InvokeBazel ext os sch w in
   ∃ evs, log w' = log w ++ evs ∧ at_most_once_each evs ∧
          (r = inr tt → exactly_once_each evs)) ∧
  (let '(w', r) := runMixedModeBuild ext os firstPass secondPass sch w in
   ∃ pass1 invoke pass2,
     log w' = log w ++ EvAnalysisPass :: pass1 ++
                       EvInvokeBazel :: invoke ++ pass2 ∧
     quiet pass1 ∧ quiet pass2 ∧
     count_InvokeBazel invoke = 0 ∧
     at_most_once_each invoke ∧
     count_InvokeBazel (EvAnalysisPass :: pass1 ++
                        EvInvokeBazel :: invoke ++ pass2) = 1 ∧
     at_most_once_each (EvAnalysisPass :: pass1 ++
                        EvInvokeBazel :: invoke ++ pass2) ∧
     (r = inr tt →
      exactly_once_each invoke ∧
      ∃ pass2', pass2 = EvAnalysisPass :: pass2')).
Proof.
  split.
  { pose proof (InvokeBazel_log sch w) as H.
    destruct (InvokeBazel ext os sch w) as [w' r].
    destruct H as (evs & ? & _ & ? & ?). by exists evs. }
  unfold runMixedModeBuild.
  destruct (analysisPass_spec firstPass w) as (w1 & p1 & Hp1 & Hl1 & Hq1).
  rewrite (bind_ok _ _ _ _ _ Hp1), bind_run.
  unfold emit at 1, modify at 1. rewrite bind_run.
  pose proof (InvokeBazel_log sch
                (mkWorld (ctx w1) (log w1 ++ [EvInvokeBazel]))) as Hi.
  destruct (InvokeBazel ext os sch _) as [w2 [e|[]]].
  - destruct Hi as (inv & Hl2 & Hc & Ham & _). simpl in Hl2.
    exists p1, inv, [].
    assert (count_InvokeBazel
              (EvAnalysisPass :: p1 ++ EvInvokeBazel :: inv ++ []) = 1
            ∧ at_most_once_each
                (EvAnalysisPass :: p1 ++ EvInvokeBazel :: inv ++ [])) as Hcnt.
    { destruct Hq1 as (?&?&?). destruct Ham as [??].
      unfold at_most_once_each, count_commands, count_InvokeBazel in *.
      simpl. rewrite !count_events_app. simpl.
      rewrite !count_events_app. simpl. lia. }
    destruct Hcnt as [Hc1 Hc2].
    refine (conj _ (conj Hq1 (conj quiet_nil (conj Hc (conj Ham
              (conj Hc1 (conj Hc2 _))))))); [|done].
    rewrite Hl2, Hl1, app_nil_r, <- !app_assoc. done.
  - destruct Hi as (inv & Hl2 & Hc & Ham & Hex). simpl in Hl2.
    specialize (Hex eq_refl). rewrite bind_run.
    destruct (ConfigForAdditionalRun os) as [e|]; simpl.
    + exists p1, inv, [].
      assert (count_InvokeBazel
                (EvAnalysisPass :: p1 ++ EvInvokeBazel :: inv ++ []) = 1
              ∧ at_most_once_each
                  (EvAnalysisPass :: p1 ++ EvInvokeBazel :: inv ++ []))
        as Hcnt.
      { destruct Hq1 as (?&?&?). destruct Ham as [??].
        unfold at_most_once_each, count_commands, count_InvokeBazel in *.
        simpl. rewrite !count_events_app. simpl.
        rewrite !count_events_app. simpl. lia. }
      destruct Hcnt as [Hc1 Hc2].
      refine (conj _ (conj Hq1 (conj quiet_nil (conj Hc (conj Ham
                (conj Hc1 (conj Hc2 _))))))); [|done].
      rewrite Hl2, Hl1, app_nil_r, <- !app_assoc. done.
    + destruct (analysisPass_spec secondPass w2)
        as (w3 & p2 & Hp2 & Hl3 & Hq2).
      unfold mret, M_ret. rewrite Hp2.
      exists p1, inv, (EvAnalysisPass :: p2).
      assert (quiet (EvAnalysisPass :: p2)) as Hq2'.
      { destruct Hq2 as (?&?&?). by repeat split. }
      assert (count_InvokeBazel
                (EvAnalysisPass :: p1 ++ EvInvokeBazel :: inv ++
                 EvAnalysisPass :: p2) = 1
              ∧ at_most_once_each
                  (EvAnalysisPass :: p1 ++ EvInvokeBazel :: inv ++
                   EvAnalysisPass :: p2)) as Hcnt.
      { destruct Hq1 as (?&?&?). destruct Hq2 as (?&?&?).
        destruct Ham as [??].
        unfold at_most_once_each, count_commands, count_InvokeBazel in *.
        simpl. rewrite !count_events_app. simpl.
        rewrite !count_events_app. simpl. lia. }
      destruct Hcnt as [Hc1 Hc2].
      refine (conj _ (conj Hq1 (conj Hq2' (conj Hc (conj Ham
                (conj Hc1 (conj Hc2 _))))))).
      * rewrite Hl3, Hl2, Hl1, <- !app_assoc. done.
      * intros _. split; [done|by eexists].
Qed.

End DriverFacts.

(** ** Architecture tagging *)








(** ** Configuration *)

(** What the constructor does: it fails exactly when some required
    setting reads as a string of fewer than two bytes, and then reports
    all such settings. *)
Lemma bazelPathsFromConfig_spec (c : config) :
  bazelPathsFromConfig c
  = match reportedEnvVars c with
    | [] => inr (mkBazelPaths (Getenv c "BAZEL_HOME") (Getenv c "BAZEL_PATH")
                   (Getenv c "BAZEL_OUTPUT_BASE") (Getenv c "BAZEL_WORKSPACE")
                   (config_buildDir c) (Getenv c "BAZEL_METRICS_DIR"))
    | missing => inl ("missing required env vars to use bazel: " +:+
                      fmt_strings missing)
    end.
Proof.
  unfold bazelPathsFromConfig, reportedEnvVars, requiredEnvVars.
  cbn [List.filter].
  destruct (bool_decide (1 < String.length (Getenv c "BAZEL_HOME")));
  destruct (bool_decide (1 < String.length (Getenv c "BAZEL_PATH")));
  destruct (bool_decide (1 < String.length (Getenv c "BAZEL_OUTPUT_BASE")));
  destruct (bool_decide (1 < String.length (Getenv c "BAZEL_WORKSPACE")));
  destruct (bool_decide (1 < String.length (Getenv c "BAZEL_METRICS_DIR")));
  reflexivity.
Qed.

(** C6 at a configuration where no setting is absent: every one of the
    five required settings is present, the home directory being "/", and
    the constructor still fails, reporting BAZEL_HOME as missing. *)
Theorem bazelPathsFromConfig_one_byte_setting :
  (∀ v, v ∈ requiredEnvVars → is_Some (env root_home_config !! v)) ∧
  Getenv root_home_config "BAZEL_HOME" = "/" ∧
  bazelPathsFromConfig root_home_config
  = inl "missing required env vars to use bazel: [BAZEL_HOME]" ∧
  NewBazelContext root_home_config
  = inl "missing required env vars to use bazel: [BAZEL_HOME]".
Proof.
  split; [|split; [|split]]; try (vm_compute; reflexivity).
  intros v Hv. unfold requiredEnvVars in Hv.
  repeat (apply elem_of_cons in Hv as [->|Hv]; [vm_compute; eauto|]).
  by apply elem_of_nil in Hv.
Qed.

(** ** The invocation driver *)

(** When the process fails, the built-in runner returns an error that
    carries the command line, the environment and the captured stderr. *)
Lemma builtin_issueBazelCommand_failure (ext : Externals) (os : OS)
    (r : builtinBazelRunner) (paths : bazelPaths) (runName : RunName)
    (cmd : bazelCommand) (extraFlags : list string)
    (output stderr : string) (e : error) :
  let bazelCmd := builtin_bazelCmd ext os paths runName cmd extraFlags in
  exec_Output os bazelCmd = (output, stderr, Some e) →
  builtin_issueBazelCommand ext os r paths runName cmd extraFlags
  = (r, ("", stderr,
         Some ("bazel command failed. command: [" +:+ Cmd_String bazelCmd
               +:+ "], env: [" +:+ fmt_strings (Env bazelCmd)
               +:+ "], error [" +:+ stderr +:+ "]"))).
Proof.
  intros bazelCmd H. unfold builtin_issueBazelCommand. fold bazelCmd.
  by rewrite H.
Qed.

(** C8 at a run where the query command fails: the runner returns a
    non-nil error for the cquery invocation, its assignment is overwritten
    by the result of writing cquery.out, and [InvokeBazel] returns nil. *)
Theorem InvokeBazel_swallows_cquery_error :
  let runner := builtin_issueBazelCommand sample_ext cquery_fails_os in
  (runner mkBuiltinBazelRunner sample_paths CqueryBuildRootRunName
          cquery_command
          ["--output=starlark";
           "--starlark:file=out/soong/bazel/buildroot.cquery"]).2.2
  = Some ("bazel command failed. command: [/usr/bin/bazel " +:+
          "--output_base=/out/bazel/output cquery " +:+
          "kind(rule, deps(//:buildroot)) " +:+
          "--package_path=%workspace%/out/soong/bazel " +:+
          "--profile=/out/metrics/bazel_profile " +:+
          "--platforms=@sourceroot//build/bazel/platforms:android_x86_64 " +:+
          "--extra_toolchains=@sourceroot//prebuilts/clang/host/linux-x86:all "
          +:+
          "--host_platform=@sourceroot//build/bazel/platforms:linux_x86_64 "
          +:+ "--experimental_repository_disable_download " +:+
          "--output=starlark " +:+
          "--starlark:file=out/soong/bazel/buildroot.cquery], env: [" +:+
          "[PATH=/usr/bin HOME=/home/bazel PWD=/proc/self/cwd " +:+
          "BAZEL_DO_NOT_DETECT_CPP_TOOLCHAIN=1]], " +:+
          "error [ERROR: Analysis failed]") ∧
  count_commands "cquery"
    (log (@InvokeBazel sample_ext cquery_fails_os _ runner
                       empty_schedule builtin_world).1) = 1 ∧
  (@InvokeBazel sample_ext cquery_fails_os _ runner
                empty_schedule builtin_world).2 = inr tt.
Proof. split; [|split]; vm_compute; reflexivity. Qed.

(** ** Sample runs *)

(** A run is determined by its final state and its result. *)
Lemma run_eta {S A} (x : S * (error + A)) (r : error + A) :
  x.2 = r → x = (x.1, r).
Proof. intros <-. by destruct x. Qed.

Lemma InvokeBazel_complete_witness :
  range_requests_results sample_schedule ≡ₚ
    elements (requests (ctx (sample_world foo_arm64_line {[foo_arm64]}))) ∧
  is_Some (results (ctx (InvokeBazel sample_ext sample_os sample_schedule
                           (sample_world foo_arm64_line {[foo_arm64]})).1)
           !! foo_arm64) ∧
  ∃ k' w',
    InvokeBazel sample_ext sample_os sample_schedule
                (sample_world "" {[foo_arm64]})
    = (w', inl (missingResultError k' "" "")).
Proof.
  assert (range_requests_results sample_schedule ≡ₚ
          elements ({[foo_arm64]} : gset cqueryKey)) as Hperm.
  { simpl. by rewrite elements_singleton. }
  split; [exact Hperm|]. split.
  - destruct (InvokeBazel_complete sample_ext sample_os sample_schedule
                (sample_world foo_arm64_line {[foo_arm64]}) Hperm) as [Ha _].
    apply Ha; [|by apply elem_of_singleton].
    apply run_eta. vm_compute. reflexivity.
  - destruct (InvokeBazel_complete sample_ext sample_os sample_schedule
                (sample_world "" {[foo_arm64]}) Hperm) as [_ Hb].
    destruct (Hb (InvokeBazel_query sample_ext sample_os sample_schedule
                    (sample_world "" {[foo_arm64]})).1 "" "")
      as (k' & w' & _ & _ & Hrun & _).
    + apply run_eta. vm_compute. reflexivity.
    + exists foo_arm64. split; [by apply elem_of_singleton|].
      vm_compute. reflexivity.
    + by exists k', w'.
Defined.

(** C5, as stated, fails: a statement with a non-empty command that
    follows a statement with an empty command gets no rule, because the
    splicer has panicked before reaching it. *)
Lemma GenerateBuildActions_splices_counterexample :
  let b := sample_context [unknown_statement; CppCompile_statement] in
  ¬ one_rule_per_statement sample_ext (OutputBase b)
      (BuildStatementsToRegister b)
      (registeredRules sample_ext sample_os b empty_singleton).
Proof.
  intros b Hclaim.
  destruct (Hclaim 1 CppCompile_statement eq_refl) as (j & Hj & _); [done|].
  assert (registeredRules sample_ext sample_os b empty_singleton = []) as Hr
    by (vm_compute; reflexivity).
  rewrite Hr in Hj. by rewrite lookup_nil in Hj.
Qed.

(** The scenario of the specification: one CppCompile statement, one
    rule. *)
Example GenerateBuildActions_scenario :
  registeredRules sample_ext sample_os (sample_context [CppCompile_statement])
                  empty_singleton
  = [mkBuildRule "bazel 0" "CppCompile"
       (mkRuleBuilder
          (mkRuleBuilderCommand
             "cd /out/bazel/output/execroot/__main__ && clang -c a.cc -o a.o"
             ["/out/bazel/output/execroot/__main__/a.o"]
             ["/out/bazel/output/execroot/__main__/a.cc"] [])
          true)].
Proof. vm_compute. reflexivity. Qed.

Lemma GenerateBuildActions_empty_command_witness :
  let b := sample_context [CppCompile_statement; unknown_statement] in
  ∃ offending s',
    GenerateBuildActions sample_ext sample_os b empty_singleton
    = (s', inl ("unhandled build statement: " +:+
                fmt_BuildStatement sample_ext offending)) ∧
    offending ∈ BuildStatementsToRegister b ∧
    Command offending = "" ∧
    rules s' = rules empty_singleton ++
               registeredRules sample_ext sample_os b empty_singleton ∧
    Forall (λ r, text (rb_command (rule_builder r)) ≠ "" ∧
                 ∃ bs, bs ∈ BuildStatementsToRegister b ∧
                       Command bs ≠ "" ∧
                       rule_builder r
                       = spliceRule sample_ext (OutputBase b) bs)
           (registeredRules sample_ext sample_os b empty_singleton).
Proof.
  intros b.
  apply (GenerateBuildActions_empty_command sample_ext sample_os b
           empty_singleton unknown_statement).
  - simpl. apply list_elem_of_further, list_elem_of_here.
  - reflexivity.
Defined.

(** C9, as stated, fails: an execution of [InvokeBazel] that stops at a
    request whose result is missing has issued the cquery command but no
    aquery command. *)
Lemma InvokeBazel_exactly_once_counterexample :
  ¬ exactly_once_each
      (log (InvokeBazel sample_ext sample_os sample_schedule
                        (sample_world "" {[foo_arm64]})).1).
Proof.
  intros [_ Haquery]. vm_compute in Haquery. discriminate Haquery.
Qed.

Lemma GenerateBuildActions_splices_witness :
  let b := sample_context [CppCompile_statement] in
  (GenerateBuildActions sample_ext sample_os b empty_singleton).2 = inr tt ∧
  length (registeredRules sample_ext sample_os b empty_singleton) = 1 ∧
  one_rule_per_statement sample_ext (OutputBase b)
    (BuildStatementsToRegister b)
    (registeredRules sample_ext sample_os b empty_singleton).
Proof.
  intros b.
  destruct (GenerateBuildActions_splices sample_ext sample_os b
              empty_singleton) as (_ & _ & _ & Hall).
  apply Hall. intros bs Hin. simpl in Hin.
  apply list_elem_of_singleton in Hin as ->. done.
Defined.

(** * Further properties of the handler *)

(** ** Labels and ids *)

(** X1: the canonical label is "@sourceroot//" followed by the label
    without its leading "//", if it has one; hence two labels get the same
    canonical label exactly when they agree up to a leading "//". *)
Theorem canonicalizeLabel_TrimPrefix (l1 l2 : string) :
  canonicalizeLabel l1 = "@sourceroot//" +:+ strings.TrimPrefix l1 "//" ∧
  (canonicalizeLabel l1 = canonicalizeLabel l2 ↔
   strings.TrimPrefix l1 "//" = strings.TrimPrefix l2 "//").
Proof.
  assert (∀ l, canonicalizeLabel l
               = "@sourceroot//" +:+ strings.TrimPrefix l "//") as Hcanon.
  { intros l. unfold canonicalizeLabel, strings.TrimPrefix.
    destruct (strings.HasPrefix l "//") eqn:Hp; [|done].
    apply HasPrefix_drop in Hp. by rewrite Hp at 1. }
  split; [done|]. rewrite !Hcanon. split; [|by intros ->].
  apply (inj (String.app "@sourceroot//")).
Qed.

(** ** The ledger across an invocation *)

Section LedgerFacts.
Context (ext : Externals) (os : OS).
Context {R : Type} `{!bazelRunner R}.

(** The results are emptied first, whatever happens next. *)
Lemma InvokeBazel_query_results (sch : Schedule) (w : world R) :
  results (ctx (InvokeBazel_query ext os sch w).1) = ∅ ∧
  buildStatements (ctx (InvokeBazel_query ext os sch w).1)
  = buildStatements (ctx w).
Proof.
  destruct w as [c l].
  unfold InvokeBazel_query, Stat_IsNotExist, Mkdir, WriteFile, issue,
    callRunner.
  run_monad.
  repeat match goal with
  | |- context [os_Stat_IsNotExist os ?p] =>
      destruct (os_Stat_IsNotExist os p); run_monad
  | |- context [ioutil_WriteFile os ?p ?d] =>
      destruct (ioutil_WriteFile os p d); run_monad
  | |- context [issueBazelCommand ?a ?b ?c ?d ?e] =>
      destruct (issueBazelCommand a b c d e) as [? [[? ?] ?]]; run_monad
  end.
  all: done.
Qed.

(** The loop over the requests gives results to visited keys only. *)
Lemma collectResults_keys (tbl : gmap string string) (out cerr : string)
    (order : list cqueryKey) (w : world R) (k : cqueryKey) :
  is_Some (results (ctx (collectResults tbl out cerr order w).1) !! k) →
  k ∈ order ∨ is_Some (results (ctx w) !! k).
Proof.
  revert w. induction order as [|val order IH]; intros w; simpl; [by right|].
  destruct (tbl !! getCqueryId val) as [v|]; [|by right].
  rewrite bind_run. run_monad. intros Hk. apply IH in Hk as [Hk|Hk].
  - left. by right.
  - simpl in Hk. destruct (decide (k = val)) as [->|Hne]; [left; by left|].
    rewrite lookup_insert_ne in Hk by done. by right.
Qed.

Lemma InvokeBazel_collect_keys (sch : Schedule) (out cerr : string)
    (w : world R) (k : cqueryKey) :
  is_Some (results (ctx (InvokeBazel_collect ext sch out cerr w).1) !! k) →
  k ∈ range_requests_results sch ∨ is_Some (results (ctx w) !! k).
Proof.
  unfold InvokeBazel_collect. rewrite bind_run.
  pose proof (collectResults_keys (parseCqueryOutput out) out cerr
                (range_requests_results sch) w k) as Hc.
  destruct (collectResults _ out cerr _ w) as [[c1 l1] [e|[]]]; [done|].
  simpl in Hc. unfold issue, callRunner. run_monad.
  repeat match goal with
  | |- context [issueBazelCommand ?a ?b ?c ?d ?e] =>
      destruct (issueBazelCommand a b c d e) as [? [[? ?] [?|]]]; run_monad
  | |- context [AqueryBuildStatements ext ?o] =>
      destruct (AqueryBuildStatements ext o) as [? [?|]]; run_monad
  end.
  all: done.
Qed.

(** X2: an execution of [InvokeBazel] that returns an error leaves the
    requests as they were, and one that returns nil clears them; in both
    cases a key has a result afterwards only if the loop over the requests
    has visited it, so that no result of an earlier cycle survives. *)
Theorem InvokeBazel_ledger (sch : Schedule) (w : world R) :
  let '(w', r) := InvokeBazel ext os sch w in
  requests (ctx w') = match r with
                      | inl _ => requests (ctx w)
                      | inr _ => ∅
                      end ∧
  ∀ k, is_Some (results (ctx w') !! k) → k ∈ range_requests_results sch.
Proof.
  unfold InvokeBazel. rewrite bind_run.
  pose proof (InvokeBazel_query_spec ext os sch w) as Hq.
  pose proof (InvokeBazel_query_results sch w) as [He _].
  destruct (InvokeBazel_query ext os sch w) as [w1 [e|[out cerr]]].
  - destruct Hq as (Hreq & _). split; [done|].
    intros k Hk. simpl in He. rewrite He, lookup_empty in Hk.
    by destruct Hk.
  - destruct Hq as (Hreq & _).
    pose proof (InvokeBazel_collect_spec ext sch out cerr w1) as Hs.
    pose proof (InvokeBazel_collect_keys sch out cerr w1) as Hk.
    simpl in Hs, He.
    destruct (InvokeBazel_collect ext sch out cerr w1) as [w' r].
    destruct Hs as (evs & _ & _ & _ & _ & Hr). split.
    + destruct r as [e|[]]; [destruct Hr as [-> _]|]; [done|].
      by destruct Hr as (_ & -> & _).
    + intros k Hin. apply Hk in Hin as [?|Hin]; [done|].
      rewrite He, lookup_empty in Hin. by destruct Hin.
Qed.

(** X3: two requests that differ in the request type only have the same
    cquery id; after an execution of [InvokeBazel] that returns nil they
    hold the same raw result. *)
Theorem request_types_share_result (sch : Schedule) (w w' : world R)
    (L : string) (rt1 rt2 : cqueryRequest) (a : ArchType) :
  mkCqueryKey L rt1 a ∈ range_requests_results sch →
  mkCqueryKey L rt2 a ∈ range_requests_results sch →
  InvokeBazel ext os sch w = (w', inr tt) →
  getCqueryId (mkCqueryKey L rt1 a) = getCqueryId (mkCqueryKey L rt2 a) ∧
  is_Some (results (ctx w') !! mkCqueryKey L rt1 a) ∧
  results (ctx w') !! mkCqueryKey L rt1 a
  = results (ctx w') !! mkCqueryKey L rt2 a.
Proof.
  intros H1 H2 Hrun. split; [done|]. unfold InvokeBazel in Hrun.
  apply bind_inv_ok in Hrun as (w1 & [out cerr] & Hq & Hc).
  pose proof (InvokeBazel_collect_spec ext sch out cerr w1) as Hs.
  simpl in Hs. rewrite Hc in Hs.
  destruct Hs as (evs & _ & _ & _ & _ & _ & _ & Hp & Hres).
  rewrite !Hres, !decide_True by done. split; [|done]. by apply Hp.
Qed.

(** X4: the error of [os.Mkdir] is assigned to a variable of the [if]
    statement and never read: an execution of [InvokeBazel] is the same
    whatever [os.Mkdir] returns. *)
Theorem InvokeBazel_ignores_Mkdir (mkdir : string → option error)
    (sch : Schedule) (w : world R) :
  InvokeBazel ext (with_Mkdir mkdir os) sch w = InvokeBazel ext os sch w.
Proof.
  assert (InvokeBazel_query ext (with_Mkdir mkdir os) sch w
          = InvokeBazel_query ext os sch w) as Hq.
  { destruct w as [c l].
    unfold InvokeBazel_query, Stat_IsNotExist, Mkdir, WriteFile, issue,
      callRunner.
    run_monad. destruct (os_Stat_IsNotExist os _); reflexivity. }
  unfold InvokeBazel. by rewrite !bind_run, Hq.
Qed.

End LedgerFacts.

(** ** Runs with the two runners of the sources *)

Section RunnerFacts.
Context (ext : Externals) (os : OS).

(** When every request has a payload, the loop over the requests
    completes. *)
Lemma collectResults_complete {R} (tbl : gmap string string)
    (out cerr : string) (order : list cqueryKey) (w : world R) :
  (∀ k, k ∈ order → is_Some (tbl !! getCqueryId k)) →
  ∃ w', collectResults tbl out cerr order w = (w', inr tt).
Proof.
  intros Hall.
  pose proof (collectResults_spec tbl out cerr order w) as Hs.
  destruct (collectResults tbl out cerr order w) as [w' [e|[]]];
    [|by exists w'].
  destruct Hs as (_ & _ & _ & _ & _ & k & Hk & Hn & _).
  apply Hall in Hk. rewrite Hn in Hk. by destruct Hk.
Qed.

(** X5: with the test double as runner, when every file write succeeds,
    every visited request has its id in the canned output of the query
    command and the canned output of the action dump parses,
    [InvokeBazel] returns nil; the double has then recorded the cquery,
    aquery and build commands, in this order, the requests are cleared,
    every visited request has its payload as result and the build
    statements are those parsed from the action dump. *)
Theorem InvokeBazel_mock_succeeds (sch : Schedule)
    (c : bazelContext mockBazelRunner) (l : list event) :
  let out := cannedResult (runner c) cquery_command in
  let aout := cannedResult (runner c) aquery_command in
  (∀ p d, ioutil_WriteFile os p d = None) →
  (∀ k, k ∈ range_requests_results sch →
        is_Some (parseCqueryOutput out !! getCqueryId k)) →
  (AqueryBuildStatements ext aout).2 = None →
  ∃ w',
    InvokeBazel ext os sch (mkWorld c l) = (w', inr tt) ∧
    commands (runner (ctx w'))
    = commands (runner c) ++ [cquery_command; aquery_command; build_command] ∧
    requests (ctx w') = ∅ ∧
    buildStatements (ctx w') = (AqueryBuildStatements ext aout).1 ∧
    ∀ k, k ∈ range_requests_results sch →
         results (ctx w') !! k = parseCqueryOutput out !! getCqueryId k.
Proof.
  intros out aout Hw Hall Haq.
  set (r1 := mkMockBazelRunner (bazelCommandResults (runner c))
               (commands (runner c) ++ [cquery_command])).
  assert (∃ l1, InvokeBazel_query ext os sch (mkWorld c l)
                = (mkWorld (set_runner r1 (set_results ∅ c)) l1,
                   inr (out, ""))) as [l1 Hq].
  { unfold InvokeBazel_query, Stat_IsNotExist, Mkdir, WriteFile, issue,
      callRunner.
    run_monad. rewrite ?Hw.
    destruct (os_Stat_IsNotExist os _); run_monad; rewrite ?Hw; run_monad;
      unfold issueBazelCommand, mockBazelRunner_issue; simpl;
      change (mkBazelCommand "cquery" _) with cquery_command;
      fold r1; unfold out, cannedResult;
      destruct (bazelCommandResults (runner c) !! cquery_command);
      simpl; rewrite ?Hw; eexists; reflexivity. }
  unfold InvokeBazel. rewrite (bind_ok _ _ _ _ _ Hq).
  unfold InvokeBazel_collect. rewrite bind_run.
  pose proof (collectResults_spec (parseCqueryOutput out) out ""
                (range_requests_results sch)
                (mkWorld (set_runner r1 (set_results ∅ c)) l1)) as Hs.
  destruct (collectResults_complete (parseCqueryOutput out) out ""
              (range_requests_results sch)
              (mkWorld (set_runner r1 (set_results ∅ c)) l1) Hall)
    as [[c2 l2] Hc].
  rewrite Hc in *. simpl in Hs.
  destruct Hs as (-> & Hreq & Hrun & Hpaths & Hbs & _ & Hres).
  unfold issue, callRunner. run_monad.
  unfold issueBazelCommand, mockBazelRunner_issue. simpl.
  change (mkBazelCommand "aquery" _) with aquery_command.
  rewrite Hrun. simpl.
  assert (AqueryBuildStatements ext aout
          = ((AqueryBuildStatements ext aout).1, None)) as Ha.
  { rewrite <- Haq. by destruct (AqueryBuildStatements ext aout). }
  unfold aout, cannedResult in Ha.
  destruct (bazelCommandResults (runner c) !! aquery_command) eqn:Haq';
    simpl in *; rewrite Ha; simpl;
    change (mkBazelCommand "build" _) with build_command;
    destruct (bazelCommandResults (runner c) !! build_command);
    simpl; eexists; (split; [reflexivity|]); simpl;
    rewrite <- ?app_assoc; (split; [done|]); (split; [done|]);
    (split; [by unfold aout, cannedResult; rewrite Haq'|]);
    intros k Hk; by rewrite Hres, decide_True.
Qed.

(** X6: with the built-in runner, when every file write succeeds, the
    process of the query command fails and the loop over the requests has
    a first request, [InvokeBazel] returns the missing-result error for
    that request, with an empty query output and the captured stderr of
    the process; the error of the runner itself is not returned. *)
Theorem InvokeBazel_builtin_cquery_failure (sch : Schedule)
    (c : bazelContext builtinBazelRunner) (l : list event)
    (k : cqueryKey) (rest : list cqueryKey)
    (output stderr : string) (e : error) :
  (∀ p d, ioutil_WriteFile os p d = None) →
  exec_Output os (builtin_bazelCmd ext os (paths c) CqueryBuildRootRunName
                    cquery_command (cqueryFlags ext (paths c)))
  = (output, stderr, Some e) →
  range_requests_results sch = k :: rest →
  ∃ w',
    @InvokeBazel ext os _ (builtin_issueBazelCommand ext os) sch (mkWorld c l)
    = (w', inl (missingResultError k "" stderr)) ∧
    requests (ctx w') = requests c ∧
    count_commands "aquery" (log w') = count_commands "aquery" l.
Proof.
  intros Hw Hexec Hord.
  assert (∃ l1, count_commands "aquery" l1 = count_commands "aquery" l ∧
                @InvokeBazel_query ext os _ (builtin_issueBazelCommand ext os)
                  sch (mkWorld c l)
                = (mkWorld (set_runner (runner c) (set_results ∅ c)) l1,
                   inr ("", stderr))) as (l1 & Hl1 & Hq).
  { unfold InvokeBazel_query, Stat_IsNotExist, Mkdir, WriteFile, issue,
      callRunner.
    run_monad. rewrite ?Hw.
    destruct (os_Stat_IsNotExist os _); run_monad; rewrite ?Hw; run_monad;
      unfold issueBazelCommand, builtin_issueBazelCommand; simpl;
      change (mkBazelCommand "cquery" _) with cquery_command;
      fold (cqueryFlags ext (paths c)); rewrite Hexec; simpl; rewrite ?Hw;
      eexists; (split; [|reflexivity]);
      unfold count_commands; rewrite !count_events_app; simpl; lia. }
  unfold InvokeBazel. rewrite (bind_ok _ _ _ _ _ Hq).
  unfold InvokeBazel_collect. rewrite bind_run, Hord. simpl.
  assert (parseCqueryOutput "" !! getCqueryId k = None) as ->.
  { assert (parseCqueryOutput "" = ∅) as -> by (vm_compute; reflexivity).
    apply lookup_empty. }
  run_monad. eexists. split; [reflexivity|]. simpl. by destruct c.
Qed.

End RunnerFacts.

(** ** The generated files *)

Lemma concat_empty_cons (x : string) (xs : list string) :
  String.concat "" (x :: xs) = x +:+ String.concat "" xs.
Proof. destruct xs; simpl; [by rewrite sapp_nil_r|done]. Qed.

(** A loop that files an item of every visited element under the key of
    the element groups the items by key, in visiting order. *)
Lemma group_fold_lookup {K A} `{Countable K} (key : A → K)
    (item : A → string) (order : list A) (x : K) :
  foldl (λ (m : gmap K (list string)) val,
           <[key val := default [] (m !! key val) ++ [item val]]> m)
        ∅ order !! x
  = match filter (λ v, key v = x) order with
    | [] => None
    | vs => Some (item <$> vs)
    end.
Proof.
  induction order as [|v order IH] using rev_ind; [done|].
  rewrite foldl_snoc, filter_app.
  destruct (decide (key v = x)) as [<-|Hne].
  - rewrite lookup_insert_eq, IH, filter_cons_True, filter_nil by done.
    destruct (filter (λ v0, key v0 = key v) order) as [|v1 vs]; simpl.
    + done.
    + by rewrite fmap_app.
  - rewrite lookup_insert_ne, IH, filter_cons_False, filter_nil by done.
    by rewrite app_nil_r.
Qed.

(** X7: in the root BUILD file, the dependencies of the [config_node] of
    an architecture string are the quoted canonical labels of the visited
    requests with that architecture string, one per request and in
    visiting order (a label requested under two request types is listed
    twice); the file holds one [config_node] per visited architecture
    string, in visiting order, and the build root depends on exactly
    these. *)
Theorem mainBuildFileContents_groups (requestsOrder : list cqueryKey)
    (archOrder : list string) (arch : string) :
  labelsByArch requestsOrder !! arch
  = match filter (λ k, getArchString k = arch) requestsOrder with
    | [] => None
    | ks => Some (quotedLabel <$> ks)
    end ∧
  mainBuildFileContents requestsOrder archOrder
  = mainBuildFile_formatString
      (String.concat "" (configNodeOf (labelsByArch requestsOrder)
                         <$> archOrder))
      (strings.Join (configNodeLabel <$> archOrder) depsSeparator).
Proof.
  split.
  - unfold labelsByArch.
    apply (group_fold_lookup getArchString quotedLabel).
  - unfold mainBuildFileContents, configNodes.
    set (byArch := labelsByArch requestsOrder).
    assert (∀ order ls sec,
              foldl (λ '(configNodeLabels, configNodesSection) archString,
                       (configNodeLabels ++ [configNodeLabel archString],
                        configNodesSection +:+ configNodeOf byArch archString))
                    (ls, sec) order
              = (ls ++ (configNodeLabel <$> order),
                 sec +:+ String.concat "" (configNodeOf byArch <$> order)))
      as Hfold.
    { clear. intros order. induction order as [|a order IH]; intros ls sec.
      - simpl. by rewrite app_nil_r, sapp_nil_r.
      - rewrite !fmap_cons, concat_empty_cons. simpl.
        by rewrite IH, <- app_assoc, sapp_assoc. }
    unfold configNodeLabel, configNodeOf, depsSeparator in Hfold.
    rewrite Hfold. reflexivity.
Qed.

(** X8: in the dispatch script, the map of a request type lists the
    quoted ids of the visited requests of that type, one per request and
    in visiting order, and the script holds one map, one function and one
    switch entry per visited request type, in visiting order. *)
Theorem cqueryStarlarkFileContents_groups (ext : Externals)
    (requestsOrder : list cqueryKey) (typeOrder : list cqueryRequest)
    (rt : cqueryRequest) :
  let entries := requestTypeToCqueryIdEntries ext requestsOrder in
  entries !! rt
  = match filter (λ k, requestType k = rt) requestsOrder with
    | [] => None
    | ks => Some (mapEntryOf ext <$> ks)
    end ∧
  cqueryStarlarkFileContents ext requestsOrder typeOrder
  = cqueryStarlarkFile_formatString
      (String.concat "" (mapDeclarationOf entries <$> typeOrder))
      (String.concat "" (functionDefOf <$> typeOrder))
      (String.concat "" (mainSwitchOf <$> typeOrder)).
Proof.
  intros entries. split.
  - unfold entries, requestTypeToCqueryIdEntries.
    apply (group_fold_lookup requestType (mapEntryOf ext)).
  - unfold cqueryStarlarkFileContents. fold entries.
    assert (∀ order maps defs switch,
              foldl (λ '(maps, defs, switch) requestType,
                       (maps +:+ mapDeclarationOf entries requestType,
                        defs +:+ functionDefOf requestType,
                        switch +:+ mainSwitchOf requestType))
                    (maps, defs, switch) order
              = (maps +:+ String.concat ""
                            (mapDeclarationOf entries <$> order),
                 defs +:+ String.concat "" (functionDefOf <$> order),
                 switch +:+ String.concat "" (mainSwitchOf <$> order)))
      as Hfold.
    { clear. intros order. induction order as [|a order IH];
        intros maps defs switch.
      - simpl. by rewrite !sapp_nil_r.
      - rewrite !fmap_cons, !concat_empty_cons. simpl.
        by rewrite IH, !sapp_assoc. }
    unfold mapDeclarationOf, functionDefOf, mainSwitchOf in Hfold.
    rewrite Hfold. reflexivity.
Qed.

(** ** Lines *)

Lemma occurs_nil_l (sep s : string) : ¬ occurs sep s → strings.Cut s sep = None.
Proof.
  intros Hn. destruct (strings.Cut s sep) as [[a b]|] eqn:Hc; [|done].
  apply Cut_Some in Hc as [-> _]. destruct Hn. by exists a, b.
Qed.

(** A line that does not hold the one-byte separator is what precedes
    the first separator after it. *)
Lemma Cut_line (c : ascii) (l rest : string) :
  ¬ occurs (String c "") l →
  strings.Cut (l +:+ String c "" +:+ rest) (String c "") = Some (l, rest).
Proof.
  induction l as [|d l IH]; intros Hn.
  - rewrite sapp_nil_l. change (String c "" +:+ rest) with (String c rest).
    simpl. assert (strings.HasPrefix (String c rest) (String c "") = true)
      as -> by (apply HasPrefix_spec; by exists rest).
    by destruct rest.
  - rewrite sapp_cons. simpl.
    assert (strings.HasPrefix (String d (l +:+ String c "" +:+ rest))
              (String c "") = false) as ->.
    { destruct (strings.HasPrefix _ (String c "")) eqn:Hp; [|done].
      apply HasPrefix_spec in Hp as [t Ht]. injection Ht as -> _.
      destruct Hn. by exists "", l. }
    rewrite IH; [done|]. intros (a & b & ->). apply Hn.
    exists (String d a), b. by rewrite sapp_cons.
Qed.

Lemma SplitN_fuel (sep : string) (n m : nat) (s : string) :
  0 < String.length sep →
  String.length s < n → String.length s < m →
  strings.SplitN s sep n = strings.SplitN s sep m.
Proof.
  intros Hsep. revert s m. induction n as [|n IH]; intros s m Hn Hm; [lia|].
  destruct m as [|m]; [lia|].
  assert (String.length s = 0 → strings.Cut s sep = None) as Hempty.
  { destruct s; [|done]. intros _. apply occurs_nil_l.
    intros ([|??] & b & Heq); [|done].
    destruct sep; [simpl in Hsep; lia|done]. }
  destruct n as [|n], m as [|m]; simpl.
  - done.
  - by rewrite Hempty by lia.
  - by rewrite Hempty by lia.
  - destruct (strings.Cut s sep) as [[a b]|] eqn:Hc; [|done].
    apply Cut_length in Hc. f_equal.
    exact (IH b (S m) ltac:(lia) ltac:(lia)).
Qed.

Lemma Split_unfold (s sep : string) :
  0 < String.length sep →
  strings.Split s sep
  = match strings.Cut s sep with
    | Some (a, b) => a :: strings.Split b sep
    | None => [s]
    end.
Proof.
  intros Hsep. unfold strings.Split.
  destruct (strings.Cut s sep) as [[a b]|] eqn:Hc.
  - pose proof (Cut_length _ _ _ _ Hc) as Hl.
    destruct (String.length s) as [|n] eqn:Hs; [lia|].
    change (strings.SplitN s sep (S (S n)))
      with (match strings.Cut s sep with
            | Some (before, after) => before :: strings.SplitN after sep (S n)
            | None => [s]
            end).
    rewrite Hc. f_equal. apply SplitN_fuel; lia.
  - destruct (String.length s); simpl; [done|by rewrite Hc].
Qed.

(** Splitting on a one-byte separator distributes over joining two
    strings with the separator. *)
Lemma Split_app (c : ascii) (a b : string) :
  strings.Split (a +:+ String c "" +:+ b) (String c "")
  = strings.Split a (String c "") ++ strings.Split b (String c "").
Proof.
  remember (String.length a) as n eqn:Hn. revert a Hn.
  induction n as [n IH] using lt_wf_ind. intros a ->.
  rewrite (Split_unfold a) by (simpl; lia).
  rewrite (Split_unfold (a +:+ _)) by (simpl; lia).
  destruct (strings.Cut a (String c "")) as [[x y]|] eqn:Hc.
  - pose proof (Cut_length _ _ _ _ Hc) as Hl.
    assert (¬ occurs (String c "") x) as Hx
      by (eapply Cut_before; [|exact Hc]; simpl; lia).
    apply Cut_Some in Hc as [-> _]. rewrite !sapp_assoc.
    rewrite (Cut_line c x) by done. simpl. f_equal.
    eapply IH; [|reflexivity]. rewrite !slength_app in *. simpl. lia.
  - apply Cut_None in Hc. by rewrite Cut_line.
Qed.

Lemma Split_line (c : ascii) (l : string) :
  ¬ occurs (String c "") l → strings.Split l (String c "") = [l].
Proof.
  intros Hn. rewrite Split_unfold by (simpl; lia).
  by rewrite occurs_nil_l.
Qed.

Lemma Split_app_nl (a b : string) :
  strings.Split (a +:+ nl +:+ b) nl = strings.Split a nl ++ strings.Split b nl.
Proof. apply Split_app. Qed.

Lemma Split_line_nl (l : string) :
  ¬ occurs nl l → strings.Split l nl = [l].
Proof. apply Split_line. Qed.

Lemma occurs_nl_cons (c : ascii) (s : string) :
  c ≠ "010"%char → occurs nl (String c s) → occurs nl s.
Proof.
  intros Hc ([|d a] & b & Heq).
  - injection Heq as -> _. done.
  - rewrite sapp_cons in Heq. injection Heq as _ ->. by exists a, b.
Qed.

(** X9: [indent] puts two spaces before every line of its argument and
    a newline after it: the lines of the result are the lines of the
    argument, each with two spaces before it, followed by an empty last
    line. *)
Theorem indent_lines (original : string) :
  indent original
  = String.concat "" ((λ line, "  " +:+ line +:+ nl)
                      <$> strings.Split original nl) ∧
  strings.Split (indent original) nl
  = (String.append "  " <$> strings.Split original nl) ++ [""].
Proof.
  assert (∀ lines acc,
            foldl (λ result line, result +:+ "  " +:+ line +:+ nl) acc lines
            = acc +:+ String.concat ""
                        ((λ line, "  " +:+ line +:+ nl) <$> lines)) as Hfold.
  { intros lines. induction lines as [|x lines IH]; intros acc.
    - simpl. by rewrite sapp_nil_r.
    - rewrite fmap_cons, concat_empty_cons. simpl.
      by rewrite IH, !sapp_assoc. }
  assert (indent original
          = String.concat "" ((λ line, "  " +:+ line +:+ nl)
                              <$> strings.Split original nl)) as Hind.
  { unfold indent. by rewrite Hfold, sapp_nil_l. }
  split; [done|]. rewrite Hind. clear Hind.
  destruct (SplitN_spec nl (S (String.length original)) original)
    as (_ & Hlines & _); [simpl; lia|lia|].
  fold (strings.Split original nl) in Hlines.
  induction Hlines as [|x lines Hx _ IH]; [done|].
  rewrite !fmap_cons, concat_empty_cons.
  replace (("  " +:+ x +:+ nl) +:+
           String.concat "" ((λ line, "  " +:+ line +:+ nl) <$> lines))
    with (("  " +:+ x) +:+ nl +:+
          String.concat "" ((λ line, "  " +:+ line +:+ nl) <$> lines))
    by (by rewrite !sapp_assoc).
  rewrite Split_app_nl. rewrite IH. rewrite Split_line_nl; [done|].
  intros Hocc. apply Hx.
  apply occurs_nl_cons in Hocc; [|done].
  by apply occurs_nl_cons in Hocc.
Qed.

(** X10: the query-result pass reads its input line by line, a later
    line overriding an earlier one with the same id: appending a newline
    and a line without newline to the output stores the payload of the
    line under its id, or changes nothing when the line holds no
    separator. *)
Theorem parseCqueryOutput_snoc (cqueryOutput line : string) :
  ¬ occurs nl line →
  parseCqueryOutput (cqueryOutput +:+ nl +:+ line)
  = match strings.Cut line ">>" with
    | Some (id, payload) => <[id := payload]> (parseCqueryOutput cqueryOutput)
    | None => parseCqueryOutput cqueryOutput
    end.
Proof.
  intros Hline. unfold parseCqueryOutput.
  rewrite Split_app_nl, (Split_line_nl line) by done.
  rewrite foldl_snoc, Contains_Cut, SplitN_2_Cut.
  destruct (strings.Cut line ">>") as [[id payload]|].
  - by rewrite bool_decide_true.
  - rewrite bool_decide_false; [done|]. by intros [??].
Qed.

(** ** Architecture tagging: the entries *)








Section TaggingFacts.
Context (ext : Externals) (os : OS).
Context {R : Type} `{!bazelRunner R}.


End TaggingFacts.


(** ** Requests across the two passes *)

Section SettlingFacts.
Context (ext : Externals) (os : OS).
Context {R : Type} `{!bazelRunner R}.

(** What a nil return of [InvokeBazel] leaves in the ledger. *)
Lemma InvokeBazel_success (sch : Schedule) (w w' : world R) :
  InvokeBazel ext os sch w = (w', inr tt) →
  requests (ctx w') = ∅ ∧
  ∃ w1 out cerr,
    InvokeBazel_query ext os sch w = (w1, inr (out, cerr)) ∧
    (∀ k, k ∈ range_requests_results sch →
          is_Some (parseCqueryOutput out !! getCqueryId k)) ∧
    ∀ k, results (ctx w') !! k
         = if decide (k ∈ range_requests_results sch)
           then parseCqueryOutput out !! getCqueryId k else None.
Proof.
  intros Hrun. unfold InvokeBazel in Hrun.
  apply bind_inv_ok in Hrun as (w1 & [out cerr] & Hq & Hc).
  pose proof (InvokeBazel_query_results ext os sch w) as [He _].
  rewrite Hq in He. simpl in He.
  pose proof (InvokeBazel_collect_spec ext sch out cerr w1) as Hs.
  simpl in Hs. rewrite Hc in Hs.
  destruct Hs as (evs & _ & _ & _ & _ & _ & Hreq & Hp & Hres).
  split; [done|]. exists w1, out, cerr. split; [done|]. split; [done|].
  intros k. rewrite Hres, He, lookup_empty. done.
Qed.

Lemma cquery_key_eta (k : cqueryKey) :
  mkCqueryKey (label k) (requestType k) (archType k) = k.
Proof. by destruct k. Qed.

(** A sequence of [cquery] calls queues the keys that have no result and
    touches nothing else of the context. *)
Lemma cquery_fold_ctx (reqs : list cqueryKey) (w : world R) :
  let w' := foldl (λ w k, (cquery (label k) (requestType k) (archType k) w).1)
                  w reqs in
  results (ctx w') = results (ctx w) ∧
  (∀ k, k ∈ requests (ctx w') ↔
        k ∈ requests (ctx w) ∨ (k ∈ reqs ∧ results (ctx w) !! k = None)).
Proof.
  revert w. induction reqs as [|k0 reqs IH]; intros w; simpl.
  - split; [done|]. intros k. rewrite elem_of_nil. naive_solver.
  - destruct (IH (cquery (label k0) (requestType k0) (archType k0) w).1)
      as [IH1 IH2].
    rewrite cquery_results in IH1, IH2. split; [done|].
    intros k. rewrite IH2, elem_of_cons.
    destruct (results (ctx w) !! mkCqueryKey (label k0) (requestType k0)
                                             (archType k0)) as [v|] eqn:H0.
    + rewrite (cquery_hit _ _ _ _ _ H0). rewrite cquery_key_eta in H0.
      split; [naive_solver|].
      intros [?|[[->|?] Hn]]; [by left|congruence|by right].
    + rewrite (cquery_miss _ _ _ _ H0). rewrite cquery_key_eta in H0.
      simpl. rewrite cquery_key_eta, elem_of_union, elem_of_singleton.
      split; [|naive_solver].
      intros [[->|?]|[? ?]]; [right|by left|right]; naive_solver.
Qed.

Lemma analysisPass_run (reqs : list cqueryKey) (w : world R) :
  analysisPass reqs w
  = (foldl (λ w k, (cquery (label k) (requestType k) (archType k) w).1)
           (mkWorld (ctx w) (log w ++ [EvAnalysisPass])) reqs,
     inr tt).
Proof.
  unfold analysisPass. rewrite bind_run. unfold emit at 1, modify at 1.
  generalize (mkWorld (ctx w) (log w ++ [EvAnalysisPass])). clear w.
  assert (∀ (m : M (world R) unit) (g : world R → world R) w0,
            (∀ w, m w = (g w, inr tt)) →
            foldl (λ acc k,
                     acc;; _ ← cquery (label k) (requestType k) (archType k);
                     mret tt) m reqs w0
            = (foldl (λ w k,
                        (cquery (label k) (requestType k) (archType k) w).1)
                     (g w0) reqs, inr tt)) as Hgen.
  { induction reqs as [|k reqs IH]; intros m g w0 Hm; simpl; [done|].
    rewrite (IH _ (λ w, (cquery (label k) (requestType k) (archType k)
                                (g w)).1)); [done|].
    intros w. rewrite (bind_ok _ _ _ _ _ (Hm w)).
    destruct (cquery_quiet (label k) (requestType k) (archType k) (g w))
      as (w2 & v & evs & Hc & _).
    rewrite (bind_ok _ _ _ _ _ Hc), Hc. done. }
  intros w0. by rewrite (Hgen _ id).
Qed.

(** X11: a request that finds no result is queued, and after an
    execution of [InvokeBazel] that returns nil the same request finds
    the payload of its own id in the query output. *)
Theorem cquery_InvokeBazel_round_trip (sch : Schedule) (w wq w2 : world R)
    (L : string) (rt : cqueryRequest) (a : ArchType) (out cerr : string) :
  results (ctx w) !! mkCqueryKey L rt a = None →
  range_requests_results sch
    ≡ₚ elements (requests (ctx (cquery L rt a w).1)) →
  InvokeBazel_query ext os sch (cquery L rt a w).1 = (wq, inr (out, cerr)) →
  InvokeBazel ext os sch (cquery L rt a w).1 = (w2, inr tt) →
  (cquery L rt a w).2 = inr ("", false) ∧
  ∃ v, parseCqueryOutput out !! getCqueryId (mkCqueryKey L rt a) = Some v ∧
       cquery L rt a w2 = (w2, inr (v, true)).
Proof.
  intros Hmiss Hperm Hq Hrun.
  assert (mkCqueryKey L rt a ∈ range_requests_results sch) as Hin.
  { rewrite Hperm. apply elem_of_elements.
    rewrite (cquery_miss _ _ _ _ Hmiss). simpl.
    apply elem_of_union. left. by apply elem_of_singleton. }
  split; [by rewrite (cquery_miss _ _ _ _ Hmiss)|].
  apply InvokeBazel_success in Hrun
    as (_ & w1' & out' & cerr' & Hq' & Hp & Hres).
  rewrite Hq in Hq'. injection Hq' as <- <- <-.
  destruct (Hp _ Hin) as [v Hv]. exists v. split; [done|].
  apply cquery_hit. by rewrite Hres, decide_True.
Qed.

(** X12: when a run of [runMixedModeBuild] completes, the keys that have
    a result are the keys that were queued when [InvokeBazel] was called,
    and the keys left queued are the requests of the second pass that
    were not queued then; so nothing is left queued when the second pass
    repeats requests of the first. *)
Theorem runMixedModeBuild_settles (firstPass secondPass : list cqueryKey)
    (sch : Schedule) (w w' : world R) :
  let w1 := (analysisPass firstPass w).1 in
  range_requests_results sch ≡ₚ elements (requests (ctx w1)) →
  runMixedModeBuild ext os firstPass secondPass sch w = (w', inr tt) →
  (∀ k, is_Some (results (ctx w') !! k) ↔ k ∈ requests (ctx w1)) ∧
  (∀ k, k ∈ requests (ctx w') ↔ k ∈ secondPass ∧ k ∉ requests (ctx w1)) ∧
  ((∀ k, k ∈ secondPass → k ∈ requests (ctx w1)) → requests (ctx w') = ∅).
Proof.
  intros w1 Hperm Hrun. unfold runMixedModeBuild in Hrun.
  apply bind_inv_ok in Hrun as (w1' & [] & Hp1 & Hrun).
  assert (w1' = w1) as -> by (unfold w1; by rewrite Hp1).
  apply bind_inv_ok in Hrun as (w1e & [] & Hemit & Hrun).
  unfold emit, modify in Hemit. injection Hemit as <-.
  apply bind_inv_ok in Hrun as (w2 & [] & Hinv & Hrun).
  apply bind_inv_ok in Hrun as (w2' & [] & Hcfg & Hp2).
  assert (w2' = w2) as ->.
  { destruct (ConfigForAdditionalRun os); simpl in Hcfg; [done|].
    by injection Hcfg as ->. }
  apply InvokeBazel_success in Hinv
    as (Hreq2 & _ & out & _ & _ & Hpres & Hres).
  assert (∀ k, k ∈ range_requests_results sch ↔ k ∈ requests (ctx w1))
    as Hin.
  { intros k. rewrite Hperm. apply elem_of_elements. }
  assert (∀ k, is_Some (results (ctx w2) !! k) ↔ k ∈ requests (ctx w1))
    as Hdom.
  { intros k. rewrite Hres, <- Hin.
    destruct (decide (k ∈ range_requests_results sch)) as [Hk|Hk].
    - split; [done|]. intros _. by apply Hpres.
    - split; [by intros [??]|done]. }
  rewrite analysisPass_run in Hp2. injection Hp2 as <-.
  destruct (cquery_fold_ctx secondPass
              (mkWorld (ctx w2) (log w2 ++ [EvAnalysisPass])))
    as [Hr Hq].
  simpl in Hr, Hq.
  assert (∀ k, k ∈ requests (ctx (foldl
                 (λ w k, (cquery (label k) (requestType k) (archType k) w).1)
                 (mkWorld (ctx w2) (log w2 ++ [EvAnalysisPass])) secondPass))
               ↔ k ∈ secondPass ∧ k ∉ requests (ctx w1)) as Hleft.
  { intros k. rewrite Hq, Hreq2, <- Hdom, elem_of_empty.
    rewrite <- eq_None_not_Some. naive_solver. }
  split; [by intros k; rewrite Hr|]. split; [done|].
  intros Hsub. apply set_eq. intros k. rewrite Hleft, elem_of_empty.
  naive_solver.
Qed.

End SettlingFacts.

(** ** Building the context *)

(** X13: the context that [NewBazelContext] builds is enabled exactly
    when USE_BAZEL_ANALYSIS reads "1"; an enabled one starts with no
    requests, no results and no build statements, has the setting
    BAZEL_OUTPUT_BASE as its output base and the build directory of the
    configuration, and every required setting has at least two bytes.
    The constructor fails only when USE_BAZEL_ANALYSIS reads "1" and some
    required setting has at most one byte; any other value of
    USE_BAZEL_ANALYSIS gives the disabled context whatever the other
    settings are. *)
Theorem NewBazelContext_enabled (c : config) :
  match NewBazelContext c with
  | inr b =>
      (BazelEnabled b = true ↔ Getenv c "USE_BAZEL_ANALYSIS" = "1") ∧
      BuildStatementsToRegister b = [] ∧
      (BazelEnabled b = false → b = noopBazelContext) ∧
      (BazelEnabled b = true →
       ∃ bc, b = realBazelContext bc ∧
             requests bc = ∅ ∧ results bc = ∅ ∧
             OutputBase b = Getenv c "BAZEL_OUTPUT_BASE" ∧
             buildDir (paths bc) = config_buildDir c ∧
             ∀ v, v ∈ requiredEnvVars → 1 < String.length (Getenv c v))
  | inl e =>
      Getenv c "USE_BAZEL_ANALYSIS" = "1" ∧
      e = "missing required env vars to use bazel: " +:+
          fmt_strings (reportedEnvVars c) ∧
      ∃ v, v ∈ requiredEnvVars ∧ String.length (Getenv c v) ≤ 1
  end.
Proof.
  unfold NewBazelContext. case_bool_decide as Huse.
  - simpl. split; [split; [done|congruence]|]. split; [done|].
    split; [done|]. done.
  - rewrite bazelPathsFromConfig_spec.
    destruct (reportedEnvVars c) as [|v0 missing] eqn:Hrep.
    + simpl. split; [done|]. split; [done|]. split; [done|].
      intros _. eexists. split; [reflexivity|]. simpl.
      split; [done|]. split; [done|]. split; [done|]. split; [done|].
      intros v Hv. destruct (decide (1 < String.length (Getenv c v)));
        [done|].
      assert (v ∈ reportedEnvVars c) as Hin; [|rewrite Hrep in Hin;
        by apply elem_of_nil in Hin].
      unfold reportedEnvVars. apply list_elem_of_In, filter_In.
      split; [by apply list_elem_of_In|]. by rewrite bool_decide_false.
    + split; [done|]. split; [done|]. exists v0.
      assert (v0 ∈ reportedEnvVars c) as Hin by (rewrite Hrep; by left).
      unfold reportedEnvVars in Hin.
      apply list_elem_of_In, filter_In in Hin as [Hin Hlen].
      split; [by apply list_elem_of_In|].
      apply negb_true_iff, bool_decide_eq_false in Hlen. lia.
Qed.

(** ** What the splicer reads *)

Lemma foldl_AddNinjaFileDeps_run (files : list string)
    (m : M SingletonContext unit) (s s1 : SingletonContext) :
  m s = (s1, inr tt) →
  foldl (λ acc file, acc;; AddNinjaFileDeps [file]) m files s
  = (mkSingletonContext (ninjaFileDeps s1 ++ files) (errors s1) (rules s1),
     inr tt).
Proof.
  revert m s1. induction files as [|f files IH]; intros m s1 Hm; simpl.
  - rewrite Hm, app_nil_r. by destruct s1.
  - erewrite IH; [|by rewrite (bind_ok _ _ _ _ _ Hm)]. simpl.
    by rewrite <- app_assoc.
Qed.

Lemma Split_nonempty (s sep : string) : strings.Split s sep ≠ [].
Proof.
  unfold strings.Split. generalize (String.length s). intros n.
  destruct n as [|n]; simpl; [done|].
  destruct (strings.Cut s sep) as [[??]|]; done.
Qed.

(** X14: a disabled context makes [GenerateBuildActions] return without
    touching the singleton context.  An enabled one adds to the ninja file
    dependencies the path of bazel.list followed by every line of the
    trimmed contents of that file, in order, whatever the statements are
    and whether or not the registration panics; a failure to read the file
    is recorded as one error and does not stop the run, and as the split
    of a text is never empty at least one line is added: the empty path
    when nothing was read. *)
Theorem GenerateBuildActions_ninja_deps {R : Type} (ext : Externals)
    (os : OS) (b : BazelContext R) (s : SingletonContext) :
  let bazelBuildList :=
    absolutePath ext
      (filepath_Join ext (filepath_Dir ext (ModuleListFile ext))
                     "bazel.list") in
  let data := (ioutil_ReadFile os bazelBuildList).1 in
  let err := (ioutil_ReadFile os bazelBuildList).2 in
  let s' := (GenerateBuildActions ext os b s).1 in
  (BazelEnabled b = false →
   GenerateBuildActions ext os b s = (s, inr tt)) ∧
  (BazelEnabled b = true →
   ninjaFileDeps s'
   = ninjaFileDeps s ++
     bazelBuildList :: strings.Split (strings_TrimSpace ext data) nl ∧
   errors s' = errors s ++ match err with Some e => [e] | None => [] end ∧
   length (ninjaFileDeps s) + 2 ≤ length (ninjaFileDeps s') ∧
   (strings_TrimSpace ext data = "" →
    ninjaFileDeps s' = ninjaFileDeps s ++ [bazelBuildList; ""])).
Proof.
  intros bazelBuildList data err s'. split; intros Hen.
  - unfold GenerateBuildActions. by rewrite Hen.
  - assert (∃ rs r,
              GenerateBuildActions ext os b s
              = (mkSingletonContext
                   (ninjaFileDeps s ++
                    bazelBuildList ::
                    strings.Split (strings_TrimSpace ext data) nl)
                   (errors s ++
                    match err with Some e => [e] | None => [] end) rs, r))
      as (rs & r & Hrun).
    { unfold GenerateBuildActions. rewrite Hen. simpl.
      rewrite bind_run. unfold AddNinjaFileDeps at 1. unfold modify at 1.
      fold bazelBuildList. unfold err, data.
      destruct (ioutil_ReadFile os bazelBuildList) as [data0 err0].
      rewrite bind_run. simpl.
      destruct err0 as [e|]; unfold Errorf, modify, mret, M_ret;
        rewrite bind_run;
        (erewrite foldl_AddNinjaFileDeps_run; [|reflexivity]);
        rewrite registerBuildStatements_spec; simpl;
        rewrite <- ?app_assoc; simpl; rewrite ?app_nil_r;
        eexists _, _; reflexivity. }
    assert (ninjaFileDeps s'
            = ninjaFileDeps s ++
              bazelBuildList ::
              strings.Split (strings_TrimSpace ext data) nl ∧
            errors s'
            = errors s ++ match err with Some e => [e] | None => [] end)
      as [Hd He].
    { unfold s'. by rewrite Hrun. }
    split; [done|]. split; [done|]. split.
    + rewrite Hd, length_app. simpl.
      pose proof (Split_nonempty (strings_TrimSpace ext data) nl) as Hne.
      destruct (strings.Split (strings_TrimSpace ext data) nl);
        [done|simpl; lia].
    + intros Hempty. by rewrite Hd, Hempty.
Qed.

(** * Properties of the labels and attributes *)

(** ** The order of strings *)

Lemma ascii_compare_refl (c : ascii) : Ascii.compare c c = Eq.
Proof. unfold Ascii.compare. apply N.compare_refl. Qed.

Lemma string_compare_refl (s : string) : String.compare s s = Eq.
Proof. induction s as [|c s IH]; simpl; [done|]. by rewrite ascii_compare_refl. Qed.

Lemma string_compare_lt_trans (a b d : string) :
  String.compare a b = Lt → String.compare b d = Lt →
  String.compare a d = Lt.
Proof.
  revert b d. induction a as [|x a IH]; intros [|y b] [|z d]; simpl;
    try done.
  destruct (Ascii.compare x y) eqn:Hxy; try done;
    destruct (Ascii.compare y z) eqn:Hyz; try done.
  - apply Ascii.compare_eq_iff in Hxy as ->.
    apply Ascii.compare_eq_iff in Hyz as ->.
    rewrite ascii_compare_refl. apply IH.
  - apply Ascii.compare_eq_iff in Hxy as ->. by rewrite Hyz.
  - apply Ascii.compare_eq_iff in Hyz as ->. by rewrite Hxy.
  - intros _ _. unfold Ascii.compare in *.
    apply N.compare_lt_iff in Hxy, Hyz.
    assert ((N_of_ascii x ?= N_of_ascii z)%N = Lt) as ->; [|done].
    apply N.compare_lt_iff. by etrans.
Qed.

Lemma ltb_irrefl (a : string) : String.ltb a a = false.
Proof. unfold String.ltb. by rewrite string_compare_refl. Qed.

Lemma ltb_asym (a b : string) : String.ltb a b = true → String.ltb b a = false.
Proof.
  unfold String.ltb. rewrite (String.compare_antisym a b).
  by destruct (String.compare b a).
Qed.

(** [String.ltb b a = false] reads [a ≤ b]. *)
Lemma leb_trans (a b d : string) :
  String.ltb b a = false → String.ltb d b = false → String.ltb d a = false.
Proof.
  unfold String.ltb. intros Hba Hdb.
  destruct (String.compare d b) eqn:H1; [|done|].
  - apply String.compare_eq_iff in H1 as ->. done.
  - destruct (String.compare b a) eqn:H2; [|done|].
    + apply String.compare_eq_iff in H2 as ->. by rewrite H1.
    + rewrite (String.compare_antisym d a).
      rewrite (String.compare_antisym d b) in H1.
      rewrite (String.compare_antisym b a) in H2.
      destruct (String.compare a b) eqn:H3; try done.
      destruct (String.compare b d) eqn:H4; try done.
      by rewrite (string_compare_lt_trans _ _ _ H3 H4).
Qed.

Lemma leb_antisym (a b : string) :
  String.ltb b a = false → String.ltb a b = false → a = b.
Proof.
  unfold String.ltb. rewrite (String.compare_antisym a b).
  destruct (String.compare b a) eqn:H; try done.
  intros _ _. symmetry. by apply String.compare_eq_iff.
Qed.

Lemma leb_neq_ltb (a b : string) :
  String.ltb b a = false → a ≠ b → String.ltb a b = true.
Proof.
  intros Hle Hne. destruct (String.ltb a b) eqn:Hlt; [done|].
  destruct Hne. by apply leb_antisym.
Qed.

(** ** The stable sort *)

Section SortFacts.
Context {A : Type} (less : A → A → bool).

Lemma insertStable_Permutation (x : A) (l : list A) :
  sort.insertStable less x l ≡ₚ x :: l.
Proof.
  induction l as [|y l IH]; simpl; [done|].
  destruct (less y x); [|done]. rewrite IH. apply Permutation_swap.
Qed.

Lemma SliceStable_Permutation (l : list A) : sort.SliceStable less l ≡ₚ l.
Proof.
  induction l as [|x l IH]; simpl; [done|].
  rewrite insertStable_Permutation. by constructor.
Qed.

(** A list in which no element is less than an earlier one is left as it
    is: the sort moves no element over one it is not less than. *)
Lemma SliceStable_sorted_id (l : list A) :
  StronglySorted (λ a b, less b a = false) l → sort.SliceStable less l = l.
Proof.
  induction 1 as [|x l Hs IH Hx]; simpl; [done|].
  rewrite IH. destruct l as [|y l]; simpl; [done|].
  apply Forall_cons in Hx as [Hy _]. by rewrite Hy.
Qed.

Hypothesis less_asym : ∀ a b, less a b = true → less b a = false.
Hypothesis less_ntrans :
  ∀ a b d, less b a = false → less d b = false → less d a = false.

Lemma insertStable_sorted (x : A) (l : list A) :
  StronglySorted (λ a b, less b a = false) l →
  StronglySorted (λ a b, less b a = false) (sort.insertStable less x l).
Proof.
  induction 1 as [|y l Hs IH Hy]; simpl.
  - repeat constructor.
  - destruct (less y x) eqn:Hyx.
    + constructor; [done|].
      rewrite (insertStable_Permutation x l). constructor; [|done].
      by apply less_asym.
    + constructor; [by constructor|]. constructor; [done|].
      eapply Forall_impl; [exact Hy|]. simpl. intros z Hz.
      by eapply less_ntrans.
Qed.

Lemma SliceStable_sorted (l : list A) :
  StronglySorted (λ a b, less b a = false) (sort.SliceStable less l).
Proof.
  induction l as [|x l IH]; simpl; [constructor|].
  by apply insertStable_sorted.
Qed.

End SortFacts.

Lemma foldl_append_each {A} (l acc : list A) :
  foldl (λ acc x, acc ++ [x]) acc l = acc ++ l.
Proof.
  revert acc. induction l as [|x l IH]; intros acc; simpl.
  - by rewrite app_nil_r.
  - by rewrite IH, <- app_assoc.
Qed.

Lemma foldl_set_insert `{Countable K} (l : list K) (m : gset K) (x : K) :
  x ∈ foldl (λ m k, {[k]} ∪ m) m l ↔ x ∈ l ∨ x ∈ m.
Proof.
  revert m. induction l as [|k l IH]; intros m; simpl.
  - rewrite elem_of_nil. naive_solver.
  - rewrite IH, elem_of_cons, elem_of_union, elem_of_singleton.
    naive_solver.
Qed.

Lemma foldl_set_delete `{Countable K} (l : list K) (m : gset K) (x : K) :
  x ∈ foldl (λ m k, m ∖ {[k]}) m l ↔ x ∈ m ∧ x ∉ l.
Proof.
  revert m. induction l as [|k l IH]; intros m; simpl.
  - rewrite elem_of_nil. naive_solver.
  - rewrite IH, elem_of_difference, elem_of_singleton, not_elem_of_cons.
    naive_solver.
Qed.

Lemma StronglySorted_strict (l : list string) :
  StronglySorted (λ a b, String.ltb b a = false) l → NoDup l →
  StronglySorted (λ a b, String.ltb a b = true) l.
Proof.
  induction 1 as [|x l Hs IH Hx]; intros Hnd; [constructor|].
  apply NoDup_cons in Hnd as [Hnin Hnd]. constructor; [by apply IH|].
  apply Forall_forall. intros y Hy.
  apply leb_neq_ltb; [by eapply (proj1 (Forall_forall _ _) Hx)|].
  by intros ->.
Qed.

(** ** Sets of strings and of labels *)

Lemma enumerates_elem `{Countable K} (range : gset K → list K) (X : gset K)
    (x : K) :
  enumerates range → x ∈ range X ↔ x ∈ X.
Proof. intros Hr. by rewrite (Hr X), elem_of_elements. Qed.

Lemma enumerates_NoDup `{Countable K} (range : gset K → list K)
    (X : gset K) :
  enumerates range → NoDup (range X).
Proof. intros Hr. rewrite (Hr X). apply NoDup_elements. Qed.

Lemma foldl_set_insert_list `{Countable K} (l : list K) :
  foldl (λ (m : gset K) k, {[k]} ∪ m) ∅ l = list_to_set l.
Proof.
  apply set_eq. intros x.
  rewrite foldl_set_insert, elem_of_list_to_set, elem_of_empty.
  naive_solver.
Qed.

(** Sorting the keys of a set of strings gives a result that does not
    depend on the order in which the keys are met. *)
Lemma SliceStable_strings (l1 l2 : list string) :
  l1 ≡ₚ l2 → sort.SliceStable String.ltb l1 = sort.SliceStable String.ltb l2.
Proof.
  intros Hp.
  apply (StronglySorted_unique_strong (λ a b, String.ltb b a = false)).
  - intros x1 x2 _ _ H1 H2. by apply leb_antisym.
  - apply SliceStable_sorted; [apply ltb_asym|apply leb_trans].
  - apply SliceStable_sorted; [apply ltb_asym|apply leb_trans].
  - by rewrite !SliceStable_Permutation.
Qed.

Lemma labelLess_sorted (l : list bazel.Label) :
  StronglySorted (λ a b, labelLess b a = false)
                 (sort.SliceStable labelLess l).
Proof.
  apply SliceStable_sorted; unfold labelLess.
  - intros a b. apply ltb_asym.
  - intros a b d. apply leb_trans.
Qed.

Lemma SliceStable_labels (l1 l2 : list bazel.Label) :
  l1 ≡ₚ l2 →
  (∀ a b, a ∈ l1 → b ∈ l1 →
          bazel.Label_Label a = bazel.Label_Label b → a = b) →
  sort.SliceStable labelLess l1 = sort.SliceStable labelLess l2.
Proof.
  intros Hp Hinj.
  apply (StronglySorted_unique_strong (λ a b, labelLess b a = false)).
  - intros x1 x2 H1 H2 Hle1 Hle2.
    rewrite SliceStable_Permutation in H1.
    rewrite SliceStable_Permutation, <- Hp in H2.
    apply Hinj; [done|done|]. by apply leb_antisym.
  - apply labelLess_sorted.
  - apply labelLess_sorted.
  - by rewrite !SliceStable_Permutation.
Qed.

(** X15: [SubtractStrings] returns the strings of the haystack that are
    not in the needle, each once, in strictly ascending byte order; the
    result does not depend on the order in which the map is ranged
    over. *)
Theorem SubtractStrings_spec (range1 range2 : gset string → list string)
    (haystack needle : list string) :
  enumerates range1 →
  enumerates range2 →
  let r := bazel.SubtractStrings range1 haystack needle in
  (∀ s, s ∈ r ↔ s ∈ haystack ∧ s ∉ needle) ∧
  NoDup r ∧
  StronglySorted (λ a b, String.ltb a b = true) r ∧
  bazel.SubtractStrings range2 haystack needle = r.
Proof.
  intros H1 H2 r. unfold r, bazel.SubtractStrings.
  rewrite !foldl_append_each, !app_nil_l.
  set (remainder := foldl (λ (m : gset string) s, m ∖ {[s]})
                          (foldl (λ m s, {[s]} ∪ m) ∅ haystack) needle).
  assert (NoDup (sort.SliceStable String.ltb (range1 remainder))) as Hnd.
  { rewrite SliceStable_Permutation. by apply enumerates_NoDup. }
  split; [|split; [done|split]].
  - intros s. rewrite SliceStable_Permutation, enumerates_elem by done.
    unfold remainder.
    rewrite foldl_set_delete, foldl_set_insert, elem_of_empty.
    naive_solver.
  - apply StronglySorted_strict; [|done].
    apply SliceStable_sorted; [apply ltb_asym|apply leb_trans].
  - apply SliceStable_strings. by rewrite (H1 remainder), (H2 remainder).
Qed.

(** X16: [UniqueBazelLabels] returns the labels of its argument, each
    once, in ascending byte order of their label text; when no two
    different labels of the argument have the same text, the result does
    not depend on the order in which the map is ranged over. *)
Theorem UniqueBazelLabels_spec (range1 range2 : gset bazel.Label →
                                               list bazel.Label)
    (originalLabels : list bazel.Label) :
  enumerates range1 →
  enumerates range2 →
  let r := bazel.UniqueBazelLabels range1 originalLabels in
  (∀ l, l ∈ r ↔ l ∈ originalLabels) ∧
  NoDup r ∧
  StronglySorted (λ a b, String.ltb (bazel.Label_Label b)
                                    (bazel.Label_Label a) = false) r ∧
  ((∀ a b, a ∈ originalLabels → b ∈ originalLabels →
           bazel.Label_Label a = bazel.Label_Label b → a = b) →
   bazel.UniqueBazelLabels range2 originalLabels = r).
Proof.
  intros H1 H2 r. unfold r, bazel.UniqueBazelLabels.
  rewrite !foldl_append_each, !app_nil_l, foldl_set_insert_list.
  fold labelLess.
  split; [|split; [|split]].
  - intros l.
    by rewrite SliceStable_Permutation, enumerates_elem,
      elem_of_list_to_set.
  - rewrite SliceStable_Permutation. by apply enumerates_NoDup.
  - apply labelLess_sorted.
  - intros Hinj. apply SliceStable_labels.
    + by rewrite (H1 _), (H2 _).
    + intros a b Ha Hb.
      rewrite enumerates_elem, elem_of_list_to_set in Ha, Hb by done.
      by apply Hinj.
Qed.

(** X17: when all the labels of the argument have the same label text
    (they differ in the original module name only), [UniqueBazelLabels]
    returns them in the order in which the map was ranged over: the
    result is then as little determined as that order is. *)
Theorem UniqueBazelLabels_ties (range1 range2 : gset bazel.Label →
                                               list bazel.Label)
    (originalLabels : list bazel.Label) :
  (∀ a b, a ∈ originalLabels → b ∈ originalLabels →
          bazel.Label_Label a = bazel.Label_Label b) →
  enumerates range1 →
  enumerates range2 →
  bazel.UniqueBazelLabels range1 originalLabels
  = range1 (list_to_set originalLabels) ∧
  (range1 (list_to_set originalLabels) ≠ range2 (list_to_set originalLabels)
   → bazel.UniqueBazelLabels range1 originalLabels
     ≠ bazel.UniqueBazelLabels range2 originalLabels).
Proof.
  intros Htie H1 H2.
  assert (∀ range, enumerates range →
            bazel.UniqueBazelLabels range originalLabels
            = range (list_to_set originalLabels)) as Hid.
  { intros range Hr. unfold bazel.UniqueBazelLabels.
    rewrite foldl_append_each, app_nil_l, foldl_set_insert_list.
    apply SliceStable_sorted_id.
    assert (∀ a, a ∈ range (list_to_set originalLabels) →
                 a ∈ originalLabels) as Hsub.
    { intros a. by rewrite enumerates_elem, elem_of_list_to_set. }
    revert Hsub. generalize (range (list_to_set originalLabels)).
    intros l. induction l as [|x l IH]; intros Hsub; constructor.
    - apply IH. intros a Ha. apply Hsub. by right.
    - apply Forall_forall. intros y Hy.
      rewrite (Htie y x); [apply ltb_irrefl| |]; apply Hsub;
        [by right|by left]. }
  rewrite !Hid by done. done.
Qed.

(** X18: [SubtractBazelLabelList] returns as includes the includes of the
    haystack that are not includes of the needle, each once, in ascending
    byte order of their label text, and as excludes the excludes of the
    haystack as they are, whatever the needle holds. *)
Theorem SubtractBazelLabelList_spec (range : gset bazel.Label →
                                             list bazel.Label)
    (haystack needle : bazel.LabelList) :
  enumerates range →
  let r := bazel.SubtractBazelLabelList range haystack needle in
  (∀ l, l ∈ bazel.Includes r ↔
        l ∈ bazel.Includes haystack ∧ l ∉ bazel.Includes needle) ∧
  NoDup (bazel.Includes r) ∧
  StronglySorted (λ a b, String.ltb (bazel.Label_Label b)
                                    (bazel.Label_Label a) = false)
                 (bazel.Includes r) ∧
  bazel.Excludes r = bazel.Excludes haystack ∧
  (bazel.Includes needle = [] →
   bazel.Includes r = bazel.UniqueBazelLabels range (bazel.Includes haystack)).
Proof.
  intros Hr r. unfold r, bazel.SubtractBazelLabelList. simpl.
  unfold bazel.SubtractBazelLabels, bazel.UniqueBazelLabels.
  rewrite !foldl_append_each, !app_nil_l. fold labelLess.
  split; [|split; [|split; [|split]]].
  - intros l. rewrite SliceStable_Permutation, enumerates_elem by done.
    rewrite foldl_set_delete, foldl_set_insert, elem_of_empty.
    naive_solver.
  - rewrite SliceStable_Permutation. by apply enumerates_NoDup.
  - apply labelLess_sorted.
  - done.
  - by intros ->.
Qed.

(** ** Appending label lists *)

Lemma LabelList_Append_fields (ll other : bazel.LabelList) :
  bazel.LabelList_Append ll other
  = bazel.mkLabelList (bazel.Includes ll ++ bazel.Includes other)
                      (bazel.Excludes other ++ bazel.Excludes other).
Proof.
  unfold bazel.LabelList_Append.
  destruct ll as [[|i1 is1] [|e1 es1]], other as [[|i2 is2] [|e2 es2]];
    simpl; repeat case_bool_decide; simpl in *; try done;
    exfalso; naive_solver lia.
Qed.

(** X19: whatever the receiver holds, [Append] leaves it with its own
    includes followed by those of the other list, and with the excludes
    of the other list twice over: the excludes the receiver had are
    dropped.  So appending a list without excludes clears the excludes
    of the receiver. *)
Theorem LabelList_Append_drops_excludes (ll other : bazel.LabelList) :
  bazel.Includes (bazel.LabelList_Append ll other)
  = bazel.Includes ll ++ bazel.Includes other ∧
  bazel.Excludes (bazel.LabelList_Append ll other)
  = bazel.Excludes other ++ bazel.Excludes other ∧
  (bazel.Excludes other = [] →
   bazel.Excludes (bazel.LabelList_Append ll other) = []) ∧
  (∀ l, l ∈ bazel.Excludes ll → l ∉ bazel.Excludes other →
        l ∉ bazel.Excludes (bazel.LabelList_Append ll other)).
Proof.
  rewrite LabelList_Append_fields. simpl.
  split; [done|]. split; [done|]. split.
  - by intros ->.
  - intros l _ Hl. rewrite elem_of_app. naive_solver.
Qed.

(** X20: the headers collected over the include directories have as
    includes the includes of the label list of every directory, in the
    order of the directories, and as excludes only those of the label
    list of the last directory, twice over. *)
Theorem collectHeaders_spec (F : list string → bazel.LabelList)
    (includeDirs : list string) :
  bazel.Includes (cc.collectHeaders F includeDirs)
  = concat ((λ d, bazel.Includes (cc.bp2BuildListHeadersInDir F d))
              <$> includeDirs) ∧
  bazel.Excludes (cc.collectHeaders F includeDirs)
  = match last includeDirs with
    | Some d => bazel.Excludes (cc.bp2BuildListHeadersInDir F d) ++
                bazel.Excludes (cc.bp2BuildListHeadersInDir F d)
    | None => []
    end.
Proof.
  unfold cc.collectHeaders.
  induction includeDirs as [|d includeDirs IH] using rev_ind; [done|].
  rewrite foldl_app. simpl. rewrite LabelList_Append_fields. simpl.
  destruct IH as [-> _]. rewrite fmap_app, concat_app, last_snoc. simpl.
  by rewrite app_nil_r.
Qed.

(** ** Paths and globs *)

Lemma TrimPrefix_app (prefix s : string) :
  strings.TrimPrefix (prefix +:+ s) prefix = s.
Proof.
  unfold strings.TrimPrefix.
  assert (strings.HasPrefix (prefix +:+ s) prefix = true) as ->.
  { apply HasPrefix_spec. by exists s. }
  apply drop_app.
Qed.

(** X21: [bp2BuildMakePathsRelativeToModule] returns one path for each
    path given, in order; a path under the module directory loses the
    directory and the slash, so the paths of a list of names relative to
    the module directory come back as the names; a list of paths none of
    which begins with the module directory and a slash comes back as it
    is. *)
Theorem bp2BuildMakePathsRelativeToModule_spec (moduleDir : string)
    (paths : list string) :
  length (cc.bp2BuildMakePathsRelativeToModule moduleDir paths)
  = length paths ∧
  cc.bp2BuildMakePathsRelativeToModule moduleDir
    ((λ name, moduleDir +:+ "/" +:+ name) <$> paths) = paths ∧
  (Forall (λ path, strings.HasPrefix path (moduleDir +:+ "/") = false) paths
   → cc.bp2BuildMakePathsRelativeToModule moduleDir paths = paths).
Proof.
  unfold cc.bp2BuildMakePathsRelativeToModule.
  assert (∀ l, foldl (λ relativePaths path,
                        relativePaths ++
                        [strings.TrimPrefix path (moduleDir +:+ "/")]) [] l
               = (λ path, strings.TrimPrefix path (moduleDir +:+ "/")) <$> l)
    as Hmap.
  { intros l. induction l as [|p l IH] using rev_ind; [done|].
    by rewrite foldl_app, fmap_app, IH. }
  rewrite !Hmap. split; [by rewrite length_fmap|]. split.
  - rewrite <- list_fmap_compose. rewrite <- (list_fmap_id paths) at 2.
    apply list_fmap_ext. intros i name _. simpl.
    by rewrite <- sapp_assoc, TrimPrefix_app.
  - intros Hall. rewrite <- (list_fmap_id paths) at 2.
    apply Forall_fmap_ext_1. eapply Forall_impl; [exact Hall|].
    simpl. intros path Hp. unfold strings.TrimPrefix. by rewrite Hp.
Qed.

Lemma GlobsInDir_fmap (dir : string) (recursive : bool)
    (extensions : list string) :
  bazel.GlobsInDir dir recursive extensions
  = (λ ext,
       (if bool_decide (dir = ".")
        then if recursive then "**/" else ""
        else (if recursive then dir +:+ "/**" else dir) +:+ "/")
       +:+ "*" +:+ ext) <$> extensions.
Proof.
  unfold bazel.GlobsInDir.
  assert (∀ (f : string → string) l,
            foldl (λ globs ext, globs ++ [f ext]) [] l = f <$> l) as Hmap.
  { intros f l. induction l as [|p l IH] using rev_ind; [done|].
    by rewrite foldl_app, fmap_app, IH. }
  case_bool_decide.
  - by rewrite (Hmap (λ ext, _ +:+ "*" +:+ ext)).
  - rewrite (Hmap (λ ext, _ +:+ "/*" +:+ ext)).
    apply list_fmap_ext. intros i ext _. simpl.
    rewrite !sapp_assoc. reflexivity.
Qed.

(** X22: for an include directory other than ".", the globs that
    [bp2BuildListHeadersInDir] resolves are the recursive globs that
    [GlobsInDir] gives for the three header extensions; for "." they are
    the non-recursive globs "./*.h", "./*.inc" and "./*.hpp", which are
    neither the recursive nor the non-recursive globs of [GlobsInDir]
    for ".". *)
Theorem bp2BuildListHeadersInDir_globs (F : list string → bazel.LabelList)
    (includeDir : string) :
  let exts := [".h"; ".inc"; ".hpp"] in
  cc.bp2BuildListHeadersInDir F includeDir
  = F (if bool_decide (includeDir = ".")
       then String.append "./" <$> bazel.GlobsInDir "." false exts
       else bazel.GlobsInDir includeDir true exts) ∧
  ∀ recursive,
    String.append "./" <$> bazel.GlobsInDir "." false exts
    ≠ bazel.GlobsInDir "." recursive exts.
Proof.
  intros exts. split.
  - unfold cc.bp2BuildListHeadersInDir. case_bool_decide as Hdot.
    + subst includeDir. reflexivity.
    + rewrite GlobsInDir_fmap, bool_decide_false by done. simpl.
      rewrite !sapp_assoc. reflexivity.
  - intros [|]; vm_compute; discriminate.
Qed.

(** ** Configurable attributes *)

Lemma PlatformArchMap_dom (arch : string) :
  arch ∈ dom bazel.PlatformArchMap ↔
  arch = bazel.ARCH_X86 ∨ arch = bazel.ARCH_X86_64 ∨
  arch = bazel.ARCH_ARM ∨ arch = bazel.ARCH_ARM64.
Proof.
  unfold bazel.PlatformArchMap. rewrite !dom_insert, dom_empty.
  rewrite !elem_of_union, !elem_of_singleton, elem_of_empty. naive_solver.
Qed.

Lemma PlatformOsMap_dom (os : string) :
  os ∈ dom bazel.PlatformOsMap ↔
  os = bazel.OS_ANDROID ∨ os = bazel.OS_DARWIN ∨ os = bazel.OS_FUCHSIA ∨
  os = bazel.OS_LINUX ∨ os = bazel.OS_LINUX_BIONIC ∨ os = bazel.OS_WINDOWS.
Proof.
  unfold bazel.PlatformOsMap. rewrite !dom_insert, dom_empty.
  rewrite !elem_of_union, !elem_of_singleton, elem_of_empty. naive_solver.
Qed.

(** X23: [SetValueForArch] panics with "Unknown arch: " and the name
    exactly when the name is not an architecture of [PlatformArchMap],
    and then [GetValueForArch] panics alike; otherwise the attribute it
    leaves gives the value back for that architecture, gives what it gave
    before for every other name, and has its base value, its os-specific
    values and its [Common] value untouched. *)
Theorem SetValueForArch_GetValueForArch {A : Type}
    (attrs : bazel.Attribute A) (arch : string) (value : A) :
  match bazel.SetValueForArch attrs arch value with
  | inr attrs' =>
      arch ∈ dom bazel.PlatformArchMap ∧
      bazel.GetValueForArch attrs' arch = inr value ∧
      (∀ other, other ≠ arch →
                bazel.GetValueForArch attrs' other
                = bazel.GetValueForArch attrs other) ∧
      bazel.Value attrs' = bazel.Value attrs ∧
      bazel.OsValues attrs' = bazel.OsValues attrs ∧
      bazel.Common (bazel.ArchValues attrs')
      = bazel.Common (bazel.ArchValues attrs)
  | inl e =>
      ¬ (arch ∈ dom bazel.PlatformArchMap) ∧
      e = "Unknown arch: " +:+ arch ∧
      bazel.GetValueForArch attrs arch = inl e
  end.
Proof.
  unfold bazel.SetValueForArch.
  repeat case_bool_decide; subst;
    try (split; [apply PlatformArchMap_dom; naive_solver|];
         split; [done|]; split; [|done];
         intros other Hne; unfold bazel.GetValueForArch; simpl;
         repeat case_bool_decide; subst; done).
  split; [rewrite PlatformArchMap_dom; naive_solver|]. split; [done|].
  unfold bazel.GetValueForArch. by rewrite !bool_decide_false.
Qed.

(** X24: [SetValueForOS] panics with "Unknown os: " and the name exactly
    when the name is not an operating system of [PlatformOsMap], and then
    [GetValueForOS] panics alike; otherwise the attribute it leaves gives
    the value back for that operating system, gives what it gave before
    for every other name, and has its base value and its arch-specific
    values untouched. *)
Theorem SetValueForOS_GetValueForOS {A : Type}
    (attrs : bazel.Attribute A) (os : string) (value : A) :
  match bazel.SetValueForOS attrs os value with
  | inr attrs' =>
      os ∈ dom bazel.PlatformOsMap ∧
      bazel.GetValueForOS attrs' os = inr value ∧
      (∀ other, other ≠ os →
                bazel.GetValueForOS attrs' other
                = bazel.GetValueForOS attrs other) ∧
      bazel.Value attrs' = bazel.Value attrs ∧
      bazel.ArchValues attrs' = bazel.ArchValues attrs
  | inl e =>
      ¬ (os ∈ dom bazel.PlatformOsMap) ∧
      e = "Unknown os: " +:+ os ∧
      bazel.GetValueForOS attrs os = inl e
  end.
Proof.
  unfold bazel.SetValueForOS.
  repeat case_bool_decide; subst;
    try (split; [apply PlatformOsMap_dom; naive_solver|];
         split; [done|]; split; [|done];
         intros other Hne; unfold bazel.GetValueForOS; simpl;
         repeat case_bool_decide; subst; done).
  split; [rewrite PlatformOsMap_dom; naive_solver|]. split; [done|].
  unfold bazel.GetValueForOS. by rewrite !bool_decide_false.
Qed.

Lemma anyConfigured_existsb {A : Type} (nonEmpty : A → bool)
    (get : string → error + A) (f : string → A) (names : list string) :
  (∀ name, name ∈ names → get name = inr (f name)) →
  bazel.anyConfigured nonEmpty get names
  = inr (existsb (λ name, nonEmpty (f name)) names).
Proof.
  induction names as [|name names IH]; intros Hget; simpl; [done|].
  rewrite (Hget name) by by left.
  destruct (nonEmpty (f name)); [done|]. apply IH. intros n Hn.
  apply Hget. by right.
Qed.

Lemma existsb_Permutation {A : Type} (f : A → bool) (l1 l2 : list A) :
  l1 ≡ₚ l2 → existsb f l1 = existsb f l2.
Proof.
  induction 1 as [|x l1 l2 _ IH|x y l|l1 l2 l3 _ IH1 _ IH2]; simpl.
  - done.
  - by rewrite IH.
  - by destruct (f x), (f y).
  - by rewrite IH1.
Qed.

Lemma existsb_elements_dom {A : Type} (f : string → bool)
    (m : gmap string A) (names : list string) :
  NoDup names → (∀ name, name ∈ dom m ↔ name ∈ names) →
  existsb f (elements (dom m)) = existsb f names.
Proof.
  intros Hnd Hdom. apply existsb_Permutation, NoDup_Permutation.
  - apply NoDup_elements.
  - done.
  - intros name. by rewrite elem_of_elements.
Qed.

(** What [HasConfigurableValues] computes for either kind of value. *)
Lemma HasConfigurableValues_run {A : Type} (nonEmpty : A → bool)
    (archOrder osOrder : list string) (attrs : bazel.Attribute A) :
  archOrder ≡ₚ elements (dom bazel.PlatformArchMap) →
  osOrder ≡ₚ elements (dom bazel.PlatformOsMap) →
  bazel.HasConfigurableValues nonEmpty archOrder osOrder attrs
  = inr (nonEmpty (bazel.X86 (bazel.ArchValues attrs)) ||
         nonEmpty (bazel.X86_64 (bazel.ArchValues attrs)) ||
         nonEmpty (bazel.Arm (bazel.ArchValues attrs)) ||
         nonEmpty (bazel.Arm64 (bazel.ArchValues attrs)) ||
         nonEmpty (bazel.Android (bazel.OsValues attrs)) ||
         nonEmpty (bazel.Darwin (bazel.OsValues attrs)) ||
         nonEmpty (bazel.Fuchsia (bazel.OsValues attrs)) ||
         nonEmpty (bazel.Linux (bazel.OsValues attrs)) ||
         nonEmpty (bazel.LinuxBionic (bazel.OsValues attrs)) ||
         nonEmpty (bazel.Windows (bazel.OsValues attrs))).
Proof.
  intros Harch Hos. unfold bazel.HasConfigurableValues.
  set (fa := λ name,
         match bazel.GetValueForArch attrs name with
         | inr v => v
         | inl _ => bazel.Value attrs
         end).
  set (fo := λ name,
         match bazel.GetValueForOS attrs name with
         | inr v => v
         | inl _ => bazel.Value attrs
         end).
  rewrite (anyConfigured_existsb nonEmpty _ fa).
  2:{ intros name Hname. rewrite Harch, elem_of_elements in Hname.
      apply PlatformArchMap_dom in Hname. unfold fa.
      destruct Hname as [-> | [-> | [-> | ->]]]; reflexivity. }
  rewrite (anyConfigured_existsb nonEmpty _ fo).
  2:{ intros name Hname. rewrite Hos, elem_of_elements in Hname.
      apply PlatformOsMap_dom in Hname. unfold fo.
      destruct Hname as [-> | [-> | [-> | [-> | [-> | ->]]]]]; reflexivity. }
  rewrite (existsb_Permutation _ _ _ Harch), (existsb_Permutation _ _ _ Hos).
  rewrite (existsb_elements_dom _ _
             [bazel.ARCH_X86; bazel.ARCH_X86_64; bazel.ARCH_ARM;
              bazel.ARCH_ARM64]).
  2:{ apply (bool_decide_unpack _). by vm_compute. }
  2:{ intros name. rewrite PlatformArchMap_dom.
      rewrite !elem_of_cons, elem_of_nil. naive_solver. }
  rewrite (existsb_elements_dom _ _
             [bazel.OS_ANDROID; bazel.OS_DARWIN; bazel.OS_FUCHSIA;
              bazel.OS_LINUX; bazel.OS_LINUX_BIONIC; bazel.OS_WINDOWS]).
  2:{ apply (bool_decide_unpack _). by vm_compute. }
  2:{ intros name. rewrite PlatformOsMap_dom.
      rewrite !elem_of_cons, elem_of_nil. naive_solver. }
  cbn [existsb].
  change (fa bazel.ARCH_X86) with (bazel.X86 (bazel.ArchValues attrs)).
  change (fa bazel.ARCH_X86_64) with (bazel.X86_64 (bazel.ArchValues attrs)).
  change (fa bazel.ARCH_ARM) with (bazel.Arm (bazel.ArchValues attrs)).
  change (fa bazel.ARCH_ARM64) with (bazel.Arm64 (bazel.ArchValues attrs)).
  change (fo bazel.OS_ANDROID) with (bazel.Android (bazel.OsValues attrs)).
  change (fo bazel.OS_DARWIN) with (bazel.Darwin (bazel.OsValues attrs)).
  change (fo bazel.OS_FUCHSIA) with (bazel.Fuchsia (bazel.OsValues attrs)).
  change (fo bazel.OS_LINUX) with (bazel.Linux (bazel.OsValues attrs)).
  change (fo bazel.OS_LINUX_BIONIC)
    with (bazel.LinuxBionic (bazel.OsValues attrs)).
  change (fo bazel.OS_WINDOWS) with (bazel.Windows (bazel.OsValues attrs)).
  clear fa fo.
  repeat match goal with
         | |- context [nonEmpty ?v] => destruct (nonEmpty v)
         end; reflexivity.
Qed.

(** X25: in whatever order the two platform maps are ranged over,
    [HasConfigurableValues] does not panic and returns true exactly when
    the value of one of the four architectures or of one of the six
    operating systems is not empty (for a label list: has includes); the
    base value, the [Common] value and the excludes of label lists have
    no bearing. *)
Theorem HasConfigurableValues_spec (archOrder osOrder : list string)
    (strings : bazel.StringListAttribute)
    (labels : bazel.LabelListAttribute) :
  archOrder ≡ₚ elements (dom bazel.PlatformArchMap) →
  osOrder ≡ₚ elements (dom bazel.PlatformOsMap) →
  (∃ b, bazel.StringListAttribute_HasConfigurableValues archOrder osOrder
          strings = inr b ∧
        (b = true ↔
         (∃ arch v, bazel.GetValueForArch strings arch = inr v ∧ v ≠ []) ∨
         (∃ os v, bazel.GetValueForOS strings os = inr v ∧ v ≠ []))) ∧
  (∃ b, bazel.LabelListAttribute_HasConfigurableValues archOrder osOrder
          labels = inr b ∧
        (b = true ↔
         (∃ arch v, bazel.GetValueForArch labels arch = inr v ∧
                    bazel.Includes v ≠ []) ∨
         (∃ os v, bazel.GetValueForOS labels os = inr v ∧
                  bazel.Includes v ≠ []))).
Proof.
  intros Harch Hos.
  assert (∀ {B} (l : list B), bool_decide (0 < length l) = true ↔ l ≠ [])
    as Hlen.
  { intros B l. rewrite bool_decide_eq_true.
    destruct l; simpl; split; intros; (lia || done). }
  assert (∀ {A} (nonEmpty : A → bool) (attrs : bazel.Attribute A),
            ∃ b, bazel.HasConfigurableValues nonEmpty archOrder osOrder attrs
                 = inr b ∧
                 (b = true ↔
                  (∃ arch v, bazel.GetValueForArch attrs arch = inr v ∧
                             nonEmpty v = true) ∨
                  (∃ os v, bazel.GetValueForOS attrs os = inr v ∧
                           nonEmpty v = true))) as Hgen.
  { intros A nonEmpty attrs.
    rewrite (HasConfigurableValues_run nonEmpty _ _ attrs Harch Hos).
    eexists. split; [reflexivity|].
    rewrite !orb_true_iff. split.
    - intros [[[[[[[[[H|H]|H]|H]|H]|H]|H]|H]|H]|H];
        [left; exists bazel.ARCH_X86
        |left; exists bazel.ARCH_X86_64
        |left; exists bazel.ARCH_ARM
        |left; exists bazel.ARCH_ARM64
        |right; exists bazel.OS_ANDROID
        |right; exists bazel.OS_DARWIN
        |right; exists bazel.OS_FUCHSIA
        |right; exists bazel.OS_LINUX
        |right; exists bazel.OS_LINUX_BIONIC
        |right; exists bazel.OS_WINDOWS];
        eexists; (split; [reflexivity|exact H]).
    - intros [(arch & v & Hget & Hv)|(os & v & Hget & Hv)].
      + unfold bazel.GetValueForArch in Hget.
        repeat case_bool_decide; simplify_eq; rewrite Hv; naive_solver.
      + unfold bazel.GetValueForOS in Hget.
        repeat case_bool_decide; simplify_eq; rewrite Hv; naive_solver. }
  split.
  - destruct (Hgen _ (λ v : list string, bool_decide (0 < length v)) strings)
      as (b & Hrun & Hb).
    exists b. split; [exact Hrun|]. rewrite Hb.
    by setoid_rewrite Hlen.
  - destruct (Hgen _ (λ v, bool_decide (0 < length (bazel.Includes v)))
                   labels) as (b & Hrun & Hb).
    exists b. split; [exact Hrun|]. rewrite Hb.
    by setoid_rewrite Hlen.
Qed.

(** ** Failures of the invocation *)

Section FailureFacts.
Context (ext : Externals) (os : OS).
Context {R : Type} `{!bazelRunner R}.

Local Arguments mainBzlFile_contents : simpl never.
Local Arguments workspaceFile_formatString : simpl never.

(** X26: when the write of one of the four generated files fails and the
    writes before it succeed, [InvokeBazel] returns the error of that
    write; no Bazel command has been issued and the runner has not been
    called, the failed write is the last thing done, the results are empty
    and the requests and build statements are as they were. *)
Theorem InvokeBazel_setup_failure (sch : Schedule) (w : world R) (i : nat)
    (path data : string) (e : error) :
  generatedFiles ext sch (ctx w) !! i = Some (path, data) →
  ioutil_WriteFile os path data = Some e →
  (∀ j p d, j < i → generatedFiles ext sch (ctx w) !! j = Some (p, d) →
            ioutil_WriteFile os p d = None) →
  ∃ w' evs,
    InvokeBazel ext os sch w = (w', inl e) ∧
    log w' = log w ++ evs ∧
    last evs = Some (EvWriteFile path data) ∧
    forallb (λ ev, negb (is_bazel_command ev)) evs = true ∧
    runner (ctx w') = runner (ctx w) ∧
    results (ctx w') = ∅ ∧
    requests (ctx w') = requests (ctx w) ∧
    buildStatements (ctx w') = buildStatements (ctx w).
Proof.
  intros Hi He Hprev. destruct w as [c l]. destruct c as [r p rq rs bs].
  unfold generatedFiles, mainBzlFileContents, workspaceFileContents
    in Hi, Hprev.
  simpl in Hi, Hprev.
  unfold InvokeBazel, InvokeBazel_query, Stat_IsNotExist, Mkdir, WriteFile,
    mainBzlFileContents, workspaceFileContents.
  run_monad.
  destruct i as [|[|[|[|i]]]]; simpl in Hi; [| | | |done];
    injection Hi as <- <-.
  - rewrite He.
    destruct (os_Stat_IsNotExist os _); run_monad; rewrite <- ?app_assoc;
      eexists _, _; (split; [reflexivity|]); simpl;
      (split; [reflexivity|done]).
  - rewrite (Hprev 0 _ _ ltac:(lia) eq_refl), He.
    destruct (os_Stat_IsNotExist os _); run_monad; rewrite <- ?app_assoc;
      eexists _, _; (split; [reflexivity|]); simpl;
      (split; [reflexivity|done]).
  - rewrite (Hprev 0 _ _ ltac:(lia) eq_refl),
      (Hprev 1 _ _ ltac:(lia) eq_refl), He.
    destruct (os_Stat_IsNotExist os _); run_monad; rewrite <- ?app_assoc;
      eexists _, _; (split; [reflexivity|]); simpl;
      (split; [reflexivity|done]).
  - rewrite (Hprev 0 _ _ ltac:(lia) eq_refl),
      (Hprev 1 _ _ ltac:(lia) eq_refl),
      (Hprev 2 _ _ ltac:(lia) eq_refl), He.
    destruct (os_Stat_IsNotExist os _); run_monad; rewrite <- ?app_assoc;
      eexists _, _; (split; [reflexivity|]); simpl;
      (split; [reflexivity|done]).
Qed.

End FailureFacts.

(** * Properties of the fake ninja file *)

(** X27: the two writes of [writeFakeNinjaFile] go to one and the same
    path, build.ninja under the build directory, so what the function
    leaves is what its second write alone leaves: when the path can be
    written the file holds the dependency line and not the rule of the
    target named nothing, and no other path, a build.ninja.d among them,
    is touched. *)
Theorem writeFakeNinjaFile_one_file (JoinPath : list string → string)
    (topDir : string) (writable : string → bool)
    (extraNinjaDeps : list string) (buildDir : string)
    (files : gmap string string) :
  let ninjaFile := JoinPath [topDir; buildDir; "build.ninja"] in
  let deps :=
    "build.ninja: \" +:+ nl +:+ " " +:+
    strings.Join extraNinjaDeps (" \" +:+ nl +:+ " ") +:+ nl in
  let files' :=
    writeFakeNinjaFile JoinPath topDir writable extraNinjaDeps buildDir
                       files in
  files' = ioutil_WriteFile_files writable ninjaFile deps files ∧
  (∀ path, path ≠ ninjaFile → files' !! path = files !! path) ∧
  files' !! ninjaFile
  = (if writable ninjaFile then Some deps else files !! ninjaFile) ∧
  deps ≠ "build nothing: phony" +:+ nl +:+ "  phony_output = true" +:+ nl.
Proof.
  intros ninjaFile deps files'.
  assert (files' = ioutil_WriteFile_files writable ninjaFile deps files)
    as Heq.
  { unfold files', writeFakeNinjaFile, ioutil_WriteFile_files.
    fold ninjaFile. destruct (writable ninjaFile); [|done].
    apply insert_insert_eq. }
  split; [done|]. rewrite Heq. unfold ioutil_WriteFile_files.
  split; [|split].
  - intros path Hne. destruct (writable ninjaFile); [|done].
    by rewrite lookup_insert_ne.
  - destruct (writable ninjaFile); [|done]. by rewrite lookup_insert_eq.
  - unfold deps. intros Hd. discriminate Hd.
Qed.

(** ** Globs of loose headers *)

(** X28: [LooseHdrsGlobs] lists, for every parent directory of an
    include, once per directory, the non-recursive glob of every
    extension: a glob is listed exactly when it is the glob of an
    extension for the directory of some include, there are as many globs
    as directories times extensions, and the excludes of the label list
    have no bearing. *)
Theorem LooseHdrsGlobs_spec (filepath_Dir : string → string)
    (range : gset string → list string) (ll : bazel.LabelList)
    (exts : list string) :
  enumerates range →
  let dirs := bazel.uniqueParentDirectories filepath_Dir range ll in
  let globs := bazel.LooseHdrsGlobs filepath_Dir range ll exts in
  NoDup dirs ∧
  (∀ dir, dir ∈ dirs ↔
          ∃ l, l ∈ bazel.Includes ll ∧
               dir = filepath_Dir (bazel.Label_Label l)) ∧
  (∀ glob, glob ∈ globs ↔
           ∃ l ext, l ∈ bazel.Includes ll ∧ ext ∈ exts ∧
                    glob = (if bool_decide
                                 (filepath_Dir (bazel.Label_Label l) = ".")
                            then ""
                            else filepath_Dir (bazel.Label_Label l) +:+ "/")
                           +:+ "*" +:+ ext) ∧
  length globs = length dirs * length exts ∧
  ∀ excludes,
    bazel.LooseHdrsGlobs filepath_Dir range
      (bazel.mkLabelList (bazel.Includes ll) excludes) exts = globs.
Proof.
  intros Hr dirs globs.
  assert (∀ (f : string → list string) l,
            foldl (λ acc d, acc ++ f d) [] l = concat (f <$> l)) as Hcat.
  { intros f l. induction l as [|d l IH] using rev_ind; [done|].
    rewrite foldl_app, fmap_app, concat_app, IH. simpl.
    by rewrite app_nil_r. }
  assert (∀ (m : gset string) (l : list bazel.Label) d,
            d ∈ foldl (λ m label,
                         {[filepath_Dir (bazel.Label_Label label)]} ∪ m) m l
            ↔ (∃ x, x ∈ l ∧ d = filepath_Dir (bazel.Label_Label x)) ∨ d ∈ m)
    as Hset.
  { intros m l. revert m. induction l as [|x l IH]; intros m d; simpl.
    - split; [by right|]. intros [(x & Hx & _)|?]; [|done].
      by apply elem_of_nil in Hx.
    - rewrite IH, elem_of_union, elem_of_singleton. split.
      + intros [(y & Hy & ->)|[->|?]].
        * left. exists y. split; [by right|done].
        * left. exists x. split; [by left|done].
        * by right.
      + intros [(y & Hy & ->)|?]; [|right; by right].
        apply elem_of_cons in Hy as [->|Hy]; [right; by left|].
        left. by exists y. }
  assert (NoDup dirs) as Hnd.
  { unfold dirs, bazel.uniqueParentDirectories.
    rewrite foldl_append_each, app_nil_l. by apply enumerates_NoDup. }
  assert (∀ dir, dir ∈ dirs ↔
                 ∃ l, l ∈ bazel.Includes ll ∧
                      dir = filepath_Dir (bazel.Label_Label l)) as Hdirs.
  { intros dir. unfold dirs, bazel.uniqueParentDirectories.
    rewrite foldl_append_each, app_nil_l, enumerates_elem, Hset by done.
    rewrite elem_of_empty. naive_solver. }
  assert (globs = concat ((λ d, bazel.GlobsInDir d false exts) <$> dirs))
    as Hglobs.
  { unfold globs, bazel.LooseHdrsGlobs. by rewrite Hcat. }
  split; [done|]. split; [done|]. split; [|split].
  - intros glob. rewrite Hglobs. split.
    + intros Hin.
      apply list_elem_of_In, in_concat in Hin as (gs & Hgs & Hg).
      apply list_elem_of_In in Hgs, Hg.
      apply list_elem_of_fmap in Hgs as (d & -> & Hd).
      apply Hdirs in Hd as (l & Hl & ->).
      rewrite GlobsInDir_fmap in Hg.
      apply list_elem_of_fmap in Hg as (ext & -> & Hext).
      exists l, ext. split; [done|]. split; [done|].
      case_bool_decide; [done|]. by rewrite !sapp_assoc.
    + intros (l & ext & Hl & Hext & ->).
      apply list_elem_of_In, in_concat.
      exists (bazel.GlobsInDir (filepath_Dir (bazel.Label_Label l)) false
                               exts).
      split; apply list_elem_of_In.
      * apply list_elem_of_fmap. eexists. split; [reflexivity|].
        apply Hdirs. by exists l.
      * rewrite GlobsInDir_fmap. apply list_elem_of_fmap. exists ext.
        split; [|done]. case_bool_decide; [done|]. by rewrite !sapp_assoc.
  - rewrite Hglobs. generalize dirs. intros l.
    induction l as [|d l IH]; [done|].
    rewrite fmap_cons. cbn [concat].
    rewrite length_app, IH, GlobsInDir_fmap, length_fmap. reflexivity.
  - done.
Qed.

(** * Sample runs of the further properties *)

Ltac no_newline :=
  let H := fresh in
  intros H; repeat (apply occurs_nl_cons in H; [|done]);
  destruct H as ([|? ?] & ? & H); discriminate H.

Lemma enumerates_elements `{Countable K} : enumerates (elements (C:=gset K)).
Proof. by intros X. Qed.

Lemma enumerates_backwards `{Countable K} : enumerates (backwards (K:=K)).
Proof. intros X. apply reverse_Permutation. Qed.

Lemma request_types_share_result_witness :
  let sch := enumeration_schedule sample_ext two_type_requests in
  let w := sample_world foo_arm64_line two_type_requests in
  let w' := (InvokeBazel sample_ext sample_os sch w).1 in
  is_Some (results (ctx w') !! foo_arm64) ∧
  results (ctx w') !! foo_arm64 = results (ctx w') !! foo_arm64_ccinfo.
Proof.
  intros sch w w'.
  destruct (request_types_share_result sample_ext sample_os sch w w'
              "//pkg:foo" getAllFiles getCcInfo (mkArchType "arm64"))
    as (_ & H1 & H2).
  - change (range_requests_results sch) with (elements two_type_requests).
    apply elem_of_elements, elem_of_union. left.
    by apply elem_of_singleton.
  - change (range_requests_results sch) with (elements two_type_requests).
    apply elem_of_elements, elem_of_union. right.
    by apply elem_of_singleton.
  - refine (run_eta (InvokeBazel sample_ext sample_os sch w) _ _).
    vm_compute. reflexivity.
  - split; [exact H1|exact H2].
Defined.

Lemma InvokeBazel_mock_succeeds_witness :
  ∃ w', InvokeBazel sample_ext sample_os sample_schedule
                    (sample_world foo_arm64_line {[foo_arm64]})
        = (w', inr tt) ∧
        commands (runner (ctx w'))
        = [cquery_command; aquery_command; build_command] ∧
        requests (ctx w') = ∅.
Proof.
  destruct (InvokeBazel_mock_succeeds sample_ext sample_os sample_schedule
              (ctx (sample_world foo_arm64_line {[foo_arm64]})) [])
    as (w' & Hrun & Hc & Hr & _).
  - intros p d. reflexivity.
  - intros k Hk. apply list_elem_of_singleton in Hk. subst k.
    vm_compute. eexists. reflexivity.
  - reflexivity.
  - exists w'. split; [exact Hrun|]. split; [exact Hc|exact Hr].
Defined.

Lemma InvokeBazel_builtin_cquery_failure_witness :
  ∃ w', @InvokeBazel sample_ext cquery_fails_os _
          (builtin_issueBazelCommand sample_ext cquery_fails_os)
          sample_schedule (mkWorld builtin_context [])
        = (w', inl (missingResultError foo_arm64 ""
                      "ERROR: Analysis failed")) ∧
        requests (ctx w') = {[foo_arm64]}.
Proof.
  destruct (InvokeBazel_builtin_cquery_failure sample_ext cquery_fails_os
              sample_schedule builtin_context [] foo_arm64 []
              "" "ERROR: Analysis failed" "exit status 1")
    as (w' & Hrun & Hr & _).
  - intros p d. reflexivity.
  - vm_compute. reflexivity.
  - reflexivity.
  - exists w'. split; [exact Hrun|exact Hr].
Defined.

Lemma parseCqueryOutput_snoc_witness :
  parseCqueryOutput ("a|x>>1" +:+ nl +:+ "a|x>>2")
  = <["a|x" := "2"]> (parseCqueryOutput "a|x>>1").
Proof.
  apply (parseCqueryOutput_snoc "a|x>>1" "a|x>>2"). no_newline.
Defined.

Lemma cquery_InvokeBazel_round_trip_witness :
  let w := sample_world foo_arm64_line ∅ in
  let w1 := (cquery "//pkg:foo" getAllFiles (mkArchType "arm64") w).1 in
  let w2 := (InvokeBazel sample_ext sample_os sample_schedule w1).1 in
  (cquery "//pkg:foo" getAllFiles (mkArchType "arm64") w).2
  = inr ("", false) ∧
  ∃ v, cquery "//pkg:foo" getAllFiles (mkArchType "arm64") w2
       = (w2, inr (v, true)).
Proof.
  intros w w1 w2.
  destruct (cquery_InvokeBazel_round_trip sample_ext sample_os
              sample_schedule w
              (InvokeBazel_query sample_ext sample_os sample_schedule w1).1
              w2 "//pkg:foo" getAllFiles (mkArchType "arm64")
              foo_arm64_line "")
    as (Hmiss & v & _ & Hhit).
  - reflexivity.
  - vm_compute. reflexivity.
  - refine (run_eta (InvokeBazel_query sample_ext sample_os sample_schedule
                       w1) _ _).
    vm_compute. reflexivity.
  - refine (run_eta (InvokeBazel sample_ext sample_os sample_schedule w1)
                    _ _).
    vm_compute. reflexivity.
  - split; [exact Hmiss|]. exists v. exact Hhit.
Defined.

Lemma runMixedModeBuild_settles_witness :
  let w := sample_world foo_arm64_line ∅ in
  let w' := (runMixedModeBuild sample_ext sample_os [foo_arm64] [foo_arm64]
               sample_schedule w).1 in
  (∀ k, is_Some (results (ctx w') !! k) ↔
        k ∈ requests (ctx (analysisPass [foo_arm64] w).1)) ∧
  requests (ctx w') = ∅.
Proof.
  intros w w'.
  destruct (runMixedModeBuild_settles sample_ext sample_os [foo_arm64]
              [foo_arm64] sample_schedule w w') as (H1 & _ & H3).
  - vm_compute. reflexivity.
  - refine (run_eta (runMixedModeBuild sample_ext sample_os [foo_arm64]
                       [foo_arm64] sample_schedule w) _ _).
    vm_compute. reflexivity.
  - split; [exact H1|]. apply H3. intros k Hk.
    apply list_elem_of_singleton in Hk. subst k.
    vm_compute. reflexivity.
Defined.

Lemma GenerateBuildActions_ninja_deps_witness :
  ninjaFileDeps (GenerateBuildActions sample_ext sample_os
                   (sample_context []) empty_singleton).1
  = [absolutePath sample_ext
       (filepath_Join sample_ext
          (filepath_Dir sample_ext (ModuleListFile sample_ext)) "bazel.list");
     ""].
Proof.
  destruct (GenerateBuildActions_ninja_deps sample_ext sample_os
              (sample_context []) empty_singleton) as [_ H].
  destruct (H eq_refl) as (_ & _ & _ & Hempty).
  exact (Hempty eq_refl).
Defined.

Lemma SubtractStrings_spec_witness :
  bazel.SubtractStrings backwards ["include"; "arch/arm"; "include"; "src"]
                        ["src"]
  = bazel.SubtractStrings elements
      ["include"; "arch/arm"; "include"; "src"] ["src"].
Proof.
  destruct (SubtractStrings_spec elements backwards
              ["include"; "arch/arm"; "include"; "src"] ["src"]
              enumerates_elements enumerates_backwards) as (_ & _ & _ & H).
  exact H.
Defined.

Lemma UniqueBazelLabels_spec_witness :
  NoDup (bazel.UniqueBazelLabels elements
           [handcrafted_a; handcrafted_b; handcrafted_a]).
Proof.
  destruct (UniqueBazelLabels_spec elements backwards
              [handcrafted_a; handcrafted_b; handcrafted_a]
              enumerates_elements enumerates_backwards) as (_ & H & _).
  exact H.
Defined.

Lemma UniqueBazelLabels_ties_witness :
  bazel.UniqueBazelLabels elements [handcrafted_a; handcrafted_b]
  ≠ bazel.UniqueBazelLabels backwards [handcrafted_a; handcrafted_b].
Proof.
  destruct (UniqueBazelLabels_ties elements backwards
              [handcrafted_a; handcrafted_b]) as [_ H].
  - intros a b Ha Hb.
    apply elem_of_cons in Ha as [->|Ha];
      [|apply list_elem_of_singleton in Ha as ->];
      (apply elem_of_cons in Hb as [->|Hb];
       [|apply list_elem_of_singleton in Hb as ->]); reflexivity.
  - exact enumerates_elements.
  - exact enumerates_backwards.
  - apply H. vm_compute. discriminate.
Defined.

Lemma SubtractBazelLabelList_spec_witness :
  bazel.Excludes
    (bazel.SubtractBazelLabelList elements
       (bazel.mkLabelList [handcrafted_a; handcrafted_b] [handcrafted_a])
       (bazel.mkLabelList [handcrafted_a] [handcrafted_a]))
  = [handcrafted_a].
Proof.
  destruct (SubtractBazelLabelList_spec elements
              (bazel.mkLabelList [handcrafted_a; handcrafted_b]
                                 [handcrafted_a])
              (bazel.mkLabelList [handcrafted_a] [handcrafted_a])
              enumerates_elements) as (_ & _ & _ & H & _).
  exact H.
Defined.

Lemma HasConfigurableValues_spec_witness :
  ∃ b, bazel.StringListAttribute_HasConfigurableValues
         (elements (dom bazel.PlatformArchMap))
         (elements (dom bazel.PlatformOsMap))
         (bazel.MakeStringListAttribute ["-Wall"]) = inr b.
Proof.
  destruct (HasConfigurableValues_spec
              (elements (dom bazel.PlatformArchMap))
              (elements (dom bazel.PlatformOsMap))
              (bazel.MakeStringListAttribute ["-Wall"])
              (bazel.MakeLabelListAttribute elements
                 (bazel.mkLabelList [] [])))
    as [(b & Hb & _) _].
  - reflexivity.
  - reflexivity.
  - exists b. exact Hb.
Defined.

Lemma InvokeBazel_setup_failure_witness :
  let os := write_fails_os "/src/out/soong/bazel/BUILD.bazel" in
  ∃ w', InvokeBazel sample_ext os sample_schedule
                    (sample_world foo_arm64_line {[foo_arm64]})
        = (w', inl "permission denied") ∧
        results (ctx w') = ∅ ∧
        requests (ctx w') = {[foo_arm64]}.
Proof.
  intros os.
  destruct (InvokeBazel_setup_failure sample_ext os sample_schedule
              (sample_world foo_arm64_line {[foo_arm64]}) 1
              (filepath_Join sample_ext
                 (absolutePath sample_ext
                    (intermediatesDir sample_ext sample_paths))
                 "BUILD.bazel")
              (mainBuildFileContents [foo_arm64] ["arm64"])
              "permission denied")
    as (w' & evs & Hrun & _ & _ & _ & _ & Hres & Hreq & _).
  - reflexivity.
  - reflexivity.
  - intros j p d Hj Hl. destruct j as [|j]; [|lia].
    injection Hl as <- <-. reflexivity.
  - exists w'. split; [exact Hrun|]. split; [exact Hres|exact Hreq].
Defined.

Lemma LooseHdrsGlobs_spec_witness :
  NoDup (bazel.uniqueParentDirectories (λ _, ".") elements
           (bazel.mkLabelList [handcrafted_a; handcrafted_b] [])) ∧
  length (bazel.LooseHdrsGlobs (λ _, ".") elements
            (bazel.mkLabelList [handcrafted_a; handcrafted_b] [])
            [".h"; ".inc"])
  = length (bazel.uniqueParentDirectories (λ _, ".") elements
              (bazel.mkLabelList [handcrafted_a; handcrafted_b] [])) * 2.
Proof.
  destruct (LooseHdrsGlobs_spec (λ _, ".") elements
              (bazel.mkLabelList [handcrafted_a; handcrafted_b] [])
              [".h"; ".inc"] enumerates_elements) as (H1 & _ & _ & H2 & _).
  split; [exact H1|exact H2].
Defined.
